(** * 1C MCP Toolkit Proxy: channel registry, command queues, middleware,
      legacy SSE back-channel and result endpoint.

    A shallow embedding of the request-correlation core of
    [onec_mcp_toolkit_proxy] and the proofs of its testable properties.

    Conventions.
    - A Python [str] is a list of Unicode code points ([list N]); [py] turns
      an ASCII literal into one.
    - A Python [dict] is a [gmap]; [None] results are [option].
    - A number of seconds is a finite Python [float], read as the rational
      ([Q]) it denotes: comparisons are exact, sums and differences are
      rounded (see [Clock]).
    - A coroutine is cut at its suspension points ([asyncio.wait_for] on a
      queue or on an event); every piece between two suspension points runs
      without interleaving, which is what the asyncio event loop does: the
      locks of the source are only ever held over code without [await].
    - [asyncio.wait_for] differs between interpreters: up to Python 3.11 it
      runs the awaitable in a task of its own and the caller is resumed in
      a later turn of the event loop; from 3.12 on it awaits in place.
      Both are schedules of the event loop of [Loop] (see there). *)

From Stdlib Require Import QArith Ascii String.
From stdpp Require Import gmap strings list fin_maps.

(** ** Python strings *)

Abbreviation str := (list N).

Fixpoint py (s : string) : str :=
  match s with
  | EmptyString => []
  | String a s' => Ascii.N_of_ascii a :: py s'
  end.

(** Truth value of a string: [bool(s)], false exactly for the empty one. *)
Definition truthy (s : str) : bool :=
  match s with [] => false | _ :: _ => true end.

(** [str.isspace] on one code point: the characters [str.strip()] removes. *)
Definition isspace (c : N) : bool :=
  ((9 <=? c) && (c <=? 13) || (28 <=? c) && (c <=? 32)
   || (c =? 133) || (c =? 160) || (c =? 5760)
   || (8192 <=? c) && (c <=? 8202)
   || (c =? 8232) || (c =? 8233) || (c =? 8239) || (c =? 8287)
   || (c =? 12288))%N.

Fixpoint lstrip (s : str) : str :=
  match s with
  | c :: s' => if isspace c then lstrip s' else s
  | [] => []
  end.

Definition rstrip (s : str) : str := rev (lstrip (rev s)).

(** [s.strip()] *)
Definition strip (s : str) : str := rstrip (lstrip s).

(** ** channel_registry.py *)

Module Registry.

(** The character class [[a-zA-Z0-9_-]]. *)
Definition channel_char (c : N) : bool :=
  ((97 <=? c) && (c <=? 122) || (65 <=? c) && (c <=? 90)
   || (48 <=? c) && (c <=? 57) || (c =? 95) || (c =? 45))%N.

(** Greedy [[a-zA-Z0-9_-]{0,n}]: what is left of [s] after it. *)
Fixpoint skip_channel_chars (n : nat) (s : str) : str :=
  match n, s with
  | S n', c :: s' => if channel_char c then skip_channel_chars n' s' else s
  | _, _ => s
  end.

(** [$] without [re.MULTILINE]: at the end of the string, or just before a
    newline that ends the string. *)
Definition at_dollar (s : str) : bool :=
  match s with
  | [] => true
  | [10%N] => true
  | _ => false
  end.

(** [CHANNEL_ID_PATTERN.match(s)] for
    [CHANNEL_ID_PATTERN = re.compile(r'^[a-zA-Z0-9_-]{1,64}$')], as a truth
    value.  The class excludes the newline, so backing off the greedy
    repetition never helps [$]. *)
Definition CHANNEL_ID_PATTERN_match (s : str) : bool :=
  match s with
  | c :: s' => channel_char c && at_dollar (skip_channel_chars 63 s')
  | [] => false
  end.

Definition DEFAULT_CHANNEL : str := Eval cbv in py "default".

Definition validate_channel_id (channel_id : str) : str :=
  if negb (truthy channel_id) || negb (truthy (strip channel_id)) then
    DEFAULT_CHANNEL
  else
    let channel_id := strip channel_id in
    if negb (CHANNEL_ID_PATTERN_match channel_id) then DEFAULT_CHANNEL
    else channel_id.

(** [ChannelRegistry]: its only attribute is [_sessions]. *)
Record ChannelRegistry := { _sessions : gmap str str }.

Definition init : ChannelRegistry := {| _sessions := ∅ |}.

Definition register (self : ChannelRegistry) (session_id channel_id : str)
  : ChannelRegistry :=
  let validated_channel := validate_channel_id channel_id in
  {| _sessions := <[session_id := validated_channel]> (_sessions self) |}.

Definition get_channel (self : ChannelRegistry) (session_id : str) : str :=
  default DEFAULT_CHANNEL (_sessions self !! session_id).

Definition has_session (self : ChannelRegistry) (session_id : str) : bool :=
  bool_decide (is_Some (_sessions self !! session_id)).

Definition unregister (self : ChannelRegistry) (session_id : str)
  : ChannelRegistry :=
  if has_session self session_id then
    {| _sessions := delete session_id (_sessions self) |}
  else self.

(** The grammar of the specification, [[A-Za-z0-9_-]{1,64}], as a property
    of a whole string. *)
Definition grammar (s : str) : Prop :=
  1 <= length s <= 64 /\ Forall (fun c => channel_char c = true) s.

Definition whitespace_only (s : str) : Prop :=
  s <> [] /\ Forall (fun c => isspace c = true) s.

(** The body of the loop of [get_active_channels]:
    [stats[channel] = stats.get(channel, 0) + 1]. *)
Definition count_session (channel : str) (stats : gmap str nat)
  : gmap str nat :=
  <[channel := default 0 (stats !! channel) + 1]> stats.

(** [get_active_channels()]: one turn of the loop for every value of
    [_sessions]. *)
Definition get_active_channels (self : ChannelRegistry) : gmap str nat :=
  map_fold (fun _ channel stats => count_session channel stats) ∅
           (_sessions self).

End Registry.

(** ** Python values *)

#[local] Set Warnings "-register-all".

(** [typing.Any], restricted to what JSON carries. [PyNone] is [None]. *)
Inductive Any :=
  | PyNone
  | PyBool (b : bool)
  | PyInt (z : Z)
  | PyFloat (q : Q)
  | PyStr (s : str)
  | PyList (l : list Any)
  | PyDict (d : gmap str Any).

(** [Optional[T]] attribute seen as a plain Python value. *)
Definition of_optional {T} (inj : T -> Any) (o : option T) : Any :=
  match o with Some t => inj t | None => PyNone end.

Definition is_not_None (v : Any) : bool :=
  match v with PyNone => false | _ => true end.

(** [float] truth value and the two comparisons the source makes. *)
Definition Qtruthy (q : Q) : bool := negb (Qeq_bool q 0).
Definition Qle_zero (q : Q) : bool := Qle_bool q 0.

(** What a run of [get_next_command] computes with: [clock n] is the
    [n]-th reading of [time.monotonic()] it makes, [float_add] and
    [float_sub] are [+] and [-] on floats.  The results are rounded, so
    [float_add c t] can be [c] for a small positive [t].  Of the rounding
    only this is assumed: it is monotone and keeps the floats themselves,
    hence adding a negative number does not increase a float, and the
    difference of two floats is not positive when the first is not the
    greater. *)
Record Clock := {
  monotonic :> nat -> Q;
  float_add : Q -> Q -> Q;
  float_sub : Q -> Q -> Q;
  float_add_negative : forall c t, (t < 0)%Q -> (float_add c t <= c)%Q;
  float_sub_not_greater : forall d c, (d <= c)%Q -> (float_sub d c <= 0)%Q
}.

(** ** command_queue.py: [Command] and [CommandQueue] *)

Module CQ.

(** [result_event] is the position of the command's [asyncio.Event] in the
    event store of the queue that created it: the event is one mutable
    object, shared by the entry in [_pending], the entry in [_queue] and the
    reference an awaiter holds. *)
Record Command := {
  id : str;
  tool : str;
  params : Any;
  created_at : Q;
  result_event : nat
}.

Record CommandQueue := {
  _pending : gmap str Command;
  _results : gmap str Any;
  _queue : list Command;        (* asyncio.Queue, head first *)
  _events : list bool           (* the asyncio.Event objects created so far *)
}.

(** [CommandQueue()] *)
Definition new : CommandQueue :=
  {| _pending := ∅; _results := ∅; _queue := []; _events := [] |}.

(** [add_command(tool, params)]; [uuid4] and [utcnow] are what
    [str(uuid.uuid4())] and [datetime.utcnow()] give this call. *)
Definition add_command (self : CommandQueue) (uuid4 : str) (utcnow : Q)
    (tool : str) (params : Any) : str * CommandQueue :=
  let command_id := uuid4 in
  let command :=
    {| id := command_id; tool := tool; params := params;
       created_at := utcnow; result_event := length (_events self) |} in
  (command_id,
   {| _pending := <[command_id := command]> (_pending self);
      _results := _results self;
      _queue := _queue self ++ [command];
      _events := _events self ++ [false] |}).

(** [self._queue.get_nowait()]; [None] stands for [asyncio.QueueEmpty]. *)
Definition get_nowait (self : CommandQueue) : option (Command * CommandQueue) :=
  match _queue self with
  | command :: rest =>
      Some (command,
            {| _pending := _pending self; _results := _results self;
               _queue := rest; _events := _events self |})
  | [] => None
  end.

(** The queue once its head, if any, is taken. *)
Definition dequeued (self : CommandQueue) : CommandQueue :=
  {| _pending := _pending self; _results := _results self;
     _queue := tail (_queue self); _events := _events self |}.

(** What a call of [get_next_command] does up to its [await]: with no
    timeout or one that is not positive it returns what [get_nowait] gives;
    with a positive one it is in
    [await asyncio.wait_for(self._queue.get(), timeout)].  How that ends is
    up to the event loop: [Queue.get()] takes the head of the queue for
    the caller, at once or when there is one, and the caller goes on with
    it; or the timeout comes first and the call returns [None].  Up to
    Python 3.11 [Queue.get()] runs in a task of its own, so the caller is
    suspended whatever the queue holds, and other coroutines run between
    the moment the head is taken and the moment the caller goes on. *)
Inductive get_outcome :=
  | GetReturn (command : option Command) (self' : CommandQueue)
  | GetWait (timeout : Q).

Definition get_next_command (self : CommandQueue) (timeout : option Q)
  : get_outcome :=
  match timeout with
  | Some t =>
      if Qle_zero t then
        match get_nowait self with
        | Some (command, self') => GetReturn (Some command) self'
        | None => GetReturn None self
        end
      else GetWait t
  | None =>
      match get_nowait self with
      | Some (command, self') => GetReturn (Some command) self'
      | None => GetReturn None self
      end
  end.

(** The timeouts with which [get_next_command] waits. *)
Definition waits (timeout : option Q) : bool :=
  match timeout with
  | Some t => negb (Qle_zero t)
  | None => false
  end.

(** [set_result(command_id, result)] *)
Definition set_result (self : CommandQueue) (command_id : str) (result : Any)
  : bool * CommandQueue :=
  match _pending self !! command_id with
  | None => (false, self)
  | Some command =>
      (true,
       {| _pending := _pending self;
          _results := <[command_id := result]> (_results self);
          _queue := _queue self;
          _events := <[result_event command := true]> (_events self) |})
  end.

(** [wait_for_result], up to its [await]: [None] is [KeyError], otherwise
    the command whose event the caller now waits on. *)
Definition wait_for_result_begin (self : CommandQueue) (command_id : str)
  : option Command :=
  _pending self !! command_id.

(** [event.is_set()] *)
Definition is_set (self : CommandQueue) (event : nat) : bool :=
  default false (_events self !! event).

(** [wait_for_result] after the event was seen set: pops the result and the
    pending entry. A missing result is [None]. *)
Definition wait_for_result_finish (self : CommandQueue) (command_id : str)
  : Any * CommandQueue :=
  let result := default PyNone (_results self !! command_id) in
  (result,
   {| _pending := delete command_id (_pending self);
      _results := delete command_id (_results self);
      _queue := _queue self;
      _events := _events self |}).

Definition get_pending_count (self : CommandQueue) : nat :=
  size (_pending self).

(** [cleanup_expired(max_age_seconds)] at the moment [now]. *)
Definition cleanup_expired (self : CommandQueue) (now max_age_seconds : Q)
  : nat * CommandQueue :=
  let expired (cmd : Command) : bool :=
    negb (Qle_bool (now - created_at cmd) max_age_seconds) in
  let expired_ids :=
    (map_to_list (filter (fun kv => expired kv.2 = true) (_pending self))).*1 in
  (length expired_ids,
   {| _pending := foldl (fun m cmd_id => delete cmd_id m) (_pending self) expired_ids;
      _results := foldl (fun m cmd_id => delete cmd_id m) (_results self) expired_ids;
      _queue := _queue self;
      _events := _events self |}).

(** [remove_command(command_id)] *)
Definition remove_command (self : CommandQueue) (command_id : str)
  : bool * CommandQueue :=
  if bool_decide (is_Some (_pending self !! command_id)) then
    (true,
     {| _pending := delete command_id (_pending self);
        _results := delete command_id (_results self);
        _queue := _queue self;
        _events := _events self |})
  else (false, self).

End CQ.

(** ** command_queue.py: [ChannelCommandQueue] *)

Module CCQ.

Import CQ.

Record ChannelCommandQueue := {
  _channels : gmap str CommandQueue;
  _command_index : gmap str str        (* command_id -> channel *)
}.

(** [ChannelCommandQueue()]: the default channel always exists. *)
Definition new : ChannelCommandQueue :=
  {| _channels := {[ py "default" := CQ.new ]}; _command_index := ∅ |}.

(** The queue object of a channel is mutated in place: write it back. *)
Definition with_queue (self : ChannelCommandQueue) (channel : str)
    (queue : CommandQueue) : ChannelCommandQueue :=
  {| _channels := <[channel := queue]> (_channels self);
     _command_index := _command_index self |}.

Definition add_command (self : ChannelCommandQueue) (uuid4 : str) (utcnow : Q)
    (channel tool : str) (params : Any) : str * ChannelCommandQueue :=
  let '(channels, queue) :=
    match _channels self !! channel with
    | Some queue => (_channels self, queue)
    | None => (<[channel := CQ.new]> (_channels self), CQ.new)
    end in
  let '(command_id, queue') := CQ.add_command queue uuid4 utcnow tool params in
  (command_id,
   {| _channels := <[channel := queue']> channels;
      _command_index := <[command_id := channel]> (_command_index self) |}).

(** How a run of [get_next_command] ends: it returns, or it is suspended
    inside [queue.get_next_command(current_timeout)], to be resumed with
    the deadline it computed. *)
Inductive poll_outcome :=
  | PollReturn (command : option Command)
  | PollSuspend.

(** One turn of the [while True] loop; [again] is the rest of the loop,
    entered after a cancelled command was skipped.  [clock n] is the
    [n]-th reading of [time.monotonic()] in this piece of the run and
    [tick] the number of readings made so far.  Also returned: the queue
    as the loop leaves it and the commands it skipped (one "Skipping
    cancelled command" log line each). *)
Definition poll_turn
    (again : nat -> CommandQueue ->
             option (poll_outcome * CommandQueue * list Command))
    (clock : Clock) (tick : nat) (index : gmap str str)
    (deadline timeout : option Q) (queue : CommandQueue)
  : option (poll_outcome * CommandQueue * list Command) :=
  let get current_timeout tick' :=
    match CQ.get_next_command queue current_timeout with
    | GetReturn None queue' => Some (PollReturn None, queue', [])
    | GetReturn (Some command) queue' =>
        if bool_decide (is_Some (index !! id command)) then
          Some (PollReturn (Some command), queue', [])
        else
          match again tick' queue' with
          | Some (out, queue'', skipped) =>
              Some (out, queue'', command :: skipped)
          | None => None
          end
    | GetWait _ => Some (PollSuspend, queue, [])
    end in
  match deadline with
  | Some d =>
      let remaining := float_sub clock d (clock tick) in
      if Qle_zero remaining then Some (PollReturn None, queue, [])
      else get (Some remaining) (S tick)
  | None => get timeout tick
  end.

(** The loop.  Every turn but the last takes one command off the queue,
    so [fuel] above the length of the queue is never used up. *)
Fixpoint poll_loop (fuel : nat) (clock : Clock) (tick : nat)
    (index : gmap str str) (deadline timeout : option Q)
    (queue : CommandQueue)
  : option (poll_outcome * CommandQueue * list Command) :=
  match fuel with
  | O => None
  | S fuel' =>
      poll_turn
        (fun tick' queue' =>
           poll_loop fuel' clock tick' index deadline timeout queue')
        clock tick index deadline timeout queue
  end.

(** [deadline = time.monotonic() + (timeout or 0) if timeout else None],
    with the number of clock readings it took. *)
Definition poll_deadline (clock : Clock) (timeout : option Q)
  : option Q * nat :=
  match timeout with
  | Some t =>
      if Qtruthy t then (Some (float_add clock (clock O) t), 1) else (None, O)
  | None => (None, O)
  end.

(** [get_next_command(channel, timeout)] from its start. *)
Definition get_next_command (self : ChannelCommandQueue) (clock : Clock)
    (channel : str) (timeout : option Q)
  : option (poll_outcome * option Q * ChannelCommandQueue * list Command) :=
  match _channels self !! channel with
  | None => Some (PollReturn None, None, self, [])
  | Some queue =>
      let '(deadline, tick) := poll_deadline clock timeout in
      match poll_loop (S (length (_queue queue))) clock tick
              (_command_index self) deadline timeout queue with
      | Some (out, queue', skipped) =>
          Some (out, deadline, with_queue self channel queue', skipped)
      | None => None
      end
  end.

(** A poller suspended in [asyncio.wait_for(self._queue.get(), ...)]: the
    locals of [get_next_command] it needs when it goes on, and the command
    its [Queue.get()] has taken off the queue, if it has. *)
Record PollK := {
  pk_channel : str;
  pk_deadline : option Q;
  pk_timeout : option Q;
  pk_item : option Command
}.

Definition with_item (k : PollK) (item : option Command) : PollK :=
  {| pk_channel := pk_channel k; pk_deadline := pk_deadline k;
     pk_timeout := pk_timeout k; pk_item := item |}.

(** The [Queue.get()] of a suspended poller takes the head of the queue.
    [None]: it has one already, or the queue is empty. *)
Definition poller_got_item (self : ChannelCommandQueue) (k : PollK)
  : option (PollK * ChannelCommandQueue) :=
  match pk_item k, _channels self !! pk_channel k with
  | None, Some queue =>
      match CQ.get_nowait queue with
      | Some (command, queue') =>
          Some (with_item k (Some command),
                with_queue self (pk_channel k) queue')
      | None => None
      end
  | _, _ => None
  end.

(** The poller goes on with the command its [Queue.get()] took: the index
    check, and the next turn of the loop when the command is skipped.
    [None]: it has no command to go on with. *)
Definition poller_resumed (self : ChannelCommandQueue) (clock : Clock)
    (k : PollK)
  : option (poll_outcome * ChannelCommandQueue * list Command) :=
  match pk_item k, _channels self !! pk_channel k with
  | Some command, Some queue =>
      if bool_decide (is_Some (_command_index self !! id command)) then
        Some (PollReturn (Some command), self, [])
      else
        match poll_loop (S (length (_queue queue))) clock O
                (_command_index self) (pk_deadline k) (pk_timeout k)
                queue with
        | Some (out, queue', skipped) =>
            Some (out, with_queue self (pk_channel k) queue',
                  command :: skipped)
        | None => None
        end
  | _, _ => None
  end.

Definition set_result (self : ChannelCommandQueue) (command_id : str)
    (result : Any) : bool * ChannelCommandQueue :=
  match _command_index self !! command_id with
  | None => (false, self)
  | Some channel =>
      match _channels self !! channel with
      | None => (false, self)
      | Some queue =>
          let '(found, queue') := CQ.set_result queue command_id result in
          (found, with_queue self channel queue')
      end
  end.

(** An awaiter suspended in
    [asyncio.wait_for(command.result_event.wait(), timeout)]: the locals of
    [wait_for_result] it needs when it goes on ([ak_event] is
    [command.result_event]) and the timeout it waits with. *)
Record AwaitK := {
  ak_command_id : str;
  ak_channel : str;
  ak_event : nat;
  ak_timeout : Q
}.

(** [wait_for_result] up to the [await] on the event: [None] is
    [KeyError], otherwise the channel of the command and the command whose
    event the caller waits on. *)
Definition wait_for_result_begin (self : ChannelCommandQueue)
    (command_id : str) : option (str * Command) :=
  match _command_index self !! command_id with
  | None => None
  | Some channel =>
      match _channels self !! channel with
      | None => None
      | Some queue =>
          match CQ.wait_for_result_begin queue command_id with
          | None => None
          | Some command => Some (channel, command)
          end
      end
  end.

(** A suspended awaiter goes on, its event being set: the result is popped
    and the index entry removed.  [None]: the event is not set, or the
    timeout is not positive ([asyncio.wait_for] then cancels the wait
    before it has started, and the awaiter can only time out). *)
Definition wait_for_result_event_set (self : ChannelCommandQueue) (k : AwaitK)
  : option (Any * ChannelCommandQueue) :=
  match _channels self !! ak_channel k with
  | None => None
  | Some queue =>
      if negb (Qle_zero (ak_timeout k)) && CQ.is_set queue (ak_event k) then
        let '(result, queue') :=
          CQ.wait_for_result_finish queue (ak_command_id k) in
        Some (result,
              {| _channels := <[ak_channel k := queue']> (_channels self);
                 _command_index :=
                   delete (ak_command_id k) (_command_index self) |})
      else None
  end.

(** [asyncio.TimeoutError] reaches a suspended awaiter: the index entry is
    removed, then the pending entry, and the error is raised again. *)
Definition wait_for_result_timed_out (self : ChannelCommandQueue) (k : AwaitK)
  : option ChannelCommandQueue :=
  match _channels self !! ak_channel k with
  | None => None
  | Some queue =>
      let index := delete (ak_command_id k) (_command_index self) in
      let '(_, queue') := CQ.remove_command queue (ak_command_id k) in
      Some {| _channels := <[ak_channel k := queue']> (_channels self);
              _command_index := index |}
  end.

Definition get_stats (self : ChannelCommandQueue) : gmap str nat :=
  filter (fun kv => 0 < kv.2) (CQ.get_pending_count <$> _channels self).

Definition get_active_channels_count (self : ChannelCommandQueue) : nat :=
  size (_channels self).

Definition _get_command_channel (self : ChannelCommandQueue)
    (command_id : str) : option str :=
  _command_index self !! command_id.

End CCQ.

(** ** The event loop around the [ChannelCommandQueue]

    Callers start coroutines on the one [channel_command_queue]; the event
    loop runs each of them up to its next suspension point and later lets
    the suspended ones go on.  An [Action] is one such uninterrupted piece,
    together with what the outside world feeds it ([uuid4], [utcnow], the
    readings of the monotonic clock).

    A coroutine is suspended in [asyncio.wait_for] only: a poller on
    [Queue.get()], an awaiter on [Event.wait()].
    - [PollerGotItem i]: the [Queue.get()] of poller [i] takes the head of
      the queue.
    - [PollerResumed i clock]: poller [i] goes on with the command taken
      for it, from the index check.
    - [PollerTimedOut i]: [wait_for] raises [TimeoutError] in poller [i];
      this never happens to a poller for which a command was taken
      ([wait_for] returns the result of a finished [Queue.get()], timeout
      or not).
    - [AwaiterEventSet i]: awaiter [i] goes on, its event being set.
    - [AwaiterTimedOut i]: [wait_for] raises [TimeoutError] in awaiter [i].

    Every behaviour of the program is a schedule, under either kind of
    [asyncio.wait_for].  Where it awaits in place (Python 3.12 and later) a
    poller that finds a command in the queue and an awaiter that finds its
    event set go on at once: these are the schedules in which
    [PollerGotItem] and [PollerResumed], or [AwaiterEventSet], follow the
    call directly, and in which [PollerResumed] always follows
    [PollerGotItem] directly.  Where [wait_for] runs a task of its own (up
    to Python 3.11) other actions come in between.

    Not every schedule is a behaviour of the program: asyncio wakes the
    getters of a queue and the waiters of an event in the order in which
    they started to wait, and a timer fires when its time has come,
    whereas here any poller suspended on a channel may take the head of its
    queue and a timeout may come at any moment.  So what is proved of all
    schedules holds of the program; that a schedule exists is only stated
    where the event loop has nothing to choose: one poller on the channel,
    one awaiter of the command. *)

Module Loop.

Import CQ CCQ.

Record World := {
  ccq : ChannelCommandQueue;
  pollers : list PollK;         (* suspended in get_next_command *)
  awaiters : list AwaitK        (* suspended in wait_for_result *)
}.

Definition boot : World :=
  {| ccq := CCQ.new; pollers := []; awaiters := [] |}.

Inductive Action :=
  | AddCommand (channel tool : str) (params : Any) (uuid4 : str) (utcnow : Q)
  | GetNextCommand (channel : str) (timeout : option Q) (clock : Clock)
  | PollerGotItem (i : nat)
  | PollerResumed (i : nat) (clock : Clock)
  | PollerTimedOut (i : nat)
  | SetResult (command_id : str) (result : Any)
  | WaitForResult (command_id : str) (timeout : Q)
  | AwaiterEventSet (i : nat)
  | AwaiterTimedOut (i : nat)
  | GetStats.

Inductive Error := KeyError | TimeoutError.

(** What the callers get back, and the "Skipping cancelled command" lines
    of the log. *)
Inductive Obs :=
  | Added (channel command_id tool : str) (params : Any)
  | Skipped (channel : str) (command : Command)
  | Polled (channel : str) (command : option Command)
  | Completed (command_id : str) (result : Any) (found : bool)
  | Awaited (command_id : str) (result : Error + Any)
  | Stats (stats : gmap str nat).

Definition poll_obs (channel : str) (out : poll_outcome)
    (skipped : list Command) : list Obs :=
  map (Skipped channel) skipped ++
  match out with
  | PollReturn command => [Polled channel command]
  | PollSuspend => []
  end.

(** One action; [None] when the action is not possible in [w] (no such
    suspended coroutine, nothing to go on with). *)
Definition step (w : World) (a : Action) : option (World * list Obs) :=
  match a with
  | AddCommand channel tool params uuid4 utcnow =>
      let '(command_id, q) :=
        CCQ.add_command (ccq w) uuid4 utcnow channel tool params in
      Some ({| ccq := q; pollers := pollers w; awaiters := awaiters w |},
            [Added channel command_id tool params])
  | GetNextCommand channel timeout clock =>
      match CCQ.get_next_command (ccq w) clock channel timeout with
      | None => None
      | Some (out, deadline, q, skipped) =>
          let k := {| pk_channel := channel; pk_deadline := deadline;
                      pk_timeout := timeout; pk_item := None |} in
          Some ({| ccq := q;
                   pollers := match out with
                              | PollSuspend => pollers w ++ [k]
                              | PollReturn _ => pollers w
                              end;
                   awaiters := awaiters w |},
                poll_obs channel out skipped)
      end
  | PollerGotItem i =>
      match pollers w !! i with
      | None => None
      | Some k =>
          match poller_got_item (ccq w) k with
          | None => None
          | Some (k', q) =>
              Some ({| ccq := q; pollers := <[i := k']> (pollers w);
                       awaiters := awaiters w |}, [])
          end
      end
  | PollerResumed i clock =>
      match pollers w !! i with
      | None => None
      | Some k =>
          match poller_resumed (ccq w) clock k with
          | None => None
          | Some (out, q, skipped) =>
              Some ({| ccq := q;
                       pollers := match out with
                                  | PollSuspend =>
                                      <[i := with_item k None]> (pollers w)
                                  | PollReturn _ => delete i (pollers w)
                                  end;
                       awaiters := awaiters w |},
                    poll_obs (pk_channel k) out skipped)
          end
      end
  | PollerTimedOut i =>
      match pollers w !! i with
      | None => None
      | Some k =>
          match pk_item k with
          | Some _ => None
          | None =>
              Some ({| ccq := ccq w; pollers := delete i (pollers w);
                       awaiters := awaiters w |},
                    [Polled (pk_channel k) None])
          end
      end
  | SetResult command_id result =>
      let '(found, q) := CCQ.set_result (ccq w) command_id result in
      Some ({| ccq := q; pollers := pollers w; awaiters := awaiters w |},
            [Completed command_id result found])
  | WaitForResult command_id timeout =>
      match CCQ.wait_for_result_begin (ccq w) command_id with
      | None => Some (w, [Awaited command_id (inl KeyError)])
      | Some (channel, command) =>
          let k := {| ak_command_id := command_id; ak_channel := channel;
                      ak_event := result_event command;
                      ak_timeout := timeout |} in
          Some ({| ccq := ccq w; pollers := pollers w;
                   awaiters := awaiters w ++ [k] |}, [])
      end
  | AwaiterEventSet i =>
      match awaiters w !! i with
      | None => None
      | Some k =>
          match CCQ.wait_for_result_event_set (ccq w) k with
          | None => None
          | Some (result, q) =>
              Some ({| ccq := q; pollers := pollers w;
                       awaiters := delete i (awaiters w) |},
                    [Awaited (ak_command_id k) (inr result)])
          end
      end
  | AwaiterTimedOut i =>
      match awaiters w !! i with
      | None => None
      | Some k =>
          match CCQ.wait_for_result_timed_out (ccq w) k with
          | None => None
          | Some q =>
              Some ({| ccq := q; pollers := pollers w;
                       awaiters := delete i (awaiters w) |},
                    [Awaited (ak_command_id k) (inl TimeoutError)])
          end
      end
  | GetStats => Some (w, [Stats (CCQ.get_stats (ccq w))])
  end.

(** A schedule, from [w]: the world it ends in and everything observed. *)
Fixpoint run (w : World) (tr : list Action) : option (World * list Obs) :=
  match tr with
  | [] => Some (w, [])
  | a :: tr' =>
      match step w a with
      | None => None
      | Some (w1, o1) =>
          match run w1 tr' with
          | None => None
          | Some (w2, o2) => Some (w2, o1 ++ o2)
          end
      end
  end.

(** The values [uuid.uuid4()] returned along a schedule, and the channels
    commands were added to. *)
Definition uuid_of (a : Action) : option str :=
  match a with AddCommand _ _ _ uuid4 _ => Some uuid4 | _ => None end.

Definition uuids (tr : list Action) : list str := omap uuid_of tr.

Definition channel_of (a : Action) : option str :=
  match a with AddCommand channel _ _ _ _ => Some channel | _ => None end.

Definition added_channels (tr : list Action) : list str := omap channel_of tr.

(** *** Reading the log *)

(** The ids [add_command] returned for [channel], in order. *)
Definition added_id (channel : str) (o : Obs) : option str :=
  match o with
  | Added ch command_id _ _ =>
      if bool_decide (ch = channel) then Some command_id else None
  | _ => None
  end.

Definition added_ids (channel : str) (log : list Obs) : list str :=
  omap (added_id channel) log.

(** The commands polls on [channel] took off its queue, in order: the
    skipped ones and the delivered ones. *)
Definition dequeued_command (channel : str) (o : Obs) : option Command :=
  match o with
  | Skipped ch command | Polled ch (Some command) =>
      if bool_decide (ch = channel) then Some command else None
  | _ => None
  end.

Definition dequeued_ids (channel : str) (log : list Obs) : list str :=
  map id (omap (dequeued_command channel) log).

(** The commands polls on [channel] returned, in order. *)
Definition delivered_command (channel : str) (o : Obs) : option Command :=
  match o with
  | Polled ch (Some command) =>
      if bool_decide (ch = channel) then Some command else None
  | _ => None
  end.

Definition delivered_ids (channel : str) (log : list Obs) : list str :=
  map id (omap (delivered_command channel) log).

(** A [wait_for_result(command_id, _)] has come back, with a result or
    with [TimeoutError] ([KeyError] is raised before any waiting). *)
Definition returned_for (command_id : str) (o : Obs) : bool :=
  match o with
  | Awaited x (inr _) | Awaited x (inl TimeoutError) =>
      bool_decide (x = command_id)
  | _ => false
  end.

Definition await_returned (command_id : str) (log : list Obs) : Prop :=
  Exists (fun o => returned_for command_id o = true) log.

(** Every id [add_command] returned, whatever the channel. *)
Definition added_any (o : Obs) : option str :=
  match o with Added _ command_id _ _ => Some command_id | _ => None end.

(** *** The queue of a channel, and what one action does to it *)

Definition items (w : World) (channel : str) : list Command :=
  match _channels (ccq w) !! channel with
  | Some queue => _queue queue
  | None => []
  end.

Definition index (w : World) : gmap str str := _command_index (ccq w).

Definition has_channel (w : World) (channel : str) : Prop :=
  is_Some (_channels (ccq w) !! channel).

(** The commands taken off the queue of [channel] for pollers that have
    not gone on with them yet. *)
Definition held_by (channel : str) (k : PollK) : option Command :=
  if bool_decide (pk_channel k = channel) then pk_item k else None.

Definition held (w : World) (channel : str) : list Command :=
  omap (held_by channel) (pollers w).

(** The pollers suspended on [channel]. *)
Definition polling (w : World) (channel : str) : list PollK :=
  filter (fun k => pk_channel k = channel) (pollers w).

(** No poll on [channel] is under way. *)
Definition idle (w : World) (channel : str) : bool :=
  match polling w channel with [] => true | _ :: _ => false end.

(** The commands a run of [get_next_command] took off the queue. *)
Definition poll_taken (out : poll_outcome) (skipped : list Command)
  : list Command :=
  skipped ++
  match out with
  | PollReturn (Some command) => [command]
  | _ => []
  end.

(** The pieces of a poll. *)
Definition is_poll (a : Action) : bool :=
  match a with
  | GetNextCommand _ _ _ | PollerGotItem _ | PollerResumed _ _
  | PollerTimedOut _ => true
  | _ => false
  end.

(** [step], seen through [items], [held], [index] and the awaiters only.
    A piece of a poll ([effect_poll]) moves commands from the queue of its
    channel to the log, directly ([from_queue]) or by way of the poller
    they are taken for ([to_held], then [from_held]). *)
Inductive effect (w : World) : Action -> World -> list Obs -> Prop :=
  | effect_add channel tool params uuid4 utcnow w' command :
      id command = uuid4 -> CQ.tool command = tool ->
      CQ.params command = params ->
      index w' = <[uuid4 := channel]> (index w) ->
      items w' channel = items w channel ++ [command] ->
      (forall ch, ch <> channel -> items w' ch = items w ch) ->
      (forall ch, has_channel w' ch <-> ch = channel \/ has_channel w ch) ->
      pollers w' = pollers w ->
      awaiters w' = awaiters w ->
      effect w (AddCommand channel tool params uuid4 utcnow) w'
             [Added channel uuid4 tool params]
  | effect_poll a channel out skipped from_held from_queue to_held w' :
      uuid_of a = None ->
      is_poll a = true ->
      index w' = index w ->
      poll_taken out skipped = from_held ++ from_queue ->
      items w channel = from_queue ++ to_held ++ items w' channel ->
      held w' channel ++ from_held ≡ₚ held w channel ++ to_held ->
      (forall ch, ch <> channel -> items w' ch = items w ch) ->
      (forall ch, ch <> channel -> held w' ch = held w ch) ->
      (forall ch, has_channel w' ch <-> has_channel w ch) ->
      awaiters w' = awaiters w ->
      Forall (fun command => index w !! id command = None) skipped ->
      (forall command, out = PollReturn (Some command) ->
                       is_Some (index w !! id command)) ->
      effect w a w' (poll_obs channel out skipped)
  | effect_set_result command_id result found w' :
      index w' = index w ->
      (forall ch, items w' ch = items w ch) ->
      (forall ch, has_channel w' ch <-> has_channel w ch) ->
      pollers w' = pollers w ->
      awaiters w' = awaiters w ->
      (found = true -> is_Some (index w !! command_id)) ->
      effect w (SetResult command_id result) w'
             [Completed command_id result found]
  | effect_await_key_error command_id timeout :
      effect w (WaitForResult command_id timeout) w
             [Awaited command_id (inl KeyError)]
  | effect_await_suspend command_id timeout k w' :
      ccq w' = ccq w ->
      pollers w' = pollers w ->
      awaiters w' = awaiters w ++ [k] ->
      ak_command_id k = command_id ->
      is_Some (index w !! command_id) ->
      effect w (WaitForResult command_id timeout) w' []
  | effect_await_end a i k result w' :
      uuid_of a = None ->
      awaiters w !! i = Some k ->
      result <> inl KeyError ->
      index w' = delete (ak_command_id k) (index w) ->
      (forall ch, items w' ch = items w ch) ->
      (forall ch, has_channel w' ch <-> has_channel w ch) ->
      pollers w' = pollers w ->
      awaiters w' = delete i (awaiters w) ->
      effect w a w' [Awaited (ak_command_id k) result]
  | effect_stats :
      effect w GetStats w [Stats (CCQ.get_stats (ccq w))].

(** *** Results *)

(** The value a successful [set_result(command_id, _)] stored. *)
Definition completed_result (command_id : str) (o : Obs) : option Any :=
  match o with
  | Completed x result true =>
      if bool_decide (x = command_id) then Some result else None
  | _ => None
  end.

(** The value of the last successful [set_result] for [command_id]. *)
Definition last_result (command_id : str) (log : list Obs) : option Any :=
  last (omap (completed_result command_id) log).

(** What the queue of [channel] holds, against the index and the log: a
    pending command is indexed under [channel] and its event is the one
    created when it was added; an event is set only after a successful
    [set_result]; a result is stored exactly for the pending commands that
    have one, and it is the last one set. *)
Definition queue_consistent (idx : gmap str str) (log : list Obs)
    (channel : str) (queue : CommandQueue) : Prop :=
  (forall x c, _pending queue !! x = Some c ->
     idx !! x = Some channel /\ id c = x
     /\ added_ids channel log !! result_event c = Some x)
  /\ length (_events queue) = length (added_ids channel log)
  /\ (forall n, _events queue !! n = Some true ->
        exists x, added_ids channel log !! n = Some x
                  /\ is_Some (last_result x log))
  /\ (forall x, _results queue !! x
                = match _pending queue !! x with
                  | Some _ => last_result x log
                  | None => None
                  end).

Definition consistent (tr : list Action) (w : World) (log : list Obs) : Prop :=
  (forall ch q, _channels (ccq w) !! ch = Some q ->
     queue_consistent (index w) log ch q)
  /\ (forall ch, _channels (ccq w) !! ch = None -> added_ids ch log = [])
  /\ (forall x ch, index w !! x = Some ch ->
        exists q c, _channels (ccq w) !! ch = Some q
                    /\ _pending q !! x = Some c)
  /\ (forall k, k ∈ awaiters w ->
        added_ids (ak_channel k) log !! ak_event k = Some (ak_command_id k))
  /\ (forall x, is_Some (last_result x log) -> x ∈ uuids tr).

(** *** Polls that do not overlap *)

(** Along [tr], from [w], no poll on [channel] starts while another poll
    on [channel] is under way. *)
Fixpoint polls_in_turn (channel : str) (w : World) (tr : list Action)
  : bool :=
  match tr with
  | [] => true
  | a :: tr' =>
      match a with
      | GetNextCommand ch _ _ =>
          negb (bool_decide (ch = channel)) || idle w channel
      | _ => true
      end
      && match step w a with
         | Some (w', _) => polls_in_turn channel w' tr'
         | None => true
         end
  end.





(** *** Outstanding commands *)

(** No [wait_for_result(command_id, _)] has come back. *)
Definition outstanding (log : list Obs) (command_id : str) : bool :=
  negb (existsb (returned_for command_id) log).

(** The ids added to [channel] that are outstanding. *)
Definition outstanding_ids (channel : str) (log : list Obs) : list str :=
  filter (fun x => outstanding log x = true) (added_ids channel log).

End Loop.

(** ** mcp_handler.py: [_execute_1c_command] *)

Module Handler.

Import Loop.

(** What [_execute_1c_command(tool, params, channel)] does up to its
    [await] on the result: it reads the statistics (to log a warning),
    adds the command and starts waiting for its result with
    [settings.timeout]. *)
Definition _execute_1c_command (tool : str) (params : Any) (channel : str)
    (uuid4 : str) (utcnow settings_timeout : Q) : list Action :=
  [ GetStats;
    AddCommand channel tool params uuid4 utcnow;
    WaitForResult uuid4 settings_timeout ].

End Handler.

(** ** server.py: [poll_command] *)

Module Poll.

Import Registry CQ CCQ.

(** [Command.to_dict()] *)
Definition to_dict (command : Command) : gmap str Any :=
  {[ py "id" := PyStr (id command);
     py "tool" := PyStr (tool command);
     py "params" := params command ]}.

(** How a run of [poll_command] ends: with a response, suspended inside
    [get_next_command], or with the [ValueError] of [float()]. *)
Inductive outcome :=
  | Responded (status_code : nat) (content : option (gmap str Any))
  | Suspended
  | Raised.

Section Handler.

(** [float(s)] on a query parameter ([None] is [ValueError]) and
    [settings.poll_timeout]. *)
Variable float : str -> option Q.
Variable settings_poll_timeout : Q.

(** [float(timeout_param) if timeout_param else float(settings.poll_timeout)] *)
Definition poll_timeout (query_params : gmap str str) : option Q :=
  match query_params !! py "timeout" with
  | Some timeout_param =>
      if truthy timeout_param then float timeout_param
      else Some settings_poll_timeout
  | None => Some settings_poll_timeout
  end.

Definition poll_command (query_params : gmap str str)
    (q : ChannelCommandQueue) (clock : Clock)
  : option (outcome * ChannelCommandQueue) :=
  let raw_channel := default DEFAULT_CHANNEL (query_params !! py "channel") in
  let channel := validate_channel_id raw_channel in
  match poll_timeout query_params with
  | None => Some (Raised, q)
  | Some timeout =>
      match CCQ.get_next_command q clock channel (Some timeout) with
      | None => None
      | Some (PollSuspend, _, q', _) => Some (Suspended, q')
      | Some (PollReturn None, _, q', _) => Some (Responded 204 None, q')
      | Some (PollReturn (Some command), _, q', _) =>
          Some (Responded 200 (Some (to_dict command)), q')
      end
  end.

End Handler.

End Poll.

(** ** Bytes and headers *)

Abbreviation bytes := (list N).

Definition utf8_cont (b : N) : bool := ((128 <=? b) && (b <=? 191))%N.

(** [bytes.decode()] (strict UTF-8); [None] is [UnicodeDecodeError]. *)
Fixpoint utf8_decode (bs : bytes) : option str :=
  match bs with
  | [] => Some []
  | b0 :: r0 =>
      if (b0 <? 128)%N then
        match utf8_decode r0 with Some s => Some (b0 :: s) | None => None end
      else if ((194 <=? b0) && (b0 <=? 223))%N then
        match r0 with
        | b1 :: r1 =>
            if utf8_cont b1 then
              match utf8_decode r1 with
              | Some s => Some (((b0 - 192) * 64 + (b1 - 128))%N :: s)
              | None => None
              end
            else None
        | _ => None
        end
      else if ((224 <=? b0) && (b0 <=? 239))%N then
        match r0 with
        | b1 :: b2 :: r2 =>
            let c := ((b0 - 224) * 4096 + (b1 - 128) * 64 + (b2 - 128))%N in
            if utf8_cont b1 && utf8_cont b2 && (2048 <=? c)%N
               && negb ((55296 <=? c) && (c <=? 57343))%N then
              match utf8_decode r2 with
              | Some s => Some (c :: s)
              | None => None
              end
            else None
        | _ => None
        end
      else if ((240 <=? b0) && (b0 <=? 244))%N then
        match r0 with
        | b1 :: b2 :: b3 :: r3 =>
            let c := ((b0 - 240) * 262144 + (b1 - 128) * 4096
                      + (b2 - 128) * 64 + (b3 - 128))%N in
            if utf8_cont b1 && utf8_cont b2 && utf8_cont b3
               && (65536 <=? c)%N && (c <=? 1114111)%N then
              match utf8_decode r3 with
              | Some s => Some (c :: s)
              | None => None
              end
            else None
        | _ => None
        end
      else None
  end.

(** First value of a header in an ASGI header list, as Starlette's
    [Headers.get] finds it; decoding as latin-1 keeps the code points. *)
Fixpoint headers_get (headers : list (bytes * bytes)) (key : bytes)
  : option str :=
  match headers with
  | (header_key, header_value) :: rest =>
      if bool_decide (header_key = key) then Some header_value
      else headers_get rest key
  | [] => None
  end.

(** [uuid.UUID.hex]: the 128-bit integer as 32 lower-case hex digits. *)
Definition hex_digit (d : N) : N := (if d <? 10 then 48 + d else 87 + d)%N.

Fixpoint hex_of (digits : nat) (n : N) : str :=
  match digits with
  | O => []
  | S k => hex_of k (n / 16)%N ++ [hex_digit (n mod 16)%N]
  end.

Definition UUID_hex (u : N) : str := hex_of 32 u.

(** ** channel_middleware.py *)

Module Middleware.

Import Registry.

Definition MCP_SESSION_ID_HEADER : str := Eval cbv in py "mcp-session-id".

(** The keys of the ASGI scope the middleware reads or writes. *)
Record Scope := {
  type : str;
  query_string : option bytes;
  headers : list (bytes * bytes);
  channel : option str
}.

(** An ASGI message on the way out. *)
Record Message := {
  m_type : str;
  m_headers : option (list (bytes * bytes))
}.

Section Call.

(** [urllib.parse.parse_qs] *)
Variable parse_qs : str -> gmap str (list str).

(** [params.get("channel", [DEFAULT_CHANNEL])[0]]; [None] is
    [IndexError]. *)
Definition raw_channel_of (params : gmap str (list str)) : option str :=
  head (default [DEFAULT_CHANNEL] (params !! py "channel")).

(** [send_wrapper(message)], with the two locals it closes over, as the
    change it makes to the registry; [None]: [decode()] raised. *)
Definition send_wrapper (is_new_session : bool) (effective_channel : str)
    (message : Message) (reg : ChannelRegistry) : option ChannelRegistry :=
  if bool_decide (m_type message = py "http.response.start") && is_new_session
  then
    let headers : gmap bytes bytes :=
      list_to_map (reverse (default [] (m_headers message))) in
    match headers !! py "mcp-session-id" with
    | Some session_id_bytes =>
        if truthy session_id_bytes then
          match utf8_decode session_id_bytes with
          | Some session_id => Some (register reg session_id effective_channel)
          | None => None
          end
        else Some reg
    | None => Some reg
    end
  else Some reg.

(** [request.headers.get(MCP_SESSION_ID_HEADER)] *)
Definition request_session_id (scope : Scope) : option str :=
  headers_get (headers scope) MCP_SESSION_ID_HEADER.

(** How [__call__] hands the request on. *)
Inductive handed :=
  | Untouched                       (* not HTTP: same scope, same send *)
  | Wrapped (scope' : Scope) (is_new_session : bool) (effective_channel : str).

(** [__call__(scope, receive, send)] up to the call of the wrapped
    application; [None]: an exception was raised before it. *)
Definition call (reg : ChannelRegistry) (scope : Scope) : option handed :=
  if negb (bool_decide (type scope = py "http")) then Some Untouched
  else
    match utf8_decode (default [] (query_string scope)) with
    | None => None
    | Some query_string =>
        let params := parse_qs query_string in
        match raw_channel_of params with
        | None => None
        | Some raw_channel =>
            let query_channel := validate_channel_id raw_channel in
            let request_session_id := request_session_id scope in
            let effective_channel :=
              match request_session_id with
              | Some sid =>
                  if truthy sid && has_session reg sid then get_channel reg sid
                  else query_channel
              | None => query_channel
              end in
            let scope' :=
              {| type := type scope; query_string := Middleware.query_string scope;
                 headers := headers scope;
                 channel := Some effective_channel |} in
            let is_new_session :=
              match request_session_id with None => true | Some _ => false end in
            Some (Wrapped scope' is_new_session effective_channel)
        end
    end.

End Call.

End Middleware.

(** ** channel_sse_transport.py *)

Module Sse.

Import Registry.

Record Request := {
  query_params : gmap str str;
  body : bytes
}.

Record Transport := {
  _endpoint : str;
  _read_stream_writers : gmap N nat    (* session UUID -> stream writer *)
}.

Section Transport.

(** [urllib.parse.parse_qs] and [UUID(hex=...)] ([None] is [ValueError]). *)
Variable parse_qs : str -> gmap str (list str).
Variable UUID_of_hex : str -> option N.

(** [mcp.types.JSONRPCMessage] and [pydantic.ValidationError], with
    [JSONRPCMessage.model_validate_json]. *)
Variables JSONRPCMessage ValidationError : Type.
Variable model_validate_json : bytes -> ValidationError + JSONRPCMessage.

Record SessionMessage := {
  message : JSONRPCMessage;
  request_context : Request
}.

(** What the handler does to the outside, in order. *)
Inductive Effect :=
  | Respond (status_code : nat) (content : str)
  | WriterSend (writer : nat) (item : ValidationError + SessionMessage).

(** [connect_sse] down to the registration of the session: [uuid4] is the
    fresh session id, [writer] the stream writer just created.  [None]:
    an exception was raised. *)
Definition connect_sse_enter (self : Transport) (reg : ChannelRegistry)
    (query_string : option bytes) (uuid4 : N) (writer : nat)
  : option (str * Transport * ChannelRegistry) :=
  match utf8_decode (default [] query_string) with
  | None => None
  | Some query_string =>
      match Middleware.raw_channel_of (parse_qs query_string) with
      | None => None
      | Some raw_channel =>
          let channel := validate_channel_id raw_channel in
          Some (channel,
                {| _endpoint := _endpoint self;
                   _read_stream_writers :=
                     <[uuid4 := writer]> (_read_stream_writers self) |},
                register reg (UUID_hex uuid4) channel)
      end
  end.

(** The [finally] of [connect_sse]. *)
Definition connect_sse_exit (self : Transport) (reg : ChannelRegistry)
    (session_id : N) : Transport * ChannelRegistry :=
  ({| _endpoint := _endpoint self;
      _read_stream_writers := delete session_id (_read_stream_writers self) |},
   unregister reg (UUID_hex session_id)).

(** [handle_post_message]: the value left in [scope["channel"]], if any,
    and the effects. *)
Definition handle_post_message (self : Transport) (reg : ChannelRegistry)
    (request : Request) : option str * list Effect :=
  match query_params request !! py "session_id" with
  | None => (None, [Respond 400 (py "session_id is required")])
  | Some session_id_param =>
      match UUID_of_hex session_id_param with
      | None => (None, [Respond 400 (py "Invalid session ID")])
      | Some session_id =>
          match _read_stream_writers self !! session_id with
          | None => (None, [Respond 404 (py "Could not find session")])
          | Some writer =>
              let channel := get_channel reg (UUID_hex session_id) in
              match model_validate_json (body request) with
              | inl err =>
                  (Some channel,
                   [Respond 400 (py "Could not parse message");
                    WriterSend writer (inl err)])
              | inr message =>
                  let session_message :=
                    {| message := message; request_context := request |} in
                  (Some channel,
                   [Respond 202 (py "Accepted");
                    WriterSend writer (inr session_message)])
              end
          end
      end
  end.

End Transport.

End Sse.

(** ** server.py: the result endpoint *)

Module Server.

(** The pydantic model [CommandResult].  An [Optional[Any]] attribute is a
    Python value, [None] included; the typed ones are options. *)
Record CommandResult := {
  id : str;
  success : bool;
  data : Any;
  schema : Any;
  error : option str;
  count : option Z;
  truncated : option bool;
  limit : option Z;
  returned : option Z;
  offset : option Z;
  has_more : option bool;
  next_offset : option Z;
  configuration : Any;
  extension : option str;
  last_date : option str;
  next_same_second_offset : option Z
}.

(** The attributes of a [CommandResult] by name. *)
Definition attributes (result : CommandResult) : list (str * Any) :=
  [ (py "id", PyStr (id result));
    (py "success", PyBool (success result));
    (py "data", data result);
    (py "schema", schema result);
    (py "error", of_optional PyStr (error result));
    (py "count", of_optional PyInt (count result));
    (py "truncated", of_optional PyBool (truncated result));
    (py "limit", of_optional PyInt (limit result));
    (py "returned", of_optional PyInt (returned result));
    (py "offset", of_optional PyInt (offset result));
    (py "has_more", of_optional PyBool (has_more result));
    (py "next_offset", of_optional PyInt (next_offset result));
    (py "configuration", configuration result);
    (py "extension", of_optional PyStr (extension result));
    (py "last_date", of_optional PyStr (last_date result));
    (py "next_same_second_offset",
       of_optional PyInt (next_same_second_offset result)) ].

Fixpoint assoc (l : list (str * Any)) (key : str) : option Any :=
  match l with
  | (k, v) :: rest => if bool_decide (k = key) then Some v else assoc rest key
  | [] => None
  end.

(** [getattr(result, key, None)] *)
Definition getattr (result : CommandResult) (key : str) : Any :=
  default PyNone (assoc (attributes result) key).

Definition optional_meta_fields : list str :=
  [ py "truncated"; py "limit"; py "returned"; py "count"; py "offset";
    py "has_more"; py "next_offset"; py "configuration"; py "extension";
    py "last_date"; py "next_same_second_offset" ].

(** The body of the loop over [optional_meta_fields]. *)
Definition pass_through (result : CommandResult) (result_data : gmap str Any)
    (key : str) : gmap str Any :=
  let value := getattr result key in
  if is_not_None value then <[key := value]> result_data else result_data.

(** The dict [result_data] that [receive_result] builds from the validated
    model. *)
Definition result_data (result : CommandResult) : gmap str Any :=
  let result_data : gmap str Any :=
    <[py "error" := of_optional PyStr (error result)]>
      (<[py "data" := data result]>
         (<[py "success" := PyBool (success result)]> ∅)) in
  let result_data :=
    if success result && is_not_None (schema result) then
      <[py "schema" := schema result]> result_data
    else result_data in
  foldl (pass_through result) result_data optional_meta_fields.

(** The keys the handler writes whatever the result. *)
Definition base_fields : list str := [py "success"; py "data"; py "error"].

(** What [await request.json()] and the call of [CommandResult] with the
    keyword arguments [body] raise, apart from pydantic's
    [ValidationError]: [json.loads] raises [JSONDecodeError] on text that
    is not JSON and [UnicodeDecodeError] on bytes that are not text;
    unpacking [body] as keyword arguments raises [TypeError] when the
    decoded body is not an object. *)
Inductive Raised := JSONDecodeError | UnicodeDecodeError | TypeError.

(** How the handler ends: with a response, or with an exception that it
    does not catch (the server then answers 500). *)
Inductive Answer :=
  | Status (status_code : nat)
  | Uncaught (e : Raised).

Section Handler.

(** [await request.json()], and the validation of the [CommandResult]
    built from a decoded object ([None] is [ValidationError]). *)
Variable request_json : bytes -> Raised + Any.
Variable CommandResult_validate : gmap str Any -> option CommandResult.

(** [receive_result]: how it ends and the queue afterwards.  Of the
    exceptions only [JSONDecodeError] and [ValidationError] are caught. *)
Definition receive_result (q : CCQ.ChannelCommandQueue) (body : bytes)
  : Answer * CCQ.ChannelCommandQueue :=
  match request_json body with
  | inl JSONDecodeError => (Status 400, q)
  | inl e => (Uncaught e, q)
  | inr (PyDict body) =>
      match CommandResult_validate body with
      | None => (Status 422, q)
      | Some result =>
          let '(success, q') :=
            CCQ.set_result q (id result) (PyDict (result_data result)) in
          if success then (Status 200, q') else (Status 404, q')
      end
  | inr _ => (Uncaught TypeError, q)
  end.

End Handler.

(** [sum(m.values())] *)
Definition sum_values (m : gmap str nat) : nat :=
  map_fold (fun _ count total => count + total) 0 m.

(** The body of the response of [health_check]; the two per-channel dicts
    are only there when [HEALTH_INCLUDE_CHANNEL_DETAILS] is on. *)
Record Health := {
  pending_commands : nat;
  pending_channels_count : nat;
  active_channels_count : nat;
  active_sessions_count : nat;
  pending_commands_by_channel : option (gmap str nat);
  active_sessions_by_channel : option (gmap str nat)
}.

(** [health_check]; [include_channel_details] is what the environment
    flag evaluates to. *)
Definition health_check (include_channel_details : bool)
    (q : CCQ.ChannelCommandQueue) (reg : Registry.ChannelRegistry) : Health :=
  let channel_stats := CCQ.get_stats q in
  let active_sessions := Registry.get_active_channels reg in
  let total_pending := sum_values channel_stats in
  let pending_channels_count :=
    size (filter (fun kv : str * nat => 0 < kv.2) channel_stats) in
  let active_sessions_count := sum_values active_sessions in
  {| pending_commands := total_pending;
     pending_channels_count := pending_channels_count;
     active_channels_count := CCQ.get_active_channels_count q;
     active_sessions_count := active_sessions_count;
     pending_commands_by_channel :=
       if include_channel_details then Some channel_stats else None;
     active_sessions_by_channel :=
       if include_channel_details then Some active_sessions else None |}.

End Server.


(** ** The registry as the transports drive it

    [channel_registry.register] has two callers, the [send_wrapper] of the
    middleware and [connect_sse]; [unregister] has one, the exit of
    [connect_sse]. *)

Module System.

Import Registry.

Inductive registry_reachable (parse_qs : str -> gmap str (list str))
  : ChannelRegistry -> Prop :=
  | reach_init : registry_reachable parse_qs Registry.init
  | reach_send_wrapper reg is_new_session effective_channel message reg' :
      registry_reachable parse_qs reg ->
      Middleware.send_wrapper is_new_session effective_channel message reg
      = Some reg' ->
      registry_reachable parse_qs reg'
  | reach_connect_sse reg self query_string uuid4 writer channel self' reg' :
      registry_reachable parse_qs reg ->
      Sse.connect_sse_enter parse_qs self reg query_string uuid4 writer
      = Some (channel, self', reg') ->
      registry_reachable parse_qs reg'
  | reach_disconnect_sse reg self session_id :
      registry_reachable parse_qs reg ->
      registry_reachable parse_qs
        (Sse.connect_sse_exit self reg session_id).2.

End System.

(** ** Scenarios *)

Module Scenario.

Import Loop.

Definition alpha : str := Eval cbv in py "alpha".
Definition beta : str := Eval cbv in py "beta".
Definition u1 : str := Eval cbv in py "00000000-0000-4000-8000-000000000001".
Definition u2 : str := Eval cbv in py "00000000-0000-4000-8000-000000000002".
Definition tool_X : str := Eval cbv in py "X".
Definition tool_Y : str := Eval cbv in py "Y".

(** Clocks whose readings, like the timeouts below, are whole seconds: on
    these float arithmetic is exact. *)
Definition Qplus_negative c t : (t < 0)%Q -> (c + t <= c)%Q.
Proof.
  intros Ht. rewrite <- (Qplus_0_r c) at 2. apply Qplus_le_r.
  apply Qlt_le_weak, Ht.
Qed.

Definition Qminus_not_greater d c : (d <= c)%Q -> (d - c <= 0)%Q.
Proof.
  intros H. apply (Qplus_le_l _ _ c). ring_simplify. exact H.
Qed.

Definition exact (readings : nat -> Q) : Clock :=
  {| monotonic := readings; float_add := Qplus; float_sub := Qminus;
     float_add_negative := Qplus_negative;
     float_sub_not_greater := Qminus_not_greater |}.

(** A clock that advances by one second at every reading. *)
Definition seconds : Clock := exact (fun n => inject_Z (Z.of_nat n)).

(** A clock that does not advance during a run. *)
Definition still : Clock := exact (fun _ => 0%Q).

(** Two submits on two channels, then one poll on each. *)
Definition two_channels : list Action :=
  [ AddCommand alpha tool_X PyNone u1 0;
    AddCommand beta tool_Y PyNone u2 0;
    GetNextCommand alpha None seconds;
    GetNextCommand beta None seconds ].

(** A submit whose awaiter times out, then a result and a long poll, which
    is given the cancelled command, skips it and times out. *)
Definition submitter_timeout : list Action :=
  [ AddCommand alpha tool_X PyNone u1 0;
    WaitForResult u1 (1 # 10);
    AwaiterTimedOut 0;
    SetResult u1 (PyInt 42);
    GetNextCommand alpha (Some 100%Q) seconds;
    PollerGotItem 0;
    PollerResumed 0 seconds;
    PollerTimedOut 0 ].

(** A result that arrives, and is consumed, before any poll. *)
Definition completed_before_poll : list Action :=
  [ AddCommand alpha tool_X PyNone u1 0;
    SetResult u1 (PyInt 42);
    WaitForResult u1 180;
    AwaiterEventSet 0;
    GetNextCommand alpha None seconds ].

(** Two submits on one channel. *)
Definition two_submits : list Action :=
  [ AddCommand alpha tool_X PyNone u1 0;
    AddCommand alpha tool_Y PyNone u2 0 ].

(** Two polls that overlap: the first one waits and is given the first
    command, the second one does not wait and returns the second command
    before the first poll has gone on. *)
Definition overlapping_polls : list Action :=
  two_submits ++
  [ GetNextCommand alpha (Some 5%Q) still;
    PollerGotItem 0;
    GetNextCommand alpha None still;
    PollerResumed 0 still ].

(** A session bound to channel "one", continued with [channel=two] in
    the query string. *)
Definition session_S : str := Eval cbv in py "5f2b9c0e7a1d4e3f8b6a0c9d2e4f6a8b".

Definition parse_qs_two (query_string : str) : gmap str (list str) :=
  {[ py "channel" := [py "two"] ]}.

(** A [parse_qs] that knows two query strings. *)
Definition parse_qs_demo (query_string : str) : gmap str (list str) :=
  if bool_decide (query_string = py "channel=one") then
    {[ py "channel" := [py "one"] ]}
  else if bool_decide (query_string = py "channel=two") then
    {[ py "channel" := [py "two"] ]}
  else ∅.


Definition minted : Middleware.Message :=
  {| Middleware.m_type := py "http.response.start";
     Middleware.m_headers := Some [(py "mcp-session-id", session_S)] |}.

Definition bound_registry : Registry.ChannelRegistry :=
  Registry.register Registry.init session_S (py "one").

Definition continued : Middleware.Scope :=
  {| Middleware.type := py "http";
     Middleware.query_string := Some (py "channel=two");
     Middleware.headers := [(py "mcp-session-id", session_S)];
     Middleware.channel := None |}.

(** A legacy SSE transport with one open session, and a validator that
    rejects every body. *)
Definition sse_transport : Sse.Transport :=
  {| Sse._endpoint := py "/mcp/message";
     Sse._read_stream_writers := {[ 7%N := 3%nat ]} |}.

Definition uuid_of_hex (s : str) : option N :=
  if bool_decide (s = UUID_hex 7) then Some 7%N
  else if bool_decide (s = UUID_hex 8) then Some 8%N
  else None.

Definition reject (body : bytes) : unit + unit := inl tt.

Definition post (session_id : option str) : Sse.Request :=
  {| Sse.query_params :=
       match session_id with
       | Some s => {[ py "session_id" := s ]}
       | None => ∅
       end;
     Sse.body := py "{" |}.

(** The queue with the command [u1] added on channel alpha. *)
Definition one_pending : CCQ.ChannelCommandQueue :=
  (CCQ.add_command CCQ.new u1 0 alpha tool_X PyNone).2.

(** The body of a result for [u1]: a JSON object with the keys [id],
    [success], [data], [count] and [truncated], and with a key [injected]
    that [CommandResult] does not have. *)
Definition quoted (s : string) : str := [34%N] ++ py s ++ [34%N].

Definition result_body : bytes :=
  Eval cbv in
    py "{" ++ quoted "id" ++ py ": " ++ [34%N] ++ u1 ++ [34%N] ++ py ", "
    ++ quoted "success" ++ py ": true, " ++ quoted "data" ++ py ": 42, "
    ++ quoted "count" ++ py ": 1, " ++ quoted "truncated" ++ py ": false, "
    ++ quoted "injected" ++ py ": " ++ quoted "x" ++ py "}".

Definition result_kwargs : gmap str Any :=
  {[ py "id" := PyStr u1; py "success" := PyBool true; py "data" := PyInt 42;
     py "count" := PyInt 1; py "truncated" := PyBool false;
     py "injected" := PyStr (py "x") ]}.

(** A [request.json()] that knows this body and the body [[]]. *)
Definition decoded_body (body : bytes) : Server.Raised + Any :=
  match utf8_decode body with
  | None => inl Server.UnicodeDecodeError
  | Some text =>
      if bool_decide (text = result_body) then inr (PyDict result_kwargs)
      else if bool_decide (text = py "[]") then inr (PyList [])
      else inl Server.JSONDecodeError
  end.

(** A validation that reads the fields used here and leaves the others
    [None]. *)
Definition validated (kwargs : gmap str Any) : option Server.CommandResult :=
  match kwargs !! py "id", kwargs !! py "success" with
  | Some (PyStr id), Some (PyBool success) =>
      Some {| Server.id := id; Server.success := success;
              Server.data := default PyNone (kwargs !! py "data");
              Server.schema := default PyNone (kwargs !! py "schema");
              Server.error := None;
              Server.count :=
                match kwargs !! py "count" with
                | Some (PyInt n) => Some n
                | _ => None
                end;
              Server.truncated :=
                match kwargs !! py "truncated" with
                | Some (PyBool b) => Some b
                | _ => None
                end;
              Server.limit := None; Server.returned := None;
              Server.offset := None; Server.has_more := None;
              Server.next_offset := None; Server.configuration := PyNone;
              Server.extension := None; Server.last_date := None;
              Server.next_same_second_offset := None |}
  | _, _ => None
  end.

(** The result for the command [u1] that this body validates to. *)
Definition result_u1 : Server.CommandResult :=
  {| Server.id := u1; Server.success := true; Server.data := PyInt 42;
     Server.schema := PyNone; Server.error := None;
     Server.count := Some 1%Z; Server.truncated := Some false;
     Server.limit := None; Server.returned := None; Server.offset := None;
     Server.has_more := None; Server.next_offset := None;
     Server.configuration := PyNone; Server.extension := None;
     Server.last_date := None; Server.next_same_second_offset := None |}.

End Scenario.
(** * Properties *)

(** ** Channel normalization *)

Section Normalization.

Import Registry.

Lemma lstrip_split s :
  exists l, s = l ++ lstrip s /\ Forall (fun c => isspace c = true) l.
Proof.
  induction s as [|c s IH]; simpl.
  - exists []. split; [reflexivity | constructor].
  - destruct (isspace c) eqn:Hc.
    + destruct IH as (l & Hl & Hall). exists (c :: l). split.
      * simpl. congruence.
      * constructor; assumption.
    + exists []. split; [reflexivity | constructor].
Qed.

Lemma lstrip_head s c r : lstrip s = c :: r -> isspace c = false.
Proof.
  induction s as [|a s IH]; simpl; [discriminate |].
  destruct (isspace a) eqn:Ha; [assumption |].
  intros [= <- <-]. assumption.
Qed.

Lemma lstrip_nil s : lstrip s = [] <-> Forall (fun c => isspace c = true) s.
Proof.
  induction s as [|a s IH]; simpl.
  - split; [constructor | reflexivity].
  - destruct (isspace a) eqn:Ha.
    + rewrite IH. split; [constructor; assumption | inversion 1; assumption].
    + split; [discriminate | inversion 1; congruence].
Qed.

Lemma strip_nil s : strip s = [] <-> Forall (fun c => isspace c = true) s.
Proof.
  unfold strip, rstrip. split.
  - intros H. apply (f_equal (@rev N)) in H. rewrite rev_involutive in H.
    simpl in H. apply lstrip_nil in H.
    destruct (lstrip_split s) as (l & Hs & Hl). rewrite Hs.
    apply Forall_app. split; [assumption |].
    apply Forall_forall. intros x Hx. rewrite Forall_forall in H.
    apply H. apply list_elem_of_In. apply in_rev.
    rewrite rev_involutive. apply list_elem_of_In. assumption.
  - intros H. apply lstrip_nil in H. rewrite H. reflexivity.
Qed.

(** A stripped string does not end with whitespace. *)
Lemma strip_last s t c : strip s = t ++ [c] -> isspace c = false.
Proof.
  unfold strip, rstrip. intros H.
  apply (f_equal (@rev N)) in H. rewrite rev_involutive, rev_app_distr in H.
  simpl in H. eapply lstrip_head. exact H.
Qed.

(** ... nor does it start with whitespace. *)
Lemma strip_head s c t : strip s = c :: t -> isspace c = false.
Proof.
  unfold strip, rstrip. intros H.
  destruct (lstrip s) as [|a r] eqn:Hl; [discriminate |].
  pose proof (lstrip_head _ _ _ Hl) as Ha.
  destruct (lstrip_split (rev (a :: r))) as (l & Hs & Hall).
  apply (f_equal (@rev N)) in Hs.
  rewrite rev_involutive, rev_app_distr, H in Hs.
  simpl in Hs. injection Hs as -> _. assumption.
Qed.

(** The string is its stripped form between two runs of whitespace. *)
Lemma strip_split s :
  exists l r, s = l ++ strip s ++ r
              /\ Forall (fun c => isspace c = true) l
              /\ Forall (fun c => isspace c = true) r.
Proof.
  destruct (lstrip_split s) as (l & Hs & Hl).
  destruct (lstrip_split (rev (lstrip s))) as (r & Hr & Hrall).
  exists l, (rev r). split; [| split].
  - unfold strip, rstrip. rewrite <- rev_app_distr, <- Hr, rev_involutive.
    exact Hs.
  - assumption.
  - apply Forall_forall. intros x Hx. rewrite Forall_forall in Hrall.
    apply Hrall. apply list_elem_of_In. apply in_rev.
    apply list_elem_of_In. assumption.
Qed.

Lemma channel_char_not_newline c : channel_char c = true -> c <> 10%N.
Proof. intros H ->. vm_compute in H. discriminate. Qed.

Lemma at_dollar_spec s : at_dollar s = true <-> s = [] \/ s = [10%N].
Proof.
  destruct s as [|a [|b r]]; simpl.
  - split; [left; reflexivity | reflexivity].
  - split.
    + intros H. right. destruct a as [|p]; [discriminate |].
      do 4 (destruct p as [p|p|]; try discriminate). reflexivity.
    + intros [H | H]; [discriminate |]. injection H as ->. reflexivity.
  - split.
    + intros H. destruct a as [|p]; [discriminate |].
      do 4 (destruct p as [p|p|]; try discriminate).
    + intros [H | H]; discriminate.
Qed.

Lemma skip_channel_chars_dollar n s :
  at_dollar (skip_channel_chars n s) = true <->
  (exists t, (s = t \/ s = t ++ [10%N])
             /\ Forall (fun c => channel_char c = true) t /\ length t <= n).
Proof.
  revert s. induction n as [|n IH]; intros s.
  - simpl. rewrite at_dollar_spec. split.
    + intros H. exists []. split; [| split; [constructor | simpl; lia]].
      destruct H as [-> | ->]; [left | right]; reflexivity.
    + intros (t & Hs & _ & Hlen). destruct t; [| simpl in Hlen; lia].
      destruct Hs as [-> | ->]; [left | right]; reflexivity.
  - destruct s as [|c s].
    + simpl. split; [| reflexivity].
      intros _. exists []. split; [left; reflexivity |].
      split; [constructor | simpl; lia].
    + simpl. destruct (channel_char c) eqn:Hc.
      * rewrite IH. split.
        -- intros (t & Hs & Hall & Hlen). exists (c :: t). split; [| split].
           ++ destruct Hs as [-> | ->]; [left | right]; reflexivity.
           ++ constructor; assumption.
           ++ simpl; lia.
        -- intros (t & Hs & Hall & Hlen). destruct t as [|a t].
           ++ destruct Hs as [Hs | Hs]; [discriminate |].
              simpl in Hs. injection Hs as -> ->. vm_compute in Hc. discriminate.
           ++ exists t. inversion Hall; subst. simpl in Hlen.
              split; [| split; [assumption | lia]].
              destruct Hs as [Hs | Hs]; simpl in Hs; injection Hs as _ ->;
                [left | right]; reflexivity.
      * rewrite at_dollar_spec. split.
        -- intros [H | H]; [discriminate |]. injection H as -> ->.
           exists []. split; [right; reflexivity |].
           split; [constructor | simpl; lia].
        -- intros (t & Hs & Hall & Hlen). destruct t as [|a t].
           ++ destruct Hs as [Hs | Hs]; [discriminate |].
              simpl in Hs. injection Hs as -> ->. right. reflexivity.
           ++ inversion Hall; subst.
              destruct Hs as [Hs | Hs]; simpl in Hs; injection Hs as -> _;
                congruence.
Qed.

(** What [CHANNEL_ID_PATTERN.match] accepts: the grammar, possibly followed
    by one newline. *)
Lemma CHANNEL_ID_PATTERN_match_spec s :
  CHANNEL_ID_PATTERN_match s = true <->
  grammar s \/ exists t, s = t ++ [10%N] /\ grammar t.
Proof.
  unfold CHANNEL_ID_PATTERN_match, grammar. destruct s as [|c s].
  - split; [discriminate |]. intros [[H _] | (t & Ht & _)].
    + simpl in H. lia.
    + destruct t; discriminate.
  - rewrite andb_true_iff, skip_channel_chars_dollar. split.
    + intros (Hc & t & Hs & Hall & Hlen).
      destruct Hs as [-> | ->].
      * left. split; [simpl; lia | constructor; assumption].
      * right. exists (c :: t). split; [reflexivity |].
        split; [simpl; lia | constructor; assumption].
    + intros [[Hlen Hall] | (t & Ht & Hlen & Hall)].
      * inversion Hall; subst. split; [assumption |].
        exists s. split; [left; reflexivity |].
        split; [assumption | simpl in Hlen; lia].
      * destruct t as [|a t]; [simpl in Hlen; lia |].
        simpl in Ht. injection Ht as -> ->. inversion Hall; subst.
        split; [assumption |]. exists t. split; [right; reflexivity |].
        split; [assumption | simpl in Hlen; lia].
Qed.

(** On a stripped string the pattern is exactly the grammar: the newline
    that [$] would tolerate has been stripped. *)
Lemma CHANNEL_ID_PATTERN_match_strip s :
  CHANNEL_ID_PATTERN_match (strip s) = true <-> grammar (strip s).
Proof.
  rewrite CHANNEL_ID_PATTERN_match_spec. split; [| tauto].
  intros [H | (t & Ht & _)]; [assumption |].
  apply strip_last in Ht. vm_compute in Ht. discriminate.
Qed.

End Normalization.

Section NormalizationClaim.

Import Registry.

Lemma validate_channel_id_cases s :
  (s = [] \/ whitespace_only s \/ ~ grammar (strip s)) /\
    validate_channel_id s = DEFAULT_CHANNEL
  \/ ~ (s = [] \/ whitespace_only s \/ ~ grammar (strip s)) /\
    validate_channel_id s = strip s.
Proof.
  unfold validate_channel_id.
  destruct s as [|c s]; [left; split; [left |]; reflexivity |].
  cbn [truthy negb orb].
  destruct (strip (c :: s)) as [|a t] eqn:Hstrip.
  - left. split; [| reflexivity]. right. left.
    split; [discriminate | apply strip_nil; assumption].
  - cbn [truthy negb]. rewrite <- Hstrip.
    destruct (CHANNEL_ID_PATTERN_match (strip (c :: s))) eqn:Hm; cbn [negb].
    + right. split; [| reflexivity].
      apply CHANNEL_ID_PATTERN_match_strip in Hm.
      intros [H | [[_ H] | H]]; [discriminate | | tauto].
      apply strip_nil in H. congruence.
    + left. split; [| reflexivity]. right. right.
      rewrite <- CHANNEL_ID_PATTERN_match_strip. congruence.
Qed.

(** C4, as stated, fails: the input "default" passes the grammar and is
    neither empty nor blank, yet the value returned is the literal
    "default". *)
Lemma validate_channel_id_default_input :
  ~ (validate_channel_id (py "default") = DEFAULT_CHANNEL <->
     (py "default" = [] \/ whitespace_only (py "default")
      \/ ~ grammar (strip (py "default")))).
Proof.
  intros [H _]. specialize (H eq_refl).
  destruct H as [H | [[_ H] | H]].
  - discriminate.
  - inversion H as [|? ? Hd _]. vm_compute in Hd. discriminate.
  - apply H. apply CHANNEL_ID_PATTERN_match_strip. vm_compute. reflexivity.
Qed.

(** C4, amended: [validate_channel_id s] is the literal "default" when [s]
    is empty, whitespace-only or its trimmed form is outside the grammar
    [[A-Za-z0-9_-]{1,64}], and otherwise it is [s] trimmed; so it is the
    literal "default" exactly in those three cases and when the trimmed
    input is itself "default". *)
Theorem validate_channel_id_normalization s :
  ((s = [] \/ whitespace_only s \/ ~ grammar (strip s)) ->
     validate_channel_id s = DEFAULT_CHANNEL)
  /\ (~ (s = [] \/ whitespace_only s \/ ~ grammar (strip s)) ->
     validate_channel_id s = strip s)
  /\ (validate_channel_id s = DEFAULT_CHANNEL <->
     (s = [] \/ whitespace_only s \/ ~ grammar (strip s)
      \/ strip s = DEFAULT_CHANNEL)).
Proof.
  destruct (validate_channel_id_cases s) as [[Hc Hv] | [Hc Hv]].
  - split; [intros _; exact Hv |]. split; [tauto |].
    split; [tauto | intros _; exact Hv].
  - split; [tauto |]. split; [intros _; exact Hv |].
    rewrite Hv. tauto.
Qed.

(** The result always satisfies the grammar. *)
Lemma validate_channel_id_grammar s : grammar (validate_channel_id s).
Proof.
  assert (Hd : grammar DEFAULT_CHANNEL).
  { apply (CHANNEL_ID_PATTERN_match_strip DEFAULT_CHANNEL).
    vm_compute. reflexivity. }
  destruct (validate_channel_id_cases s) as [[_ ->] | [Hc ->]];
    [exact Hd |].
  destruct (CHANNEL_ID_PATTERN_match (strip s)) eqn:Hm.
  - apply CHANNEL_ID_PATTERN_match_strip. exact Hm.
  - exfalso. apply Hc. right. right.
    rewrite <- CHANNEL_ID_PATTERN_match_strip. congruence.
Qed.

Example validate_channel_id_trims :
  validate_channel_id (py "  ops-1 ") = py "ops-1".
Proof. vm_compute. reflexivity. Qed.

Example validate_channel_id_inner_space :
  validate_channel_id (py "a b") = DEFAULT_CHANNEL.
Proof. vm_compute. reflexivity. Qed.

Example validate_channel_id_too_long :
  validate_channel_id (repeat 97%N 65) = DEFAULT_CHANNEL
  /\ validate_channel_id (repeat 97%N 64) = repeat 97%N 64.
Proof. split; vm_compute; reflexivity. Qed.

(** The pattern alone lets a final newline through; [strip] has removed it
    before the pattern is tried. *)
Example CHANNEL_ID_PATTERN_final_newline :
  CHANNEL_ID_PATTERN_match (py "abc" ++ [10%N]) = true
  /\ validate_channel_id (py "abc" ++ [10%N]) = py "abc".
Proof. split; vm_compute; reflexivity. Qed.

End NormalizationClaim.

(** ** The single-channel queue *)

Section SingleQueue.

Import CQ.

Lemma Qle_zero_iff t : Qle_zero t = true <-> (t <= 0)%Q.
Proof. unfold Qle_zero. apply Qle_bool_iff. Qed.

Lemma get_nowait_head self :
  get_nowait self =
    match head (_queue self) with
    | Some command => Some (command, dequeued self)
    | None => None
    end.
Proof. unfold get_nowait, dequeued. destruct (_queue self); reflexivity. Qed.

Lemma dequeued_empty self : _queue self = [] -> dequeued self = self.
Proof. destruct self as [p r q e]. unfold dequeued. simpl. intros ->. reflexivity. Qed.

(** C10: with [timeout] [None] or not positive, [get_next_command] never
    waits: it returns at once, with the head of the queue (which it takes
    off) when there is one and with [None] otherwise. *)
Theorem get_next_command_nonblocking self timeout :
  (timeout = None \/ exists t, timeout = Some t /\ (t <= 0)%Q) ->
  get_next_command self timeout
  = GetReturn (head (_queue self)) (dequeued self).
Proof.
  intros Ht.
  assert (Hnow : match get_nowait self with
                 | Some (command, self') => GetReturn (Some command) self'
                 | None => GetReturn None self
                 end = GetReturn (head (_queue self)) (dequeued self)).
  { rewrite get_nowait_head. destruct (_queue self) eqn:Hq; simpl.
    - rewrite dequeued_empty by assumption. reflexivity.
    - reflexivity. }
  unfold get_next_command. destruct Ht as [-> | (t & -> & Hle)].
  - exact Hnow.
  - apply Qle_zero_iff in Hle. rewrite Hle. exact Hnow.
Qed.

Lemma get_next_command_nonblocking_witness :
  let '(_, q) := add_command CQ.new (py "c1") 0 (py "execute_query") PyNone in
  get_next_command q (Some (-1 # 2)%Q)
  = GetReturn (head (_queue q)) (dequeued q).
Proof.
  apply (get_next_command_nonblocking _ (Some (-1 # 2)%Q)).
  right. exists (-1 # 2)%Q. split; [reflexivity |].
  unfold Qle. simpl. lia.
Defined.

(** A positive timeout is the one case that waits, whatever the queue
    holds. *)
Lemma get_next_command_waits self t :
  (0 < t)%Q -> get_next_command self (Some t) = GetWait t.
Proof.
  intros Hpos. unfold get_next_command.
  destruct (Qle_zero t) eqn:Hle; [| reflexivity].
  apply Qle_zero_iff in Hle. exfalso. eapply Qlt_not_le; eassumption.
Qed.

(** The other timeouts do not wait. *)
Lemma get_next_command_now self timeout :
  waits timeout = false ->
  get_next_command self timeout
  = GetReturn (head (_queue self)) (dequeued self).
Proof.
  intros Hw. unfold get_next_command.
  assert (Hnow : match get_nowait self with
                 | Some (command, self') => GetReturn (Some command) self'
                 | None => GetReturn None self
                 end = GetReturn (head (_queue self)) (dequeued self)).
  { rewrite get_nowait_head. destruct (_queue self) eqn:Hq; simpl;
      [| reflexivity].
    rewrite dequeued_empty by assumption. reflexivity. }
  destruct timeout as [t|]; [| exact Hnow].
  simpl in Hw. apply negb_false_iff in Hw. rewrite Hw. exact Hnow.
Qed.


Lemma set_result_found self command_id result :
  (set_result self command_id result).1
  = bool_decide (is_Some (_pending self !! command_id)).
Proof.
  unfold set_result. destruct (_pending self !! command_id) eqn:Hp.
  - rewrite bool_decide_true by eauto. reflexivity.
  - rewrite bool_decide_false by (intros [? ?]; discriminate). reflexivity.
Qed.

Lemma set_result_pending self command_id result :
  _pending (set_result self command_id result).2 = _pending self.
Proof.
  unfold set_result. destruct (_pending self !! command_id); reflexivity.
Qed.

(** C3, as stated, fails: a second [set_result] for the same command,
    before the awaiter has consumed the first result, returns true again
    and replaces the stored result. *)
Lemma set_result_second_call_true :
  let q1 := (add_command CQ.new (py "c1") 0 (py "execute_query") PyNone).2 in
  let q2 := (set_result q1 (py "c1") (PyInt 1)).2 in
  (set_result q1 (py "c1") (PyInt 1)).1 = true
  /\ _results q2 !! py "c1" = Some (PyInt 1)
  /\ (set_result q2 (py "c1") (PyInt 2)).1 = true
  /\ _results (set_result q2 (py "c1") (PyInt 2)).2 !! py "c1" = Some (PyInt 2).
Proof. vm_compute. repeat split; reflexivity. Qed.

(** C3, amended: [set_result] returns true exactly when the command id is
    in the pending map, whether or not a result is already stored for it.
    It leaves the pending map as it is, so until the awaiter consumes the
    result every further [set_result] for that id returns true and
    replaces the stored result; after the awaiter has consumed it (or
    [remove_command] has dropped it) [set_result] returns false. *)
Theorem set_result_true_iff_pending self command_id result :
  ((set_result self command_id result).1 = true <->
     is_Some (_pending self !! command_id))
  /\ _pending (set_result self command_id result).2 = _pending self
  /\ ((set_result self command_id result).1 = true ->
      _results (set_result self command_id result).2 !! command_id = Some result)
  /\ (forall result',
      (set_result (set_result self command_id result).2 command_id result').1
      = (set_result self command_id result).1)
  /\ (forall result',
      (set_result (wait_for_result_finish self command_id).2 command_id result').1
      = false)
  /\ (forall result',
      (set_result (remove_command self command_id).2 command_id result').1
      = false).
Proof.
  pose proof (set_result_found self command_id result) as Hf.
  pose proof (set_result_pending self command_id result) as Hp.
  split; [| split; [exact Hp | split; [| split; [| split]]]].
  - rewrite Hf. apply bool_decide_eq_true.
  - unfold set_result. destruct (_pending self !! command_id); simpl;
      [intros _; apply lookup_insert_eq | discriminate].
  - intros result'. rewrite !set_result_found, Hp. reflexivity.
  - intros result'. rewrite set_result_found. simpl.
    rewrite lookup_delete_eq. apply bool_decide_eq_false.
    intros [? ?]; discriminate.
  - intros result'. rewrite set_result_found. unfold remove_command.
    apply bool_decide_eq_false. intros [c Hc].
    destruct (bool_decide (is_Some (_pending self !! command_id))) eqn:Hd;
      simpl in Hc.
    + rewrite lookup_delete_eq in Hc. discriminate.
    + apply bool_decide_eq_false in Hd. apply Hd. eauto.
Qed.

End SingleQueue.

(** ** The channel queues under the event loop *)

Section Effects.

Import CQ CCQ Loop.

Lemma get_next_command_cases self timeout :
  (exists command,
      _queue self = command :: _queue (CQ.dequeued self)
      /\ CQ.get_next_command self timeout
         = GetReturn (Some command) (CQ.dequeued self))
  \/ (_queue self = []
      /\ CQ.get_next_command self timeout = GetReturn None self)
  \/ (exists t, CQ.get_next_command self timeout = GetWait t).
Proof.
  assert (Hnow :
    (exists command,
        _queue self = command :: _queue (CQ.dequeued self)
        /\ match get_nowait self with
           | Some (command, self') => GetReturn (Some command) self'
           | None => GetReturn None self
           end = GetReturn (Some command) (CQ.dequeued self))
    \/ (_queue self = []
        /\ match get_nowait self with
           | Some (command, self') => GetReturn (Some command) self'
           | None => GetReturn None self
           end = GetReturn None self)).
  { rewrite get_nowait_head.
    destruct (_queue self) as [|command rest] eqn:Hq; simpl.
    - right. split; reflexivity.
    - left. exists command. split; [rewrite Hq |]; reflexivity. }
  unfold CQ.get_next_command.
  destruct timeout as [t|]; [destruct (Qle_zero t) |].
  - destruct Hnow as [H | H]; auto.
  - right. right. eauto.
  - destruct Hnow as [H | H]; auto.
Qed.

(** The ways one turn of the loop can go. *)
Lemma poll_turn_cases again clock tick idx deadline timeout queue :
  poll_turn again clock tick idx deadline timeout queue
    = Some (PollReturn None, queue, [])
  \/ poll_turn again clock tick idx deadline timeout queue
     = Some (PollSuspend, queue, [])
  \/ exists command,
      _queue queue = command :: _queue (CQ.dequeued queue)
      /\ (is_Some (idx !! id command)
          /\ poll_turn again clock tick idx deadline timeout queue
             = Some (PollReturn (Some command), CQ.dequeued queue, [])
          \/ idx !! id command = None
             /\ exists tick',
                poll_turn again clock tick idx deadline timeout queue
                = match again tick' (CQ.dequeued queue) with
                  | Some (out, queue'', skipped) =>
                      Some (out, queue'', command :: skipped)
                  | None => None
                  end).
Proof.
  assert (Hget : forall current_timeout tick',
    let r :=
      match CQ.get_next_command queue current_timeout with
      | GetReturn None queue1 => Some (PollReturn None, queue1, [])
      | GetReturn (Some command) queue1 =>
          if bool_decide (is_Some (idx !! id command)) then
            Some (PollReturn (Some command), queue1, [])
          else
            match again tick' queue1 with
            | Some (out, queue2, skipped) =>
                Some (out, queue2, command :: skipped)
            | None => None
            end
      | GetWait _ => Some (PollSuspend, queue, [])
      end in
    r = Some (PollReturn None, queue, [])
    \/ r = Some (PollSuspend, queue, [])
    \/ exists command,
        _queue queue = command :: _queue (CQ.dequeued queue)
        /\ (is_Some (idx !! id command)
            /\ r = Some (PollReturn (Some command), CQ.dequeued queue, [])
            \/ idx !! id command = None
               /\ exists tick'',
                  r = match again tick'' (CQ.dequeued queue) with
                      | Some (out, queue'', skipped) =>
                          Some (out, queue'', command :: skipped)
                      | None => None
                      end)).
  { intros current_timeout tick' r. subst r.
    destruct (get_next_command_cases queue current_timeout)
      as [(command & Hq & ->) | [(Hq & ->) | (t & ->)]].
    - right. right. exists command. split; [exact Hq |].
      destruct (bool_decide (is_Some (idx !! id command))) eqn:Hidx.
      + left. apply bool_decide_eq_true in Hidx. split; [exact Hidx | reflexivity].
      + right. apply bool_decide_eq_false in Hidx. split.
        * destruct (idx !! id command); [exfalso; apply Hidx; eauto | reflexivity].
        * exists tick'. reflexivity.
    - left. reflexivity.
    - right. left. reflexivity. }
  unfold poll_turn. destruct deadline as [d|]; [| apply Hget].
  destruct (Qle_zero (float_sub clock d (clock tick)));
    [left; reflexivity | apply Hget].
Qed.

(** The loop only takes commands off the head of the queue: those it
    skipped, none of which is in the index, and then the one it returns,
    which is. *)
Lemma poll_loop_spec fuel clock tick idx deadline timeout queue out queue' skipped :
  poll_loop fuel clock tick idx deadline timeout queue
  = Some (out, queue', skipped) ->
  _queue queue = poll_taken out skipped ++ _queue queue'
  /\ _pending queue' = _pending queue
  /\ _results queue' = _results queue
  /\ _events queue' = _events queue
  /\ Forall (fun command => idx !! id command = None) skipped
  /\ (forall command, out = PollReturn (Some command) ->
                      is_Some (idx !! id command)).
Proof.
  revert tick queue out queue' skipped.
  induction fuel as [|fuel IH]; intros tick queue out queue' skipped;
    [discriminate |].
  cbn [poll_loop].
  destruct (poll_turn_cases
              (fun tick' queue' =>
                 poll_loop fuel clock tick' idx deadline timeout queue')
              clock tick idx deadline timeout queue)
    as [-> | [-> | (command & Hq & [(Hidx & ->) | (Hidx & tick' & ->)])]].
  - intros [= <- <- <-]. repeat split; try reflexivity;
      [constructor | discriminate].
  - intros [= <- <- <-]. repeat split; try reflexivity;
      [constructor | discriminate].
  - intros [= <- <- <-]. repeat split; try reflexivity;
      [exact Hq | constructor |].
    intros c [= <-]. exact Hidx.
  - destruct (poll_loop fuel clock tick' idx deadline timeout
                (CQ.dequeued queue))
      as [[[out1 queue1] skipped1]|] eqn:Hrec; [| discriminate].
    intros [= <- <- <-].
    destruct (IH _ _ _ _ _ Hrec) as (H1 & H2 & H3 & H4 & H5 & H6).
    repeat split; try assumption.
    + rewrite Hq, H1. reflexivity.
    + constructor; assumption.
Qed.

(** The loop always ends with the fuel [get_next_command] gives it. *)
Lemma poll_loop_total fuel clock tick idx deadline timeout queue :
  length (_queue queue) < fuel ->
  is_Some (poll_loop fuel clock tick idx deadline timeout queue).
Proof.
  revert tick queue. induction fuel as [|fuel IH]; intros tick queue Hlen;
    [lia |].
  cbn [poll_loop].
  destruct (poll_turn_cases
              (fun tick' queue' =>
                 poll_loop fuel clock tick' idx deadline timeout queue')
              clock tick idx deadline timeout queue)
    as [-> | [-> | (command & Hq & [(Hidx & ->) | (Hidx & tick' & ->)])]];
    eauto.
  destruct (IH tick' (CQ.dequeued queue)) as [[[o q] sk] ->]; eauto.
  apply (f_equal length) in Hq. cbn [length] in Hq. lia.
Qed.

Lemma with_queue_effect w w' channel queue :
  ccq w' = with_queue (ccq w) channel queue ->
  has_channel w channel ->
  index w' = index w
  /\ items w' channel = _queue queue
  /\ (forall ch, ch <> channel -> items w' ch = items w ch)
  /\ (forall ch, has_channel w' ch <-> has_channel w ch).
Proof.
  intros Hccq Hch. unfold index, items, has_channel in *. rewrite Hccq.
  unfold with_queue. simpl. split; [reflexivity |]. split; [| split].
  - rewrite lookup_insert_eq. reflexivity.
  - intros ch Hne. rewrite lookup_insert_ne by congruence. reflexivity.
  - intros ch. destruct (decide (channel = ch)) as [<- | Hne].
    + rewrite lookup_insert_eq. split; eauto.
    + rewrite lookup_insert_ne by assumption. reflexivity.
Qed.

Lemma items_lookup w channel queue :
  _channels (ccq w) !! channel = Some queue -> items w channel = _queue queue.
Proof. unfold items. intros ->. reflexivity. Qed.

Lemma uuid_of_channel_of a : uuid_of a = None -> channel_of a = None.
Proof. destruct a; simpl; congruence. Qed.

Lemma with_queue_same self channel queue :
  _channels self !! channel = Some queue ->
  with_queue self channel queue = self.
Proof.
  intros Hch. unfold with_queue. destruct self as [channels idx]. simpl in *.
  f_equal. apply insert_id. exact Hch.
Qed.

(** *** The lists of suspended coroutines *)

Lemma list_middle {A} (l : list A) i x :
  l !! i = Some x ->
  l = take i l ++ x :: drop (S i) l
  /\ (forall y, <[i := y]> l = take i l ++ y :: drop (S i) l)
  /\ delete i l = take i l ++ drop (S i) l.
Proof.
  intros Hi. split; [symmetry; apply take_drop_middle, Hi |]. split.
  - intros y. apply insert_take_drop. eapply lookup_lt_Some, Hi.
  - apply delete_take_drop.
Qed.

Lemma omap_middle {A B} (f : A -> option B) l1 x l2 :
  omap f (l1 ++ x :: l2) = omap f l1 ++ option_list (f x) ++ omap f l2.
Proof. rewrite omap_app. simpl. destruct (f x); reflexivity. Qed.

Lemma held_by_with_item ch k item :
  held_by ch (with_item k item)
  = if bool_decide (pk_channel k = ch) then item else None.
Proof. reflexivity. Qed.

Lemma held_by_no_item ch k : pk_item k = None -> held_by ch k = None.
Proof. unfold held_by. intros ->. destruct (bool_decide _); reflexivity. Qed.

Lemma held_by_other ch k : pk_channel k <> ch -> held_by ch k = None.
Proof. unfold held_by. intros H. rewrite bool_decide_false by exact H. reflexivity. Qed.

Lemma held_by_item k c : pk_item k = Some c -> held_by (pk_channel k) k = Some c.
Proof. unfold held_by. intros ->. rewrite bool_decide_true by reflexivity. reflexivity. Qed.

(** The commands held for the pollers of a channel, before and after
    poller [i] is replaced or removed. *)
Lemma held_middle w i k ch :
  pollers w !! i = Some k ->
  exists h1 h2,
    held w ch = h1 ++ option_list (held_by ch k) ++ h2
    /\ (forall w' k', pollers w' = <[i := k']> (pollers w) ->
          held w' ch = h1 ++ option_list (held_by ch k') ++ h2)
    /\ (forall w', pollers w' = delete i (pollers w) -> held w' ch = h1 ++ h2).
Proof.
  intros Hi. destruct (list_middle _ _ _ Hi) as (Hl & Hins & Hdel).
  exists (omap (held_by ch) (take i (pollers w))),
         (omap (held_by ch) (drop (S i) (pollers w))).
  split; [| split].
  - unfold held. rewrite Hl at 1. apply omap_middle.
  - intros w' k' Hw'. unfold held. rewrite Hw', Hins. apply omap_middle.
  - intros w' Hw'. unfold held. rewrite Hw', Hdel. apply omap_app.
Qed.

Lemma held_snoc w w' k ch :
  pollers w' = pollers w ++ [k] -> pk_item k = None ->
  held w' ch = held w ch.
Proof.
  intros Hw' Hk. unfold held. rewrite Hw', omap_app. simpl.
  rewrite (held_by_no_item _ _ Hk). apply app_nil_r.
Qed.

Lemma held_same w w' ch : pollers w' = pollers w -> held w' ch = held w ch.
Proof. unfold held. intros ->. reflexivity. Qed.

#[local] Arguments poll_loop : simpl never.

(** *** The four pieces of a poll *)

(** What the pieces of a poll have in common: they leave the index, the
    awaiters and the set of channels alone, and take [from_queue] off the
    queue of [channel]. *)
Definition poll_piece (w w' : World) (channel : str)
    (from_queue : list Command) : Prop :=
  index w' = index w
  /\ awaiters w' = awaiters w
  /\ items w channel = from_queue ++ items w' channel
  /\ (forall ch, ch <> channel -> items w' ch = items w ch)
  /\ (forall ch, has_channel w' ch <-> has_channel w ch).

Lemma poll_piece_with_queue w w' channel queue queue' from_queue :
  _channels (ccq w) !! channel = Some queue ->
  ccq w' = with_queue (ccq w) channel queue' ->
  awaiters w' = awaiters w ->
  _queue queue = from_queue ++ _queue queue' ->
  poll_piece w w' channel from_queue.
Proof.
  intros Hch Hccq Haw Hq.
  assert (Hhc : has_channel w channel) by (unfold has_channel; rewrite Hch; eauto).
  destruct (with_queue_effect w w' channel queue' Hccq Hhc)
    as (Hi & Hit & Hoth & Hhas).
  split; [exact Hi |]. split; [exact Haw |].
  split; [rewrite Hit, (items_lookup _ _ _ Hch); exact Hq |].
  split; assumption.
Qed.

Lemma poll_piece_same w w' channel :
  ccq w' = ccq w -> awaiters w' = awaiters w -> poll_piece w w' channel [].
Proof.
  intros Hccq Haw. unfold poll_piece, index, items, has_channel.
  rewrite Hccq. repeat split; auto.
Qed.

Lemma step_get_next_command w channel timeout clock w' obs :
  step w (GetNextCommand channel timeout clock) = Some (w', obs) ->
  exists out skipped,
    obs = poll_obs channel out skipped
    /\ poll_piece w w' channel (poll_taken out skipped)
    /\ Forall (fun c => index w !! id c = None) skipped
    /\ (forall c, out = PollReturn (Some c) -> is_Some (index w !! id c))
    /\ match out with
       | PollReturn _ => pollers w' = pollers w
       | PollSuspend =>
           exists k, pollers w' = pollers w ++ [k]
                     /\ pk_channel k = channel /\ pk_item k = None
       end.
Proof.
  simpl. unfold CCQ.get_next_command.
  destruct (_channels (ccq w) !! channel) as [queue|] eqn:Hch.
  - destruct (poll_deadline clock timeout) as [deadline tick].
    destruct (poll_loop _ _ _ _ _ _ _) as [[[out queue'] skipped]|] eqn:Hloop;
      [| discriminate].
    intros [= <- <-].
    destruct (poll_loop_spec _ _ _ _ _ _ _ _ _ _ Hloop)
      as (Hq & _ & _ & _ & Hskip & Hout).
    exists out, skipped. split; [reflexivity |]. split.
    { eapply poll_piece_with_queue; try reflexivity; eassumption. }
    split; [exact Hskip |]. split; [exact Hout |].
    destruct out; [reflexivity |]. eexists. split; [reflexivity |].
    split; reflexivity.
  - intros [= <- <-]. exists (PollReturn None), [].
    split; [reflexivity |]. split; [apply poll_piece_same; reflexivity |].
    split; [constructor |]. split; [discriminate | reflexivity].
Qed.

Lemma step_poller_got_item w i w' obs :
  step w (PollerGotItem i) = Some (w', obs) ->
  exists k c,
    pollers w !! i = Some k /\ pk_item k = None
    /\ obs = []
    /\ poll_piece w w' (pk_channel k) [c]
    /\ pollers w' = <[i := with_item k (Some c)]> (pollers w).
Proof.
  simpl. destruct (pollers w !! i) as [k|] eqn:Hk; [| discriminate].
  unfold poller_got_item.
  destruct (pk_item k) eqn:Hitem; [discriminate |].
  destruct (_channels (ccq w) !! pk_channel k) as [queue|] eqn:Hch;
    [| discriminate].
  rewrite get_nowait_head.
  destruct (_queue queue) as [|command rest] eqn:Hq0; [discriminate |].
  simpl. intros [= <- <-]. exists k, command.
  split; [reflexivity |]. split; [exact Hitem |]. split; [reflexivity |].
  split; [| reflexivity].
  eapply poll_piece_with_queue; try reflexivity; try eassumption.
  simpl. rewrite Hq0. reflexivity.
Qed.

Lemma step_poller_resumed w i clock w' obs :
  step w (PollerResumed i clock) = Some (w', obs) ->
  exists k c out skipped from_queue,
    pollers w !! i = Some k /\ pk_item k = Some c
    /\ obs = poll_obs (pk_channel k) out skipped
    /\ poll_taken out skipped = c :: from_queue
    /\ poll_piece w w' (pk_channel k) from_queue
    /\ Forall (fun c => index w !! id c = None) skipped
    /\ (forall c, out = PollReturn (Some c) -> is_Some (index w !! id c))
    /\ pollers w'
       = match out with
         | PollSuspend => <[i := with_item k None]> (pollers w)
         | PollReturn _ => delete i (pollers w)
         end.
Proof.
  simpl. destruct (pollers w !! i) as [k|] eqn:Hk; [| discriminate].
  unfold poller_resumed.
  destruct (pk_item k) as [command|] eqn:Hitem; [| discriminate].
  destruct (_channels (ccq w) !! pk_channel k) as [queue|] eqn:Hch;
    [| discriminate].
  destruct (bool_decide (is_Some (_command_index (ccq w) !! id command)))
    eqn:Hidx.
  - intros [= <- <-]. apply bool_decide_eq_true in Hidx.
    exists k, command, (PollReturn (Some command)), [], [].
    split; [reflexivity |]. split; [exact Hitem |]. split; [reflexivity |].
    split; [reflexivity |].
    split; [apply poll_piece_same; reflexivity |].
    split; [constructor |]. split; [| reflexivity].
    intros c [= <-]. exact Hidx.
  - apply bool_decide_eq_false in Hidx.
    destruct (poll_loop _ _ _ _ _ _ _) as [[[out queue'] skipped]|] eqn:Hloop;
      [| discriminate].
    intros [= <- <-].
    destruct (poll_loop_spec _ _ _ _ _ _ _ _ _ _ Hloop)
      as (Hq & _ & _ & _ & Hskip & Hout).
    exists k, command, out, (command :: skipped), (poll_taken out skipped).
    split; [reflexivity |]. split; [exact Hitem |]. split; [reflexivity |].
    split; [reflexivity |].
    split; [eapply poll_piece_with_queue; try reflexivity; eassumption |].
    split; [| split; [exact Hout | reflexivity]].
    constructor; [| exact Hskip].
    unfold index. destruct (_command_index (ccq w) !! id command);
      [exfalso; apply Hidx; eauto | reflexivity].
Qed.

Lemma step_poller_timed_out w i w' obs :
  step w (PollerTimedOut i) = Some (w', obs) ->
  exists k,
    pollers w !! i = Some k /\ pk_item k = None
    /\ obs = [Polled (pk_channel k) None]
    /\ poll_piece w w' (pk_channel k) []
    /\ pollers w' = delete i (pollers w).
Proof.
  simpl. destruct (pollers w !! i) as [k|] eqn:Hk; [| discriminate].
  destruct (pk_item k) eqn:Hitem; [discriminate |].
  intros [= <- <-]. exists k.
  split; [reflexivity |]. split; [exact Hitem |]. split; [reflexivity |].
  split; [apply poll_piece_same; reflexivity | reflexivity].
Qed.

(** What [step] does, in terms of [items], [held], [index] and the
    awaiters. *)
Lemma step_effect w a w' obs :
  step w a = Some (w', obs) -> effect w a w' obs.
Proof.
  destruct a as [channel tool params uuid4 utcnow | channel timeout clock
                | i | i clock | i | command_id result | command_id timeout
                | i | i | ].
  - (* add_command *)
    simpl. unfold CCQ.add_command.
    destruct (_channels (ccq w) !! channel) as [queue|] eqn:Hch; simpl;
      intros [= <- <-].
    + eapply effect_add with
        (command := {| id := uuid4; tool := tool; params := params;
                       created_at := utcnow;
                       result_event := length (_events queue) |});
        try reflexivity; unfold items, has_channel; simpl.
      * rewrite lookup_insert_eq, Hch. reflexivity.
      * intros ch Hne. rewrite lookup_insert_ne by congruence. reflexivity.
      * intros ch. destruct (decide (channel = ch)) as [<- | Hne].
        -- rewrite lookup_insert_eq. split; eauto.
        -- rewrite lookup_insert_ne by assumption. split; [eauto |].
           intros [-> | H]; [congruence | exact H].
    + eapply effect_add with
        (command := {| id := uuid4; tool := tool; params := params;
                       created_at := utcnow; result_event := 0 |});
        try reflexivity; unfold items, has_channel; simpl.
      * rewrite lookup_insert_eq, Hch. reflexivity.
      * intros ch Hne. rewrite !lookup_insert_ne by congruence. reflexivity.
      * intros ch. destruct (decide (channel = ch)) as [<- | Hne].
        -- rewrite lookup_insert_eq. split; eauto.
        -- rewrite !lookup_insert_ne by assumption. split; [eauto |].
           intros [-> | H]; [congruence | exact H].
  - (* get_next_command *)
    intros Hstep.
    destruct (step_get_next_command _ _ _ _ _ _ Hstep)
      as (out & skipped & -> & (Hi & Haw & Hit & Hoth & Hhas) & Hskip & Hout
          & Hpo).
    assert (Hheld : forall ch, held w' ch = held w ch).
    { intros ch. destruct out as [r|].
      - apply held_same, Hpo.
      - destruct Hpo as (k & Hpo & _ & Hk). eapply held_snoc; eassumption. }
    apply (effect_poll w _ channel out skipped [] (poll_taken out skipped) []);
      try assumption; try reflexivity.
    + rewrite Hheld. reflexivity.
    + intros ch _. apply Hheld.
  - (* the Queue.get() of a suspended poller takes the head *)
    intros Hstep.
    destruct (step_poller_got_item _ _ _ _ Hstep)
      as (k & c & Hk & Hitem & -> & (Hi & Haw & Hit & Hoth & Hhas) & Hpo).
    apply (effect_poll w _ (pk_channel k) PollSuspend [] [] [] [c]);
      try assumption; try reflexivity.
    + destruct (held_middle w i k (pk_channel k) Hk) as (h1 & h2 & Hw & Hins & _).
      rewrite (Hins _ _ Hpo), Hw, held_by_with_item.
      rewrite bool_decide_true by reflexivity.
      rewrite (held_by_no_item _ _ Hitem). simpl. rewrite app_nil_r.
      rewrite <- app_assoc. apply Permutation_app_head.
      apply Permutation_cons_append.
    + intros ch Hne.
      destruct (held_middle w i k ch Hk) as (h1 & h2 & Hw & Hins & _).
      rewrite (Hins _ _ Hpo), Hw, held_by_with_item.
      rewrite bool_decide_false by congruence.
      rewrite (held_by_no_item _ _ Hitem). reflexivity.
    + constructor.
    + discriminate.
  - (* a suspended poller goes on with its command *)
    intros Hstep.
    destruct (step_poller_resumed _ _ _ _ _ Hstep)
      as (k & c & out & skipped & from_queue & Hk & Hitem & -> & Htaken
          & (Hi & Haw & Hit & Hoth & Hhas) & Hskip & Hout & Hpo).
    apply (effect_poll w _ (pk_channel k) out skipped [c] from_queue []);
      try assumption; try reflexivity.
    + destruct (held_middle w i k (pk_channel k) Hk) as (h1 & h2 & Hw & Hins & Hdel).
      rewrite Hw, (held_by_item _ _ Hitem). simpl. rewrite app_nil_r.
      assert (Hw' : held w' (pk_channel k) = h1 ++ h2).
      { destruct out as [r|].
        - apply Hdel, Hpo.
        - rewrite (Hins _ _ Hpo), held_by_with_item.
          destruct (bool_decide _); reflexivity. }
      rewrite Hw', <- app_assoc. apply Permutation_app_head.
      symmetry. apply Permutation_cons_append.
    + intros ch Hne.
      destruct (held_middle w i k ch Hk) as (h1 & h2 & Hw & Hins & Hdel).
      rewrite Hw, (held_by_other ch k) by congruence. simpl.
      destruct out as [r|].
      * apply Hdel, Hpo.
      * rewrite (Hins _ _ Hpo), held_by_with_item.
        destruct (bool_decide _); reflexivity.
  - (* a suspended poller times out *)
    intros Hstep.
    destruct (step_poller_timed_out _ _ _ _ Hstep)
      as (k & Hk & Hitem & -> & (Hi & Haw & Hit & Hoth & Hhas) & Hpo).
    assert (Hheld : forall ch, held w' ch = held w ch).
    { intros ch.
      destruct (held_middle w i k ch Hk) as (h1 & h2 & Hw & _ & Hdel).
      rewrite (Hdel _ Hpo), Hw, (held_by_no_item _ _ Hitem). reflexivity. }
    apply (effect_poll w _ (pk_channel k) (PollReturn None) [] [] [] []);
      try assumption; try reflexivity.
    + rewrite Hheld. reflexivity.
    + intros ch _. apply Hheld.
    + constructor.
    + discriminate.
  - (* set_result *)
    simpl. unfold CCQ.set_result.
    destruct (_command_index (ccq w) !! command_id) as [channel|] eqn:Hidx.
    + destruct (_channels (ccq w) !! channel) as [queue|] eqn:Hch.
      * destruct (CQ.set_result queue command_id result) as [found queue'] eqn:Hset.
        intros [= <- <-].
        assert (Hhc : has_channel w _) by (unfold has_channel; rewrite Hch; eauto).
        match goal with |- effect _ _ ?w1 _ =>
          destruct (with_queue_effect w w1 channel queue' eq_refl Hhc)
            as (Hi & Hit & Hoth & Hhas) end.
        apply effect_set_result; try assumption; try reflexivity.
        -- intros ch. destruct (decide (ch = channel)) as [-> | Hne];
             [| apply Hoth; assumption].
           rewrite Hit, (items_lookup _ _ _ Hch).
           unfold CQ.set_result in Hset.
           destruct (_pending queue !! command_id); injection Hset as <- <-;
             reflexivity.
        -- intros _. unfold index. rewrite Hidx. eauto.
      * intros [= <- <-]. destruct w. apply effect_set_result; try reflexivity;
          try tauto. discriminate.
    + intros [= <- <-]. destruct w. apply effect_set_result; try reflexivity;
        try tauto. discriminate.
  - (* wait_for_result *)
    simpl. unfold CCQ.wait_for_result_begin.
    destruct (_command_index (ccq w) !! command_id) as [channel|] eqn:Hidx;
      [| intros [= <- <-]; apply effect_await_key_error].
    destruct (_channels (ccq w) !! channel) as [queue|];
      [| intros [= <- <-]; apply effect_await_key_error].
    destruct (CQ.wait_for_result_begin queue command_id) as [command|];
      [| intros [= <- <-]; apply effect_await_key_error].
    intros [= <- <-]. eapply effect_await_suspend; try reflexivity.
    unfold index. rewrite Hidx. eauto.
  - (* a suspended awaiter goes on, its event being set *)
    simpl. destruct (awaiters w !! i) as [k|] eqn:Hk; [| discriminate].
    unfold wait_for_result_event_set.
    destruct (_channels (ccq w) !! ak_channel k) as [queue|] eqn:Hch;
      [| discriminate].
    destruct (negb (Qle_zero (ak_timeout k)) && is_set queue (ak_event k));
      [| discriminate].
    simpl. intros [= <- <-].
    eapply effect_await_end; try reflexivity; try eassumption;
      try discriminate; unfold items, has_channel; simpl.
    + intros ch. destruct (decide (ak_channel k = ch)) as [<- | Hne].
      * rewrite lookup_insert_eq, Hch. reflexivity.
      * rewrite lookup_insert_ne by assumption. reflexivity.
    + intros ch. destruct (decide (ak_channel k = ch)) as [<- | Hne].
      * rewrite lookup_insert_eq, Hch. split; eauto.
      * rewrite lookup_insert_ne by assumption. reflexivity.
  - (* a suspended awaiter times out *)
    simpl. destruct (awaiters w !! i) as [k|] eqn:Hk; [| discriminate].
    unfold wait_for_result_timed_out.
    destruct (_channels (ccq w) !! ak_channel k) as [queue|] eqn:Hch;
      [| discriminate].
    destruct (remove_command queue (ak_command_id k)) as [removed queue'] eqn:Hrm.
    intros [= <- <-].
    eapply effect_await_end; try reflexivity; try eassumption;
      try discriminate; unfold items, has_channel; simpl.
    + intros ch. destruct (decide (ak_channel k = ch)) as [<- | Hne].
      * rewrite lookup_insert_eq, Hch. unfold remove_command in Hrm.
        destruct (bool_decide _); injection Hrm as <- <-; reflexivity.
      * rewrite lookup_insert_ne by assumption. reflexivity.
    + intros ch. destruct (decide (ak_channel k = ch)) as [<- | Hne].
      * rewrite lookup_insert_eq, Hch. split; eauto.
      * rewrite lookup_insert_ne by assumption. reflexivity.
  - simpl. intros [= <- <-]. apply effect_stats.
Qed.

End Effects.

(** ** Schedules *)

Section Schedules.

Import CQ CCQ Loop.

Lemma run_app w t1 t2 :
  run w (t1 ++ t2) =
    match run w t1 with
    | None => None
    | Some (w1, o1) =>
        match run w1 t2 with
        | None => None
        | Some (w2, o2) => Some (w2, o1 ++ o2)
        end
    end.
Proof.
  revert w. induction t1 as [|a t1 IH]; intros w; simpl.
  - destruct (run w t2) as [[w2 o2]|]; reflexivity.
  - destruct (step w a) as [[w1 o1]|]; [| reflexivity].
    rewrite IH. destruct (run w1 t1) as [[w2 o2]|]; [| reflexivity].
    destruct (run w2 t2) as [[w3 o3]|]; [| reflexivity].
    rewrite app_assoc. reflexivity.
Qed.

Lemma run_snoc w tr a w' log :
  run w (tr ++ [a]) = Some (w', log) ->
  exists w1 log1 obs,
    run w tr = Some (w1, log1) /\ step w1 a = Some (w', obs)
    /\ log = log1 ++ obs.
Proof.
  rewrite run_app. destruct (run w tr) as [[w1 log1]|]; [| discriminate].
  cbn [run]. destruct (step w1 a) as [[w2 obs]|] eqn:Hst; [| discriminate].
  intros [= <- <-]. exists w1, log1, obs. rewrite app_nil_r.
  split; [reflexivity |]. split; [exact Hst | reflexivity].
Qed.

(** Induction along a schedule, one [effect] at a time. *)
Lemma run_ind (P : list Action -> World -> list Obs -> Prop) w0 :
  P [] w0 [] ->
  (forall tr w log a w' obs,
      run w0 tr = Some (w, log) -> P tr w log -> effect w a w' obs ->
      P (tr ++ [a]) w' (log ++ obs)) ->
  forall tr w log, run w0 tr = Some (w, log) -> P tr w log.
Proof.
  intros H0 Hstep tr. induction tr as [|a tr IH] using rev_ind; intros w log.
  - intros [= <- <-]. exact H0.
  - intros Hrun. apply run_snoc in Hrun.
    destruct Hrun as (w1 & log1 & obs & Hrun & Hst & ->).
    eapply Hstep; eauto. apply step_effect. exact Hst.
Qed.

(** Induction along a schedule, one [step] at a time. *)
Lemma run_step_ind (P : list Action -> World -> list Obs -> Prop) w0 :
  P [] w0 [] ->
  (forall tr w log a w' obs,
      run w0 tr = Some (w, log) -> P tr w log -> step w a = Some (w', obs) ->
      P (tr ++ [a]) w' (log ++ obs)) ->
  forall tr w log, run w0 tr = Some (w, log) -> P tr w log.
Proof.
  intros H0 Hstep tr. induction tr as [|a tr IH] using rev_ind; intros w log.
  - intros [= <- <-]. exact H0.
  - intros Hrun. apply run_snoc in Hrun.
    destruct Hrun as (w1 & log1 & obs & Hrun & Hst & ->).
    eapply Hstep; eauto.
Qed.

Lemma uuids_snoc tr a : uuids (tr ++ [a]) = uuids tr ++ uuids [a].
Proof. unfold uuids. apply omap_app. Qed.

Lemma uuids_snoc_none tr a : uuid_of a = None -> uuids (tr ++ [a]) = uuids tr.
Proof.
  intros H. rewrite uuids_snoc. unfold uuids. simpl. rewrite H.
  apply app_nil_r.
Qed.

Lemma added_channels_snoc_none tr a :
  uuid_of a = None -> added_channels (tr ++ [a]) = added_channels tr.
Proof.
  intros H. unfold added_channels. rewrite omap_app. simpl.
  rewrite (uuid_of_channel_of _ H). apply app_nil_r.
Qed.

Lemma NoDup_uuids_snoc tr a : NoDup (uuids (tr ++ [a])) -> NoDup (uuids tr).
Proof. rewrite uuids_snoc. intros H. apply NoDup_app in H. tauto. Qed.

Lemma NoDup_uuids_fresh tr channel tool params uuid4 utcnow :
  NoDup (uuids (tr ++ [AddCommand channel tool params uuid4 utcnow])) ->
  uuid4 ∉ uuids tr.
Proof.
  rewrite uuids_snoc. intros H. apply NoDup_app in H.
  destruct H as (_ & H & _). intros Hin. apply (H _ Hin). simpl. left.
Qed.

(** *** What the log of a poll contains *)

Lemma added_ids_app ch l1 l2 :
  added_ids ch (l1 ++ l2) = added_ids ch l1 ++ added_ids ch l2.
Proof. apply omap_app. Qed.

Lemma dequeued_ids_app ch l1 l2 :
  dequeued_ids ch (l1 ++ l2) = dequeued_ids ch l1 ++ dequeued_ids ch l2.
Proof. unfold dequeued_ids. rewrite omap_app, map_app. reflexivity. Qed.

Lemma delivered_ids_app ch l1 l2 :
  delivered_ids ch (l1 ++ l2) = delivered_ids ch l1 ++ delivered_ids ch l2.
Proof. unfold delivered_ids. rewrite omap_app, map_app. reflexivity. Qed.

Lemma await_returned_app x l1 l2 :
  await_returned x (l1 ++ l2) <-> await_returned x l1 \/ await_returned x l2.
Proof. unfold await_returned. apply Exists_app. Qed.

Lemma poll_obs_added ch' ch out skipped :
  added_ids ch' (poll_obs ch out skipped) = [].
Proof.
  unfold poll_obs, added_ids. rewrite omap_app.
  assert (H : omap (added_id ch') (map (Skipped ch) skipped) = []).
  { induction skipped as [|c sk IH]; simpl; [reflexivity | exact IH]. }
  rewrite H. destruct out as [[c|]|]; reflexivity.
Qed.

Lemma poll_obs_dequeued ch out skipped :
  dequeued_ids ch (poll_obs ch out skipped) = map id (poll_taken out skipped).
Proof.
  unfold poll_obs, poll_taken, dequeued_ids. rewrite omap_app, !map_app.
  f_equal.
  - induction skipped as [|c sk IH]; simpl; [reflexivity |].
    rewrite bool_decide_true by reflexivity. simpl. f_equal. exact IH.
  - destruct out as [[c|]|]; simpl; try reflexivity.
    rewrite bool_decide_true by reflexivity. reflexivity.
Qed.

Lemma poll_obs_dequeued_other ch' ch out skipped :
  ch <> ch' -> dequeued_ids ch' (poll_obs ch out skipped) = [].
Proof.
  intros Hne. unfold poll_obs, dequeued_ids. rewrite omap_app, map_app.
  assert (H : omap (dequeued_command ch') (map (Skipped ch) skipped) = []).
  { induction skipped as [|c sk IH]; simpl; [reflexivity |].
    rewrite bool_decide_false by assumption. exact IH. }
  rewrite H. destruct out as [[c|]|]; simpl; try reflexivity.
  rewrite bool_decide_false by assumption. reflexivity.
Qed.

Lemma poll_obs_not_returned x ch out skipped :
  ~ await_returned x (poll_obs ch out skipped).
Proof.
  unfold await_returned, poll_obs. rewrite Exists_app, !Exists_exists.
  intros [(o & Ho & Hr) | (o & Ho & Hr)].
  - apply list_elem_of_fmap in Ho. destruct Ho as (c & -> & _). discriminate.
  - destruct out as [c|]; [| inversion Ho].
    apply list_elem_of_singleton in Ho. subst o. discriminate.
Qed.

Lemma elem_of_poll_obs o ch out skipped :
  o ∈ poll_obs ch out skipped <->
  (exists c, o = Skipped ch c /\ c ∈ skipped)
  \/ (exists r, o = Polled ch r /\ out = PollReturn r).
Proof.
  unfold poll_obs. rewrite elem_of_app, list_elem_of_fmap. split.
  - intros [(c & -> & Hc) | H]; [left; eauto |].
    destruct out as [r|]; [| inversion H].
    apply list_elem_of_singleton in H. right. eauto.
  - intros [(c & -> & Hc) | (r & -> & ->)]; [left; eauto |].
    right. apply list_elem_of_singleton. reflexivity.
Qed.

(** *** The queue of a channel against the log *)

(** What was added to a channel is what has been taken off its queue,
    followed by what is still queued: commands leave the queue in the
    order they were added.  What has been taken is in the log of the polls
    or held for a poller that has not gone on yet. *)
Lemma run_queue tr w log :
  run boot tr = Some (w, log) ->
  forall ch, exists taken,
    added_ids ch log = taken ++ map id (items w ch)
    /\ taken ≡ₚ dequeued_ids ch log ++ map id (held w ch).
Proof.
  revert tr w log.
  apply (run_ind (fun _ w log => forall ch, exists taken,
    added_ids ch log = taken ++ map id (items w ch)
    /\ taken ≡ₚ dequeued_ids ch log ++ map id (held w ch))).
  - intros ch. exists []. unfold items, held, boot. simpl.
    destruct (decide (py "default" = ch)) as [<- | Hne].
    + rewrite lookup_singleton_eq. split; reflexivity.
    + rewrite lookup_singleton_ne by assumption. split; reflexivity.
  - intros tr w log a w' obs _ IH Heff ch.
    destruct (IH ch) as (taken & Hadd & Hperm).
    rewrite added_ids_app, dequeued_ids_app, Hadd.
    assert (Hquiet : forall w1 : World,
              items w1 ch = items w ch -> held w1 ch = held w ch ->
              added_ids ch obs = [] -> dequeued_ids ch obs = [] ->
              exists taken',
                (taken ++ map id (items w ch)) ++ added_ids ch obs
                = taken' ++ map id (items w1 ch)
                /\ taken' ≡ₚ (dequeued_ids ch log ++ dequeued_ids ch obs)
                            ++ map id (held w1 ch)).
    { intros w1 -> -> -> ->. exists taken. rewrite !app_nil_r. auto. }
    inversion Heff as
      [channel tool params uuid4 utcnow w1 command Hid _ _ Hidx Hit Hoth _ Hpo _
      | a1 channel out skipped from_held from_queue to_held w1 Hu Hpoll Hidx
          Htaken Hit Hheld Hoth Hhoth _ _ _ _
      | command_id result found w1 _ Hit _ Hpo _ _
      | | command_id timeout k w1 Hccq Hpo _ _ _
      | a1 i k result w1 _ _ _ _ Hit _ Hpo _ | ]; subst.
    + destruct (decide (channel = ch)) as [-> | Hne].
      * exists taken. rewrite (held_same _ _ ch Hpo), Hit, map_app.
        unfold added_ids at 1, dequeued_ids at 2. simpl.
        rewrite bool_decide_true by reflexivity.
        rewrite !app_nil_r, <- app_assoc. auto.
      * apply Hquiet; [apply Hoth; congruence | apply held_same, Hpo | |
                        reflexivity].
        unfold added_ids. simpl. rewrite bool_decide_false by assumption.
        reflexivity.
    + destruct (decide (channel = ch)) as [-> | Hne].
      * exists (taken ++ map id from_queue ++ map id to_held).
        rewrite poll_obs_added, poll_obs_dequeued, Htaken, app_nil_r.
        split.
        -- rewrite Hit, !map_app, <- !app_assoc. reflexivity.
        -- assert (Hh : map id (held w' ch) ++ map id from_held
                          ≡ₚ map id (held w ch) ++ map id to_held).
           { rewrite <- !map_app. apply Permutation_map, Hheld. }
           rewrite Hperm, map_app, <- !app_assoc.
           apply Permutation_app_head.
           transitivity ((map id (held w ch) ++ map id to_held)
                         ++ map id from_queue).
           { rewrite <- app_assoc. apply Permutation_app_head.
             apply Permutation_app_comm. }
           rewrite <- Hh, <- app_assoc.
           rewrite (Permutation_app_comm (map id (held w' ch))).
           rewrite <- app_assoc. reflexivity.
      * apply Hquiet; [apply Hoth; congruence | apply Hhoth; congruence | |].
        -- apply poll_obs_added.
        -- apply poll_obs_dequeued_other. assumption.
    + apply Hquiet; [apply Hit | apply held_same, Hpo | |]; reflexivity.
    + apply Hquiet; reflexivity.
    + apply Hquiet; [unfold items; rewrite Hccq; reflexivity
                    | apply held_same, Hpo | |]; reflexivity.
    + apply Hquiet; [apply Hit | apply held_same, Hpo | |]; reflexivity.
    + apply Hquiet; reflexivity.
Qed.

(** A queue only exists for the default channel and for the channels
    commands were added to. *)
Lemma run_channels tr w log :
  run boot tr = Some (w, log) ->
  forall ch, has_channel w ch -> ch = py "default" \/ ch ∈ added_channels tr.
Proof.
  revert tr w log.
  apply (run_ind (fun tr w _ => forall ch,
    has_channel w ch -> ch = py "default" \/ ch ∈ added_channels tr)).
  - intros ch. unfold has_channel, boot. simpl.
    destruct (decide (py "default" = ch)) as [<- | Hne]; [auto |].
    rewrite lookup_singleton_ne by assumption. intros [? ?]; discriminate.
  - intros tr w log a w' obs _ IH Heff ch.
    inversion Heff as
      [channel tool params uuid4 utcnow w1 command _ _ _ _ _ _ Hhas _ _
      | a1 channel out skipped from_held from_queue to_held w1 Hu Hpoll _ _ _
          _ _ _ Hhas _ _ _
      | command_id result found w1 _ _ Hhas _ _ _
      | | command_id timeout k w1 Hccq _ _ _ _
      | a1 i k result w1 Hu _ _ _ _ Hhas _ _ | ]; subst.
    + rewrite Hhas. unfold added_channels. rewrite omap_app. simpl.
      rewrite elem_of_app. intros [-> | H].
      * right. right. apply list_elem_of_singleton. reflexivity.
      * destruct (IH ch H) as [? | ?]; auto.
    + rewrite Hhas, (added_channels_snoc_none _ _ Hu). apply IH.
    + rewrite Hhas, added_channels_snoc_none by reflexivity. apply IH.
    + rewrite added_channels_snoc_none by reflexivity. apply IH.
    + unfold has_channel. rewrite Hccq.
      rewrite added_channels_snoc_none by reflexivity. apply IH.
    + rewrite Hhas, (added_channels_snoc_none _ _ Hu). apply IH.
    + rewrite added_channels_snoc_none by reflexivity. apply IH.
Qed.

(** Every [Added] line of the log comes from an [AddCommand] action. *)
Lemma run_added tr w log :
  run boot tr = Some (w, log) ->
  forall ch x tool params,
    Added ch x tool params ∈ log ->
    exists utcnow, AddCommand ch tool params x utcnow ∈ tr.
Proof.
  revert tr w log.
  apply (run_ind (fun tr _ log => forall ch x tool params,
    Added ch x tool params ∈ log ->
    exists utcnow, AddCommand ch tool params x utcnow ∈ tr)).
  - intros ch x tool params H. inversion H.
  - intros tr w log a w' obs _ IH Heff ch x tool params.
    rewrite elem_of_app. intros [H | H].
    + destruct (IH _ _ _ _ H) as (utcnow & Hin). exists utcnow.
      apply elem_of_app. left. exact Hin.
    + inversion Heff as
        [channel tool1 params1 uuid4 utcnow w1 command
        | a1 channel out skipped from_held from_queue to_held w1
        | command_id result found w1
        | | command_id timeout k w1
        | a1 i k result w1 | ]; subst.
      * apply list_elem_of_singleton in H. injection H as -> -> -> ->.
        exists utcnow. apply elem_of_app. right.
        apply list_elem_of_singleton. reflexivity.
      * apply elem_of_poll_obs in H.
        destruct H as [(c & H & _) | (r & H & _)]; discriminate.
      * apply list_elem_of_singleton in H. discriminate.
      * apply list_elem_of_singleton in H. discriminate.
      * inversion H.
      * apply list_elem_of_singleton in H. discriminate.
      * apply list_elem_of_singleton in H. discriminate.
Qed.

Lemma elem_of_uuids x tr : x ∈ uuids tr <-> exists a, a ∈ tr /\ uuid_of a = Some x.
Proof. unfold uuids. apply list_elem_of_omap. Qed.

Lemma elem_of_added_ids x ch log :
  x ∈ added_ids ch log <-> exists tool params, Added ch x tool params ∈ log.
Proof.
  unfold added_ids. rewrite list_elem_of_omap. split.
  - intros (o & Ho & Hx). destruct o as [ch1 x1 t p| | | | |]; try discriminate.
    simpl in Hx. destruct (bool_decide_reflect (ch1 = ch)); [| discriminate].
    injection Hx as ->. subst. eauto.
  - intros (t & p & H). eexists. split; [exact H |]. simpl.
    rewrite bool_decide_true by reflexivity. reflexivity.
Qed.

Lemma run_added_uuid tr w log :
  run boot tr = Some (w, log) ->
  forall ch x, x ∈ added_ids ch log -> x ∈ uuids tr.
Proof.
  intros Hrun ch x Hx. apply elem_of_added_ids in Hx.
  destruct Hx as (t & p & H).
  destruct (run_added _ _ _ Hrun _ _ _ _ H) as (utcnow & Hin).
  apply elem_of_uuids. eexists. split; [exact Hin | reflexivity].
Qed.

(** Whatever is in the queue of a channel or held for one of its pollers,
    and whatever a poll on that channel took off the queue, was added to
    that very channel. *)
Lemma run_items tr w log :
  run boot tr = Some (w, log) ->
  (forall ch c, c ∈ items w ch \/ c ∈ held w ch ->
                Added ch (id c) (CQ.tool c) (CQ.params c) ∈ log)
  /\ (forall ch c, Polled ch (Some c) ∈ log \/ Skipped ch c ∈ log ->
                   Added ch (id c) (CQ.tool c) (CQ.params c) ∈ log).
Proof.
  revert tr w log.
  apply (run_ind (fun _ w log =>
    (forall ch c, c ∈ items w ch \/ c ∈ held w ch ->
                  Added ch (id c) (CQ.tool c) (CQ.params c) ∈ log)
    /\ (forall ch c, Polled ch (Some c) ∈ log \/ Skipped ch c ∈ log ->
                     Added ch (id c) (CQ.tool c) (CQ.params c) ∈ log))).
  - split.
    + intros ch c. unfold items, held, boot. simpl.
      destruct (decide (py "default" = ch)) as [<- | Hne].
      * rewrite lookup_singleton_eq. simpl. intros [H | H]; inversion H.
      * rewrite lookup_singleton_ne by assumption. intros [H | H]; inversion H.
    + intros ch c [H | H]; inversion H.
  - intros tr w log a w' obs _ [IHq IHp] Heff.
    assert (Hold : forall ch c,
      Polled ch (Some c) ∈ log \/ Skipped ch c ∈ log ->
      Added ch (id c) (CQ.tool c) (CQ.params c) ∈ log ++ obs).
    { intros ch c H. apply elem_of_app. left. apply IHp. exact H. }
    assert (Hsplit : forall ch c,
      (Polled ch (Some c) ∈ obs \/ Skipped ch c ∈ obs ->
       Added ch (id c) (CQ.tool c) (CQ.params c) ∈ log ++ obs) ->
      Polled ch (Some c) ∈ log ++ obs \/ Skipped ch c ∈ log ++ obs ->
      Added ch (id c) (CQ.tool c) (CQ.params c) ∈ log ++ obs).
    { intros ch c Hnew [H | H]; apply elem_of_app in H;
        destruct H as [H | H]; solve [apply Hold; auto | apply Hnew; auto]. }
    assert (Hsame : (forall ch, items w' ch = items w ch) ->
                    pollers w' = pollers w ->
                    forall ch c, c ∈ items w' ch \/ c ∈ held w' ch ->
                      Added ch (id c) (CQ.tool c) (CQ.params c) ∈ log ++ obs).
    { intros Hit Hpo ch c. rewrite Hit, (held_same _ _ ch Hpo). intros H.
      apply elem_of_app. left. apply IHq, H. }
    inversion Heff as
      [channel tool params uuid4 utcnow w1 command Hid Htool Hparams _ Hit Hoth
          _ Hpo _
      | a1 channel out skipped from_held from_queue to_held w1 Hu Hpoll _
          Htaken Hit Hheld Hoth Hhoth _ _ _ _
      | command_id result found w1 _ Hit _ Hpo _ _
      | | command_id timeout k w1 Hccq Hpo _ _ _
      | a1 i k result w1 _ _ _ _ Hit _ Hpo _ | ]; subst.
    + split.
      * intros ch c. rewrite (held_same _ _ ch Hpo).
        destruct (decide (ch = channel)) as [-> | Hne].
        -- rewrite Hit, !elem_of_app. intros [[H | H] | H]; [left; auto | |
                                                              left; auto].
           apply list_elem_of_singleton in H. subst c. right.
           apply list_elem_of_singleton. reflexivity.
        -- rewrite Hoth by assumption. intros H. apply elem_of_app. auto.
      * intros ch c. apply Hsplit.
        intros [H | H]; apply list_elem_of_singleton in H; discriminate.
    + assert (Hfrom : forall c, c ∈ from_held \/ c ∈ held w' channel ->
                c ∈ held w channel \/ c ∈ items w channel).
      { intros c Hc.
        assert (Hin : c ∈ held w' channel ++ from_held)
          by (apply elem_of_app; tauto).
        rewrite Hheld in Hin. apply elem_of_app in Hin as [Hin | Hin];
          [left; exact Hin |].
        right. rewrite Hit, !elem_of_app. auto. }
      assert (Htk : forall c, c ∈ poll_taken out skipped ->
                Added channel (id c) (CQ.tool c) (CQ.params c) ∈ log).
      { intros c Hc. rewrite Htaken in Hc. apply IHq.
        apply elem_of_app in Hc as [Hc | Hc].
        - destruct (Hfrom c) as [H | H]; auto.
        - left. rewrite Hit. apply elem_of_app. auto. }
      split.
      * intros ch c Hc. apply elem_of_app. left. apply IHq.
        destruct (decide (ch = channel)) as [-> | Hne].
        -- destruct Hc as [Hc | Hc].
           ++ left. rewrite Hit, !elem_of_app. auto.
           ++ destruct (Hfrom c) as [H | H]; auto.
        -- rewrite <- Hoth, <- Hhoth by assumption. exact Hc.
      * intros ch c. apply Hsplit. rewrite !elem_of_poll_obs.
        intros [[(c' & H & _) | (r & H & ->)] | [(c' & H & Hc') | (r & H & _)]];
          try discriminate.
        -- injection H as -> <-. apply elem_of_app. left. apply Htk.
           unfold poll_taken. apply elem_of_app. right.
           apply list_elem_of_singleton. reflexivity.
        -- injection H as -> <-. apply elem_of_app. left. apply Htk.
           unfold poll_taken. apply elem_of_app. left. exact Hc'.
    + split; [apply Hsame; assumption |].
      intros ch c. apply Hsplit.
      intros [H | H]; apply list_elem_of_singleton in H; discriminate.
    + split; [apply Hsame; reflexivity |].
      intros ch c. apply Hsplit.
      intros [H | H]; apply list_elem_of_singleton in H; discriminate.
    + split.
      * apply Hsame; [| exact Hpo]. intros ch. unfold items. rewrite Hccq.
        reflexivity.
      * intros ch c. apply Hsplit. intros [H | H]; inversion H.
    + split; [apply Hsame; assumption |].
      intros ch c. apply Hsplit.
      intros [H | H]; apply list_elem_of_singleton in H; discriminate.
    + split; [apply Hsame; reflexivity |].
      intros ch c. apply Hsplit.
      intros [H | H]; apply list_elem_of_singleton in H; discriminate.
Qed.

Lemma await_returned_snoc x log o :
  await_returned x (log ++ [o]) <->
  await_returned x log \/ returned_for x o = true.
Proof.
  rewrite await_returned_app. unfold await_returned at 2.
  rewrite Exists_cons, Exists_nil. tauto.
Qed.


(** With fresh uuids, the index holds exactly the ids that were added and
    for which no [wait_for_result] has come back yet. *)
Lemma run_index tr w log :
  run boot tr = Some (w, log) -> NoDup (uuids tr) ->
  (forall x, is_Some (index w !! x) <->
             x ∈ uuids tr /\ ~ await_returned x log)
  /\ (forall k, k ∈ awaiters w -> ak_command_id k ∈ uuids tr)
  /\ (forall x, await_returned x log -> x ∈ uuids tr).
Proof.
  revert tr w log.
  apply (run_ind (fun tr w log => NoDup (uuids tr) ->
    (forall x, is_Some (index w !! x) <->
               x ∈ uuids tr /\ ~ await_returned x log)
    /\ (forall k, k ∈ awaiters w -> ak_command_id k ∈ uuids tr)
    /\ (forall x, await_returned x log -> x ∈ uuids tr))).
  - intros _. split; [| split].
    + intros x. unfold index, boot. simpl. rewrite lookup_empty. split.
      * intros [? ?]; discriminate.
      * intros [H _]. inversion H.
    + intros k H. inversion H.
    + intros x H. inversion H.
  - intros tr w log a w' obs _ IH Heff Hnd.
    destruct (IH (NoDup_uuids_snoc _ _ Hnd)) as (IHi & IHa & IHr).
    inversion Heff as
      [channel tool params uuid4 utcnow w1 command _ _ _ Hidx _ _ _ _ Haw
      | a1 channel out skipped from_held from_queue to_held w1 Hu Hpoll Hidx _
          _ _ _ _ _ Haw _ _
      | command_id result found w1 Hidx _ _ _ Haw _
      | | command_id timeout k w1 Hccq _ Haw Hk Hin
      | a1 i k result w1 Hu Hk Hres Hidx _ _ _ Haw | ]; subst.
    + pose proof (NoDup_uuids_fresh _ _ _ _ _ _ Hnd) as Hfresh.
      assert (Hret : forall x, await_returned x (log ++
                [Added channel uuid4 tool params])
                <-> await_returned x log).
      { intros x. rewrite await_returned_snoc. simpl. split; [| auto].
        intros [H | H]; [exact H | discriminate]. }
      rewrite uuids_snoc. simpl. split; [| split].
      * intros x. rewrite Hidx, Hret, elem_of_app, list_elem_of_singleton.
        destruct (decide (uuid4 = x)) as [<- | Hne].
        -- rewrite lookup_insert_eq. split; [| eauto].
           intros _. split; [auto |]. intros H. apply Hfresh, IHr, H.
        -- rewrite lookup_insert_ne by assumption. rewrite IHi.
           split; [tauto |]. intros [[H | H] Hn]; [tauto | congruence].
      * intros k. rewrite Haw. intros H. apply elem_of_app. left. auto.
      * intros x. rewrite Hret. intros H. apply elem_of_app. left. auto.
    + rewrite (uuids_snoc_none _ _ Hu).
      assert (Hret : forall x, await_returned x (log ++ poll_obs channel out skipped)
                <-> await_returned x log).
      { intros x. rewrite await_returned_app. split; [| auto].
        intros [H | H]; [exact H |]. exfalso. eapply poll_obs_not_returned, H. }
      split; [| split].
      * intros x. rewrite Hidx, Hret. apply IHi.
      * intros k. rewrite Haw. apply IHa.
      * intros x. rewrite Hret. apply IHr.
    + rewrite uuids_snoc_none by reflexivity.
      assert (Hret : forall x, await_returned x (log ++
                [Completed command_id result found]) <-> await_returned x log).
      { intros x. rewrite await_returned_snoc. simpl. split; [| auto].
        intros [H | H]; [exact H | discriminate]. }
      split; [| split].
      * intros x. rewrite Hidx, Hret. apply IHi.
      * intros k. rewrite Haw. apply IHa.
      * intros x. rewrite Hret. apply IHr.
    + rewrite uuids_snoc_none by reflexivity.
      assert (Hret : forall x, await_returned x (log ++
                [Awaited command_id (inl KeyError)]) <-> await_returned x log).
      { intros x. rewrite await_returned_snoc. simpl. split; [| auto].
        intros [H | H]; [exact H | discriminate]. }
      split; [| split].
      * intros x. rewrite Hret. apply IHi.
      * apply IHa.
      * intros x. rewrite Hret. apply IHr.
    + rewrite uuids_snoc_none by reflexivity. rewrite app_nil_r.
      split; [| split].
      * intros x. unfold index. rewrite Hccq. apply IHi.
      * intros k0. rewrite Haw, elem_of_app, list_elem_of_singleton.
        intros [H | ->]; [auto |]. apply IHi. exact Hin.
      * apply IHr.
    + rewrite (uuids_snoc_none _ _ Hu).
      assert (Hkin : ak_command_id k ∈ uuids tr).
      { apply IHa. eapply list_elem_of_lookup_2. exact Hk. }
      assert (Hrf : forall x, returned_for x (Awaited (ak_command_id k) result)
                              = bool_decide (ak_command_id k = x)).
      { intros x. destruct result as [[|]|r]; try reflexivity. congruence. }
      split; [| split].
      * intros x. rewrite Hidx, await_returned_snoc, Hrf.
        destruct (decide (ak_command_id k = x)) as [<- | Hne].
        -- rewrite lookup_delete_eq. split; [intros [? ?]; discriminate |].
           intros [_ H]. exfalso. apply H. right.
           apply bool_decide_eq_true. reflexivity.
        -- rewrite lookup_delete_ne by assumption. rewrite IHi.
           rewrite bool_decide_false by assumption.
           split; intros [H1 H2]; (split; [exact H1 |]); intros H; apply H2;
             [destruct H as [H | H]; [exact H | discriminate] | auto].
      * intros k0. rewrite Haw. intros H. apply IHa.
        eapply list_elem_of_delete_inv; eauto.
      * intros x. rewrite await_returned_snoc, Hrf.
        intros [H | H]; [auto |]. apply bool_decide_eq_true in H.
        subst x. exact Hkin.
    + rewrite uuids_snoc_none by reflexivity.
      assert (Hret : forall x, await_returned x (log ++
                [Stats (get_stats (ccq w'))]) <-> await_returned x log).
      { intros x. rewrite await_returned_snoc. simpl. split; [| auto].
        intros [H | H]; [exact H | discriminate]. }
      split; [| split].
      * intros x. rewrite Hret. apply IHi.
      * apply IHa.
      * intros x. rewrite Hret. apply IHr.
Qed.

Lemma app_eq_middle {A} (l obs l1 l2 : list A) e :
  l ++ obs = l1 ++ e :: l2 ->
  (exists l2a, l = l1 ++ e :: l2a /\ l2 = l2a ++ obs)
  \/ (exists o1, obs = o1 ++ e :: l2 /\ l1 = l ++ o1).
Proof.
  revert l1. induction l as [|a l IH]; intros l1; simpl.
  - intros ->. right. exists l1. auto.
  - destruct l1 as [|b l1]; simpl.
    + intros [= -> <-]. left. exists l. auto.
    + intros [= -> H]. destruct (IH _ H) as [(l2a & -> & ->) | (o1 & -> & ->)].
      * left. exists l2a. auto.
      * right. exists o1. auto.
Qed.

Lemma returned_in_log x r log l1 l2 :
  r <> inl KeyError -> log = l1 ++ Awaited x r :: l2 -> await_returned x log.
Proof.
  intros Hr ->. apply await_returned_app. right. apply Exists_cons. left.
  destruct r as [[|]|]; simpl; try congruence;
    apply bool_decide_eq_true; reflexivity.
Qed.

Lemma effect_awaited_last w a w' obs o1 x r l2 :
  effect w a w' obs -> obs = o1 ++ Awaited x r :: l2 -> l2 = [].
Proof.
  intros Heff Hobs.
  destruct Heff;
    try (destruct o1 as [|? [|? ?]]; simpl in Hobs; congruence).
  exfalso.
  assert (Hin : Awaited x r ∈ poll_obs channel out skipped).
  { rewrite Hobs. apply elem_of_app. right. left. }
  apply elem_of_poll_obs in Hin.
  destruct Hin as [(c' & H' & _) | (r' & H' & _)]; discriminate.
Qed.

(** Once a [wait_for_result] for [x] has come back, [x] is never delivered
    and never completed again. *)
Lemma run_after_return tr w log :
  run boot tr = Some (w, log) -> NoDup (uuids tr) ->
  forall l1 l2 x r,
    r <> inl KeyError -> log = l1 ++ Awaited x r :: l2 ->
    (forall ch c, Polled ch (Some c) ∈ l2 -> id c <> x)
    /\ (forall result found, Completed x result found ∈ l2 -> found = false).
Proof.
  revert tr w log.
  apply (run_ind (fun tr w log => NoDup (uuids tr) ->
    forall l1 l2 x r,
      r <> inl KeyError -> log = l1 ++ Awaited x r :: l2 ->
      (forall ch c, Polled ch (Some c) ∈ l2 -> id c <> x)
      /\ (forall result found, Completed x result found ∈ l2 -> found = false))).
  - intros _ l1 l2 x r _ H. destruct l1; discriminate.
  - intros tr w log a w' obs Hrun IH Heff Hnd l1 l2 x r Hr Hlog.
    pose proof (NoDup_uuids_snoc _ _ Hnd) as Hnd'.
    destruct (app_eq_middle _ _ _ _ _ Hlog)
      as [(l2a & Hlog' & ->) | (o1 & Hobs & _)].
    + destruct (IH Hnd' _ _ _ _ Hr Hlog') as [IHp IHc].
      assert (Hx : ~ is_Some (index w !! x)).
      { destruct (run_index _ _ _ Hrun Hnd') as (Hi & _ & _).
        rewrite Hi. intros [_ H]. apply H.
        eapply returned_in_log; eassumption. }
      split.
      * intros ch c. rewrite elem_of_app. intros [H | H]; [eauto |].
        inversion Heff as
          [channel tool params uuid4 utcnow w1 command
          | a1 channel out skipped from_held from_queue to_held w1 Hu Hpoll _ _
              _ _ _ _ _ _ _ Hout
          | command_id result found w1
          | | command_id timeout k w1
          | a1 i k result w1 | ]; subst;
          try (apply list_elem_of_singleton in H; discriminate);
          try (inversion H; fail).
        apply elem_of_poll_obs in H.
        destruct H as [(c' & H & _) | (r' & H & ->)]; [discriminate |].
        injection H as -> <-. intros <-. apply Hx. apply Hout. reflexivity.
      * intros result found. rewrite elem_of_app. intros [H | H]; [eauto |].
        inversion Heff as
          [channel tool params uuid4 utcnow w1 command
          | a1 channel out skipped from_held from_queue to_held w1
          | command_id result1 found1 w1 _ _ _ _ _ Hfound
          | | command_id timeout k w1
          | a1 i k result1 w1 | ]; subst;
          try (apply list_elem_of_singleton in H; discriminate);
          try (inversion H; fail).
        -- apply elem_of_poll_obs in H.
           destruct H as [(c' & H & _) | (r' & H & _)]; discriminate.
        -- apply list_elem_of_singleton in H. injection H as -> -> ->.
           destruct found1; [| reflexivity]. exfalso. apply Hx. auto.
    + assert (Hl2 : l2 = []) by (eapply effect_awaited_last; eassumption).
      subst l2. split; intros; match goal with H : _ ∈ [] |- _ => inversion H end.
Qed.

End Schedules.

(** ** Channel isolation, cancellation, unknown channels *)

Section ChannelClaims.

Import CQ CCQ Loop.

Lemma NoDup_omap_inj {A B} (f : A -> option B) (l : list A) a b x :
  NoDup (omap f l) -> a ∈ l -> b ∈ l -> f a = Some x -> f b = Some x -> a = b.
Proof.
  induction l as [|c l IH]; intros Hnd Ha Hb Hfa Hfb; [inversion Ha |].
  simpl in Hnd. apply elem_of_cons in Ha, Hb.
  assert (Hin : forall d, d ∈ l -> f d = Some x -> x ∈ omap f l).
  { intros d Hd Hfd. apply list_elem_of_omap. eauto. }
  destruct Ha as [-> | Ha], Hb as [-> | Hb].
  - reflexivity.
  - rewrite Hfa in Hnd. apply NoDup_cons in Hnd. destruct Hnd as [Hn _].
    exfalso. apply Hn. eauto.
  - rewrite Hfb in Hnd. apply NoDup_cons in Hnd. destruct Hnd as [Hn _].
    exfalso. apply Hn. eauto.
  - apply IH; try assumption.
    destruct (f c); [apply NoDup_cons in Hnd; tauto | exact Hnd].
Qed.

(** C1: whatever a poll on channel [A] returns was added to [A] by an
    [add_command(A, tool, params)] with that tool and those parameters, and
    its id was returned by no [add_command] on another channel ([uuid4]
    not repeating itself). *)
Theorem channel_isolation tr w log A command :
  run boot tr = Some (w, log) ->
  NoDup (uuids tr) ->
  Polled A (Some command) ∈ log ->
  Added A (id command) (tool command) (params command) ∈ log
  /\ forall B tool params,
      B <> A -> Added B (id command) tool params ∉ log.
Proof.
  intros Hrun Hnd Hpolled.
  assert (HA : Added A (id command) (tool command) (params command) ∈ log).
  { apply (run_items _ _ _ Hrun). left. exact Hpolled. }
  split; [exact HA |].
  intros B tool params Hne HB.
  destruct (run_added _ _ _ Hrun _ _ _ _ HA) as (nowA & HinA).
  destruct (run_added _ _ _ Hrun _ _ _ _ HB) as (nowB & HinB).
  pose proof (NoDup_omap_inj uuid_of tr _ _ (id command) Hnd HinA HinB
                eq_refl eq_refl) as Heq.
  injection Heq as <- _ _ _. congruence.
Qed.

Lemma channel_isolation_witness :
  match run boot Scenario.two_channels with
  | Some (w, log) =>
      exists command,
        Polled Scenario.alpha (Some command) ∈ log
        /\ id command = Scenario.u1
        /\ Added Scenario.alpha (id command) (tool command) (params command) ∈ log
        /\ forall B tool params,
            B <> Scenario.alpha -> Added B (id command) tool params ∉ log
  | None => False
  end.
Proof.
  destruct (run boot Scenario.two_channels) as [[w log]|] eqn:Hrun;
    [| vm_compute in Hrun; discriminate].
  pose proof Hrun as Hlog. vm_compute in Hlog. injection Hlog as _ Hlog.
  assert (Hnd : NoDup (uuids Scenario.two_channels)).
  { apply (bool_decide_unpack _). vm_compute. exact I. }
  eexists. split; [| split].
  - rewrite <- Hlog. do 2 apply list_elem_of_further. apply list_elem_of_here.
  - reflexivity.
  - apply (channel_isolation _ _ _ _ _ Hrun Hnd).
    rewrite <- Hlog. do 2 apply list_elem_of_further. apply list_elem_of_here.
Defined.

(** C2: once [wait_for_result(x, T)] has raised [TimeoutError], no later
    poll returns [x] -- a poll that takes [x] off a queue skips it -- and
    every later [set_result(x, _)] returns false. *)
Theorem cancellation_after_timeout tr w log l1 l2 x :
  run boot tr = Some (w, log) ->
  NoDup (uuids tr) ->
  log = l1 ++ Awaited x (inl TimeoutError) :: l2 ->
  (forall ch command, Polled ch (Some command) ∈ l2 -> id command <> x)
  /\ (forall ch command o,
        o ∈ l2 -> dequeued_command ch o = Some command -> id command = x ->
        o = Skipped ch command)
  /\ (forall result found, Completed x result found ∈ l2 -> found = false).
Proof.
  intros Hrun Hnd Hlog.
  assert (Hr : @inl Error Any TimeoutError <> inl KeyError) by discriminate.
  destruct (run_after_return _ _ _ Hrun Hnd _ _ _ _ Hr Hlog) as [Hp Hc].
  split; [exact Hp |]. split; [| exact Hc].
  intros ch command o Ho Hdq Hid.
  destruct o as [| ch1 c1 | ch1 [c1|] | | |]; try discriminate; simpl in Hdq;
    destruct (bool_decide_reflect (ch1 = ch)); try discriminate;
    injection Hdq as ->; subst ch1.
  - reflexivity.
  - exfalso. exact (Hp _ _ Ho Hid).
Qed.

Lemma cancellation_after_timeout_witness :
  match run boot Scenario.submitter_timeout with
  | Some (w, log) =>
      exists l1 l2 command,
        log = l1 ++ Awaited Scenario.u1 (inl TimeoutError) :: l2
        /\ Completed Scenario.u1 (PyInt 42) false ∈ l2
        /\ Skipped Scenario.alpha command ∈ l2
        /\ id command = Scenario.u1
        /\ (forall ch command,
              Polled ch (Some command) ∈ l2 -> id command <> Scenario.u1)
        /\ (forall result found,
              Completed Scenario.u1 result found ∈ l2 -> found = false)
  | None => False
  end.
Proof.
  destruct (run boot Scenario.submitter_timeout) as [[w log]|] eqn:Hrun;
    [| vm_compute in Hrun; discriminate].
  pose proof Hrun as Hlog. vm_compute in Hlog. injection Hlog as _ Hlog.
  assert (Hnd : NoDup (uuids Scenario.submitter_timeout)).
  { apply (bool_decide_unpack _). vm_compute. exact I. }
  subst log.
  match type of Hrun with
  | _ = Some (_, ?a :: Awaited ?x ?r :: ?rest) =>
      exists [a], rest; eexists;
      split; [reflexivity |];
      split; [apply list_elem_of_here |];
      split; [apply list_elem_of_further, list_elem_of_here |];
      split; [reflexivity |];
      destruct (cancellation_after_timeout _ _ _ [a] rest Scenario.u1
                  Hrun Hnd eq_refl) as (Hp & _ & Hc)
  end.
  split; [exact Hp | exact Hc].
Defined.

(** The cleanup scenario: after the awaiter of the only command timed out
    and a poll skipped the command, the index is empty and [get_stats()]
    reports nothing pending. *)
Example submitter_timeout_cleanup :
  match run boot Scenario.submitter_timeout with
  | Some (w, log) =>
      index w = ∅ /\ CCQ.get_stats (ccq w) = ∅
      /\ items w Scenario.alpha = []
  | None => False
  end.
Proof. vm_compute. repeat split; reflexivity. Qed.

(** C6: for a channel [C] other than "default" to which no command was
    ever added, a poll returns [None] at once and changes nothing -- no
    queue exists for [C] before or after -- and [get_stats()] has no entry
    for [C]. *)
Theorem unknown_channel_not_materialized tr w log C timeout clock :
  run boot tr = Some (w, log) ->
  C <> py "default" ->
  C ∉ added_channels tr ->
  CCQ.get_next_command (ccq w) clock C timeout
    = Some (PollReturn None, None, ccq w, [])
  /\ step w (GetNextCommand C timeout clock) = Some (w, [Polled C None])
  /\ _channels (ccq w) !! C = None
  /\ CCQ.get_stats (ccq w) !! C = None.
Proof.
  intros Hrun Hdef Hadd.
  assert (Hno : _channels (ccq w) !! C = None).
  { destruct (_channels (ccq w) !! C) as [q|] eqn:Hq; [| reflexivity].
    exfalso. destruct (run_channels _ _ _ Hrun C) as [H | H]; auto.
    unfold has_channel. rewrite Hq. eauto. }
  assert (Hget : CCQ.get_next_command (ccq w) clock C timeout
                 = Some (PollReturn None, None, ccq w, [])).
  { unfold CCQ.get_next_command. rewrite Hno. reflexivity. }
  split; [exact Hget |]. split; [| split; [exact Hno |]].
  - unfold step. rewrite Hget. destruct w; reflexivity.
  - unfold CCQ.get_stats. apply map_lookup_filter_None. left.
    rewrite lookup_fmap, Hno. reflexivity.
Qed.

Lemma unknown_channel_not_materialized_witness :
  match run boot Scenario.two_channels with
  | Some (w, log) =>
      step w (GetNextCommand (py "neverseen") (Some 5%Q) Scenario.seconds)
        = Some (w, [Polled (py "neverseen") None])
      /\ _channels (ccq w) !! py "neverseen" = None
      /\ CCQ.get_stats (ccq w) !! py "neverseen" = None
  | None => False
  end.
Proof.
  destruct (run boot Scenario.two_channels) as [[w log]|] eqn:Hrun;
    [| vm_compute in Hrun; discriminate].
  destruct (unknown_channel_not_materialized _ _ _ (py "neverseen")
              (Some 5%Q) Scenario.seconds Hrun) as (_ & H1 & H2 & H3).
  - vm_compute. discriminate.
  - apply (bool_decide_unpack _). vm_compute. exact I.
  - split; [exact H1 |]. split; [exact H2 | exact H3].
Defined.

End ChannelClaims.

(** ** FIFO delivery *)

Section Fifo.

Import CQ CCQ Loop.

(** *** A poll that does not wait *)


(** Without a deadline and with a timeout that does not wait, the loop
    skips the cancelled commands at the head of the queue and returns the
    first one that is in the index. *)
Lemma poll_loop_delivers before : forall fuel clock tick idx timeout queue
    command rest,
  _queue queue = before ++ command :: rest ->
  Forall (fun c => idx !! id c = None) before ->
  is_Some (idx !! id command) ->
  waits timeout = false ->
  length before < fuel ->
  exists queue',
    poll_loop fuel clock tick idx None timeout queue
    = Some (PollReturn (Some command), queue', before)
    /\ _queue queue' = rest.
Proof.
  induction before as [|c before IH];
    intros fuel clock tick idx timeout queue command rest
           Hq Hbefore Hcommand Hw Hfuel;
    (destruct fuel as [|fuel]; [simpl in Hfuel; lia |]);
    cbn [poll_loop]; unfold poll_turn;
    rewrite (get_next_command_now _ _ Hw), Hq; cbn [head app].
  - rewrite bool_decide_eq_true_2 by exact Hcommand.
    exists (CQ.dequeued queue). split; [reflexivity |].
    simpl. rewrite Hq. reflexivity.
  - inversion Hbefore as [|? ? Hc Hbefore']; subst.
    rewrite bool_decide_eq_false_2
      by (rewrite Hc; intros [? ?]; discriminate).
    destruct (IH fuel clock tick idx timeout (CQ.dequeued queue) command rest)
      as (queue' & -> & Hq'); try assumption.
    + simpl. rewrite Hq. reflexivity.
    + simpl in Hfuel. lia.
    + exists queue'. split; [reflexivity | exact Hq'].
Qed.


(** *** A poll that waits *)









(** *** Skipped commands *)


(** The ids the log shows as added are the uuids of the schedule. *)
Lemma run_added_any tr w log :
  run boot tr = Some (w, log) -> omap added_any log = uuids tr.
Proof.
  revert tr w log.
  apply (run_ind (fun tr _ log => omap added_any log = uuids tr)).
  - reflexivity.
  - intros tr w log a w' obs _ IH Heff. rewrite omap_app, IH.
    destruct Heff as
      [channel tool params uuid4 utcnow w1 command
      | a1 channel out skipped from_held from_queue to_held w1 Hu
      | command_id result found w1
      | | command_id timeout k w1
      | a1 i k result w1 Hu | ].
    + rewrite uuids_snoc. reflexivity.
    + rewrite (uuids_snoc_none _ _ Hu).
      assert (Hobs : omap added_any (poll_obs channel out skipped) = []).
      { unfold poll_obs. rewrite omap_app.
        assert (Hsk : omap added_any (map (Skipped channel) skipped) = []).
        { clear. induction skipped as [|c sk IH]; simpl; [reflexivity | exact IH]. }
        rewrite Hsk. destruct out as [[c|]|]; reflexivity. }
      rewrite Hobs. apply app_nil_r.
    + rewrite uuids_snoc_none by reflexivity. apply app_nil_r.
    + rewrite uuids_snoc_none by reflexivity. apply app_nil_r.
    + rewrite uuids_snoc_none by reflexivity. apply app_nil_r.
    + rewrite (uuids_snoc_none _ _ Hu). apply app_nil_r.
    + rewrite uuids_snoc_none by reflexivity. apply app_nil_r.
Qed.

Lemma added_ids_sublist ch log : added_ids ch log `sublist_of` omap added_any log.
Proof.
  induction log as [|o log IH]; simpl; [constructor |].
  unfold added_ids. simpl.
  destruct o as [ch1 x t p| | | | |]; simpl; try exact IH.
  destruct (bool_decide (ch1 = ch)); [apply sublist_skip | apply sublist_cons];
    exact IH.
Qed.

Lemma run_added_NoDup tr w log ch :
  run boot tr = Some (w, log) -> NoDup (uuids tr) -> NoDup (added_ids ch log).
Proof.
  intros Hrun Hnd. eapply sublist_NoDup; [| apply added_ids_sublist].
  rewrite (run_added_any _ _ _ Hrun). exact Hnd.
Qed.


Lemma dequeued_ids_cons C o log :
  dequeued_ids C (o :: log) =
    match dequeued_command C o with
    | Some c => id c :: dequeued_ids C log
    | None => dequeued_ids C log
    end.
Proof. unfold dequeued_ids. simpl. destruct (dequeued_command C o); reflexivity. Qed.

Lemma delivered_ids_cons C o log :
  delivered_ids C (o :: log) =
    match delivered_command C o with
    | Some c => id c :: delivered_ids C log
    | None => delivered_ids C log
    end.
Proof. unfold delivered_ids. simpl. destruct (delivered_command C o); reflexivity. Qed.





(** The first element of a list with a decidable property. *)
Lemma first_such {A} (P : A -> Prop) `{forall a, Decision (P a)} (l : list A) x :
  x ∈ l -> P x ->
  exists before c rest,
    l = before ++ c :: rest /\ Forall (fun a => ~ P a) before /\ P c
    /\ (x = c \/ x ∈ rest).
Proof.
  induction l as [|a l IH]; intros Hin HP; [inversion Hin |].
  destruct (decide (P a)) as [Ha | Ha].
  - exists [], a, l. split; [reflexivity |]. split; [constructor |].
    split; [exact Ha |]. apply elem_of_cons in Hin. exact Hin.
  - apply elem_of_cons in Hin. destruct Hin as [-> | Hin]; [contradiction |].
    destruct (IH Hin HP) as (before & c & rest & -> & Hb & Hc & Hx).
    exists (a :: before), c, rest. split; [reflexivity |].
    split; [constructor; assumption |]. auto.
Qed.

(** *** Polls that do not overlap *)











(** Nor does C5 hold of polls that overlap, when [asyncio.wait_for] runs
    [Queue.get()] in a task of its own: the first poll is given the first
    command, and before it goes on with it a second poll returns the
    second command. *)
Example fifo_fails_for_overlapping_polls :
  match run boot Scenario.overlapping_polls with
  | Some (w, log) =>
      added_ids Scenario.alpha log = [Scenario.u1; Scenario.u2]
      /\ delivered_ids Scenario.alpha log = [Scenario.u2; Scenario.u1]
      /\ (forall x, ~ await_returned x log)
      /\ polls_in_turn Scenario.alpha boot Scenario.overlapping_polls = false
  | None => False
  end.
Proof.
  vm_compute. split; [reflexivity |]. split; [reflexivity |].
  split; [| reflexivity].
  intros x H. apply Exists_exists in H as (o & Ho & Hr).
  repeat (apply elem_of_cons in Ho as [-> | Ho]; [discriminate |]).
  inversion Ho.
Qed.



End Fifo.
(** ** Session channel immutability *)

Section SessionClaims.

Import Registry Middleware System.

Lemma utf8_decode_nil bs : utf8_decode bs = Some [] -> bs = [].
Proof.
  destruct bs as [|b0 r0]; [reflexivity |]. simpl.
  destruct (b0 <? 128)%N.
  { destruct (utf8_decode r0); discriminate. }
  destruct ((194 <=? b0) && (b0 <=? 223))%N.
  { destruct r0 as [|b1 r1]; [discriminate |].
    destruct (utf8_cont b1); [| discriminate].
    destruct (utf8_decode r1); discriminate. }
  destruct ((224 <=? b0) && (b0 <=? 239))%N.
  { destruct r0 as [|b1 [|b2 r2]]; try discriminate.
    match goal with |- context [if ?c then _ else _] => destruct c end;
      [| discriminate].
    destruct (utf8_decode r2); discriminate. }
  destruct ((240 <=? b0) && (b0 <=? 244))%N; [| discriminate].
  destruct r0 as [|b1 [|b2 [|b3 r3]]]; try discriminate.
  match goal with |- context [if ?c then _ else _] => destruct c end;
    [| discriminate].
  destruct (utf8_decode r3); discriminate.
Qed.

Lemma hex_of_length digits n : length (hex_of digits n) = digits.
Proof.
  revert n. induction digits as [|k IH]; intros n; [reflexivity |].
  cbn [hex_of]. rewrite length_app, IH. simpl. lia.
Qed.

Lemma UUID_hex_not_empty u : UUID_hex u <> [].
Proof.
  intros H. apply (f_equal length) in H. unfold UUID_hex in H.
  rewrite hex_of_length in H. discriminate.
Qed.

(** The empty string is never bound to a channel. *)
Lemma registry_reachable_nonempty parse_qs reg :
  registry_reachable parse_qs reg -> _sessions reg !! [] = None.
Proof.
  induction 1 as [| reg is_new effective message reg' _ IH Hsend
                  | reg self qs uuid4 writer channel self' reg' _ IH Hconn
                  | reg self session_id _ IH].
  - apply lookup_empty.
  - unfold send_wrapper in Hsend.
    destruct (bool_decide _ && is_new); [| congruence].
    destruct (_ !! py "mcp-session-id") as [bs|]; [| congruence].
    destruct (truthy bs) eqn:Hbs; [| congruence].
    destruct (utf8_decode bs) as [sid|] eqn:Hdec; [| discriminate].
    injection Hsend as <-. unfold register. simpl.
    rewrite lookup_insert_ne; [exact IH |].
    intros ->. apply utf8_decode_nil in Hdec. subst bs. discriminate.
  - unfold Sse.connect_sse_enter in Hconn.
    destruct (utf8_decode _); [| discriminate].
    destruct (raw_channel_of _); [| discriminate].
    injection Hconn as _ _ <-. unfold register. simpl.
    rewrite lookup_insert_ne; [exact IH | apply UUID_hex_not_empty].
  - simpl. unfold unregister. destruct (has_session reg _); [| exact IH].
    simpl. destruct (decide (UUID_hex session_id = [])) as [-> | Hne].
    + apply lookup_delete_eq.
    + rewrite lookup_delete_ne by assumption. exact IH.
Qed.

(** C7: a request that carries, in [mcp-session-id], a session id the
    registry has bound gets the bound channel as its effective channel,
    whatever its query string says, and its [send_wrapper] never touches
    the registry.  The only way out is an exception before the channel is
    computed (a query string that is not UTF-8). *)
Theorem session_channel_immutable parse_qs reg scope S stored :
  registry_reachable parse_qs reg ->
  type scope = py "http" ->
  request_session_id scope = Some S ->
  _sessions reg !! S = Some stored ->
  match call parse_qs reg scope with
  | Some (Wrapped scope' is_new_session effective_channel) =>
      channel scope' = Some stored
      /\ effective_channel = stored
      /\ get_channel reg S = stored
      /\ forall message reg', send_wrapper is_new_session effective_channel
                                message reg' = Some reg'
  | Some Untouched => False
  | None =>
      match utf8_decode (default [] (query_string scope)) with
      | None => True
      | Some query_string => raw_channel_of (parse_qs query_string) = None
      end
  end.
Proof.
  intros Hreach Htype Hsid Hbound.
  assert (HS : truthy S = true).
  { destruct S; [| reflexivity].
    rewrite (registry_reachable_nonempty _ _ Hreach) in Hbound. discriminate. }
  unfold call. rewrite Htype. rewrite bool_decide_true by reflexivity.
  cbn [negb].
  destruct (utf8_decode (default [] (query_string scope))) as [qs|]; [| exact I].
  destruct (raw_channel_of (parse_qs qs)) as [raw|]; [| reflexivity].
  rewrite Hsid, HS. unfold has_session, get_channel. rewrite Hbound.
  rewrite bool_decide_true by eauto. simpl.
  repeat split. intros message reg'. unfold send_wrapper.
  rewrite andb_false_r. reflexivity.
Qed.

Lemma session_channel_immutable_witness :
  match call Scenario.parse_qs_two Scenario.bound_registry Scenario.continued with
  | Some (Wrapped scope' is_new_session effective_channel) =>
      channel scope' = Some (py "one")
      /\ effective_channel = py "one"
      /\ get_channel Scenario.bound_registry Scenario.session_S = py "one"
      /\ forall message reg', send_wrapper is_new_session effective_channel
                                message reg' = Some reg'
  | Some Untouched => False
  | None =>
      match utf8_decode (default [] (query_string Scenario.continued)) with
      | None => True
      | Some query_string =>
          raw_channel_of (Scenario.parse_qs_two query_string) = None
      end
  end.
Proof.
  apply (session_channel_immutable Scenario.parse_qs_two
           Scenario.bound_registry Scenario.continued
           Scenario.session_S (py "one")).
  - apply (reach_send_wrapper _ Registry.init true (py "one") Scenario.minted).
    + apply reach_init.
    + vm_compute. reflexivity.
  - reflexivity.
  - reflexivity.
  - vm_compute. reflexivity.
Defined.

(** The scenario of the specification: the session was minted on channel
    "one"; the next request asks for [channel=two] and still gets "one". *)
Example session_immutability_scenario :
  send_wrapper true (py "one") Scenario.minted Registry.init
  = Some Scenario.bound_registry
  /\ call Scenario.parse_qs_two Scenario.bound_registry Scenario.continued
     = Some (Wrapped
               {| type := py "http"; query_string := Some (py "channel=two");
                  headers := [(py "mcp-session-id", Scenario.session_S)];
                  channel := Some (py "one") |}
               false (py "one")).
Proof. split; vm_compute; reflexivity. Qed.

End SessionClaims.

(** ** The legacy SSE back-channel *)

Section SseClaims.

Import Sse.

(** C9, as stated, fails for a session id that is not the hex form of a
    UUID: it is the id of no session, known or unknown, and the answer is
    400 "Invalid session ID", not 404. *)
Lemma handle_post_message_unknown_malformed :
  (forall session_id, UUID_hex session_id <> py "zzz")
  /\ Scenario.uuid_of_hex (py "zzz") = None
  /\ handle_post_message Scenario.uuid_of_hex unit unit Scenario.reject
       Scenario.sse_transport Registry.init (Scenario.post (Some (py "zzz")))
     = (None, [Respond _ _ 400 (py "Invalid session ID")]).
Proof.
  split; [| split; reflexivity].
  intros session_id H. apply (f_equal length) in H.
  unfold UUID_hex in H. rewrite hex_of_length in H. discriminate.
Qed.



(** A session id that is not a UUID is a bad request, not an unknown
    session. *)
Lemma handle_post_message_invalid_session_id
    (UUID_of_hex : str -> option N) (JSONRPCMessage ValidationError : Type)
    (model_validate_json : bytes -> ValidationError + JSONRPCMessage)
    (self : Transport) (reg : Registry.ChannelRegistry) (request : Request)
    session_id_param :
  query_params request !! py "session_id" = Some session_id_param ->
  UUID_of_hex session_id_param = None ->
  handle_post_message UUID_of_hex JSONRPCMessage ValidationError
    model_validate_json self reg request
  = (None, [Respond _ _ 400 (py "Invalid session ID")]).
Proof. unfold handle_post_message. intros -> ->. reflexivity. Qed.

(** A body that validates is answered 202 and forwarded. *)
Lemma handle_post_message_accepted
    (UUID_of_hex : str -> option N) (JSONRPCMessage ValidationError : Type)
    (model_validate_json : bytes -> ValidationError + JSONRPCMessage)
    (self : Transport) (reg : Registry.ChannelRegistry) (request : Request)
    session_id_param session_id writer message :
  query_params request !! py "session_id" = Some session_id_param ->
  UUID_of_hex session_id_param = Some session_id ->
  _read_stream_writers self !! session_id = Some writer ->
  model_validate_json (body request) = inr message ->
  handle_post_message UUID_of_hex JSONRPCMessage ValidationError
    model_validate_json self reg request
  = (Some (Registry.get_channel reg (UUID_hex session_id)),
     [Respond _ _ 202 (py "Accepted");
      WriterSend _ _ writer
        (inr {| message := message; request_context := request |})]).
Proof. unfold handle_post_message. intros -> -> -> ->. reflexivity. Qed.

End SseClaims.

(** ** The result endpoint *)

Section ResultClaims.

Import Server.

Lemma meta_fold_lookup result keys : forall (rd0 : gmap str Any) key,
  foldl (pass_through result) rd0 keys !! key
  = if bool_decide (key ∈ keys) && is_not_None (getattr result key)
    then Some (getattr result key) else rd0 !! key.
Proof.
  induction keys as [|k keys IH]; intros rd0 key; [reflexivity |].
  cbn [foldl]. rewrite IH. unfold pass_through.
  destruct (decide (key = k)) as [-> | Hne].
  - rewrite (bool_decide_true (k ∈ k :: keys)) by left.
    destruct (is_not_None (getattr result k)) eqn:Hk.
    + rewrite andb_true_r. rewrite lookup_insert_eq.
      destruct (bool_decide (k ∈ keys)); reflexivity.
    + rewrite andb_false_r. reflexivity.
  - assert (Hin : bool_decide (key ∈ k :: keys) = bool_decide (key ∈ keys)).
    { apply bool_decide_ext. rewrite elem_of_cons. tauto. }
    rewrite Hin.
    destruct (bool_decide (key ∈ keys) && is_not_None (getattr result key));
      [reflexivity |].
    destruct (is_not_None (getattr result k)); [| reflexivity].
    apply lookup_insert_ne. congruence.
Qed.

Lemma result_data_lookup result key :
  result_data result !! key
  = if bool_decide (key ∈ optional_meta_fields)
       && is_not_None (getattr result key)
    then Some (getattr result key)
    else if bool_decide (key = py "schema") then
      if success result && is_not_None (schema result)
      then Some (schema result) else None
    else if bool_decide (key = py "error") then
      Some (of_optional PyStr (error result))
    else if bool_decide (key = py "data") then Some (data result)
    else if bool_decide (key = py "success") then
      Some (PyBool (success result))
    else None.
Proof.
  unfold result_data.
  rewrite meta_fold_lookup.
  destruct (bool_decide (key ∈ optional_meta_fields)
            && is_not_None (getattr result key)); [reflexivity |].
  assert (Hbase : (<[py "error" := of_optional PyStr (error result)]>
                     (<[py "data" := data result]>
                        (<[py "success" := PyBool (success result)]> ∅))
                   : gmap str Any) !! key
                  = if bool_decide (key = py "error") then
                      Some (of_optional PyStr (error result))
                    else if bool_decide (key = py "data") then Some (data result)
                    else if bool_decide (key = py "success") then
                      Some (PyBool (success result))
                    else None).
  { repeat (case_bool_decide;
            [subst key;
             repeat (rewrite lookup_insert_ne by (vm_compute; discriminate));
             apply lookup_insert_eq
            | rewrite lookup_insert_ne by congruence]).
    apply lookup_empty. }
  destruct (bool_decide_reflect (key = py "schema")) as [-> | Hs].
  - destruct (success result && is_not_None (schema result)).
    + apply lookup_insert_eq.
    + rewrite Hbase. reflexivity.
  - destruct (success result && is_not_None (schema result));
      [rewrite lookup_insert_ne by congruence |]; exact Hbase.
Qed.

Lemma is_not_None_iff v : is_not_None v = true <-> v <> PyNone.
Proof. destruct v; simpl; split; congruence. Qed.

Lemma meta_not_base key :
  key ∈ optional_meta_fields -> key ∉ py "schema" :: base_fields.
Proof.
  assert (H : Forall (fun k => k ∉ py "schema" :: base_fields)
                optional_meta_fields).
  { apply (bool_decide_unpack _). vm_compute. exact I. }
  rewrite Forall_forall in H. apply H.
Qed.

(** What the payload holds, key by key. *)
Lemma result_data_keys result :
  result_data result !! py "success" = Some (PyBool (success result))
  /\ result_data result !! py "data" = Some (data result)
  /\ result_data result !! py "error" = Some (of_optional PyStr (error result))
  /\ (forall key, key ∈ optional_meta_fields ->
        (is_Some (result_data result !! key) <-> getattr result key <> PyNone)
        /\ (getattr result key <> PyNone ->
            result_data result !! key = Some (getattr result key)))
  /\ (is_Some (result_data result !! py "schema") <->
        success result = true /\ schema result <> PyNone)
  /\ (success result = true -> schema result <> PyNone ->
      result_data result !! py "schema" = Some (schema result))
  /\ (forall key, is_Some (result_data result !! key) ->
        key ∈ base_fields ++ py "schema" :: optional_meta_fields).
Proof.
  assert (Hnot : forall key, key ∉ optional_meta_fields ->
            bool_decide (key ∈ optional_meta_fields)
            && is_not_None (getattr result key) = false).
  { intros key H. rewrite bool_decide_false by exact H. reflexivity. }
  assert (Hfixed : forall key, key ∈ py "schema" :: base_fields ->
            key ∉ optional_meta_fields).
  { intros key Hk Hm. exact (meta_not_base key Hm Hk). }
  split; [| split; [| split; [| split; [| split; [| split]]]]].
  - rewrite result_data_lookup, Hnot; [reflexivity |].
    apply Hfixed. vm_compute. do 1 right. left.
  - rewrite result_data_lookup, Hnot; [reflexivity |].
    apply Hfixed. vm_compute. do 2 right. left.
  - rewrite result_data_lookup, Hnot; [reflexivity |].
    apply Hfixed. vm_compute. do 3 right. left.
  - intros key Hkey. rewrite result_data_lookup.
    rewrite (bool_decide_true _ Hkey). cbn [andb].
    pose proof (meta_not_base key Hkey) as Hnb.
    destruct (is_not_None (getattr result key)) eqn:Hv.
    + apply is_not_None_iff in Hv. split; [split; eauto | reflexivity].
    + assert (Hnone : getattr result key = PyNone).
      { destruct (getattr result key); try discriminate. reflexivity. }
      repeat (case_bool_decide;
              [exfalso; apply Hnb; subst key; vm_compute;
               repeat (first [left; reflexivity | right]) |]).
      rewrite Hnone. split; [| congruence].
      split; [intros [? ?]; discriminate | congruence].
  - rewrite result_data_lookup, Hnot;
      [| apply Hfixed; left].
    rewrite bool_decide_true by reflexivity.
    destruct (success result); cbn [andb].
    + destruct (is_not_None (schema result)) eqn:Hs.
      * apply is_not_None_iff in Hs. split; eauto.
      * split; [intros [? ?]; discriminate |].
        intros [_ H]. apply is_not_None_iff in H. congruence.
    + split; [intros [? ?]; discriminate | intros [? _]; discriminate].
  - intros Hsucc Hschema. rewrite result_data_lookup, Hnot;
      [| apply Hfixed; left].
    rewrite bool_decide_true by reflexivity. rewrite Hsucc.
    apply is_not_None_iff in Hschema. rewrite Hschema. reflexivity.
  - intros key. rewrite result_data_lookup.
    destruct (bool_decide_reflect (key ∈ optional_meta_fields)) as [Hm | Hm].
    + intros _. apply elem_of_app. right. right. exact Hm.
    + cbn [andb].
      repeat (case_bool_decide;
              [intros _; subst key; vm_compute;
               repeat (first [left; reflexivity | right]) |]).
      intros [? ?]; discriminate.
Qed.

(** The allow-listed fields one by one: each is in the payload exactly
    when the attribute of the model is not [None], and then with the value
    of the attribute. *)
Lemma result_data_meta result :
  result_data result !! py "truncated" = PyBool <$> truncated result
  /\ result_data result !! py "limit" = PyInt <$> limit result
  /\ result_data result !! py "returned" = PyInt <$> returned result
  /\ result_data result !! py "count" = PyInt <$> count result
  /\ result_data result !! py "offset" = PyInt <$> offset result
  /\ result_data result !! py "has_more" = PyBool <$> has_more result
  /\ result_data result !! py "next_offset" = PyInt <$> next_offset result
  /\ result_data result !! py "configuration"
     = (if is_not_None (configuration result)
        then Some (configuration result) else None)
  /\ result_data result !! py "extension" = PyStr <$> extension result
  /\ result_data result !! py "last_date" = PyStr <$> last_date result
  /\ result_data result !! py "next_same_second_offset"
     = PyInt <$> next_same_second_offset result.
Proof.
  repeat split; rewrite result_data_lookup;
    match goal with
    | |- context [getattr result ?key] =>
        let v := eval cbv in (bool_decide (key ∈ optional_meta_fields)) in
        replace (bool_decide (key ∈ optional_meta_fields)) with v
          by (vm_compute; reflexivity);
        change (getattr result key)
          with (default PyNone (assoc (attributes result) key))
    end.
  all: cbn -[py].
  all: try (match goal with
            | |- context [of_optional _ ?o] => destruct o; reflexivity
            end).
Qed.

Lemma result_data_schema result :
  result_data result !! py "schema"
  = if success result && is_not_None (schema result)
    then Some (schema result) else None.
Proof.
  rewrite result_data_lookup.
  replace (bool_decide (py "schema" ∈ optional_meta_fields)) with false
    by (vm_compute; reflexivity).
  cbn [andb]. rewrite bool_decide_true by reflexivity. reflexivity.
Qed.

(** C8: when the result endpoint accepts a body (answers 200), the body
    was a JSON object that validates as a [CommandResult], and the payload
    stored for the awaiter is built from the validated model alone: it
    holds [success], [data] and [error]; each allow-listed metadata field
    exactly when the model has a value other than [None] for it, and then
    that value; [schema] exactly when [success] is true and [schema] is
    not [None]; and no other key, whatever else the body contained. *)
Theorem receive_result_allow_list
    (request_json : bytes -> Raised + Any)
    (CommandResult_validate : gmap str Any -> option CommandResult)
    (q : CCQ.ChannelCommandQueue) (body : bytes) q' :
  receive_result request_json CommandResult_validate q body
  = (Status 200, q') ->
  exists kwargs result channel queue',
    request_json body = inr (PyDict kwargs)
    /\ CommandResult_validate kwargs = Some result
    /\ CCQ._command_index q !! id result = Some channel
    /\ CCQ._channels q' !! channel = Some queue'
    /\ CQ._results queue' !! id result = Some (PyDict (result_data result))
    /\ result_data result !! py "success" = Some (PyBool (success result))
    /\ result_data result !! py "data" = Some (data result)
    /\ result_data result !! py "error"
       = Some (of_optional PyStr (error result))
    /\ result_data result !! py "truncated" = PyBool <$> truncated result
    /\ result_data result !! py "limit" = PyInt <$> limit result
    /\ result_data result !! py "returned" = PyInt <$> returned result
    /\ result_data result !! py "count" = PyInt <$> count result
    /\ result_data result !! py "offset" = PyInt <$> offset result
    /\ result_data result !! py "has_more" = PyBool <$> has_more result
    /\ result_data result !! py "next_offset" = PyInt <$> next_offset result
    /\ result_data result !! py "configuration"
       = (if is_not_None (configuration result)
          then Some (configuration result) else None)
    /\ result_data result !! py "extension" = PyStr <$> extension result
    /\ result_data result !! py "last_date" = PyStr <$> last_date result
    /\ result_data result !! py "next_same_second_offset"
       = PyInt <$> next_same_second_offset result
    /\ result_data result !! py "schema"
       = (if success result && is_not_None (schema result)
          then Some (schema result) else None)
    /\ (forall key, is_Some (result_data result !! key) ->
          key ∈ base_fields ++ py "schema" :: optional_meta_fields).
Proof.
  unfold receive_result.
  destruct (request_json body) as [[| |]|decoded] eqn:Hjson;
    try discriminate.
  destruct decoded as [| | | | | |kwargs]; try discriminate.
  destruct (CommandResult_validate kwargs) as [result|] eqn:Hval;
    [| discriminate].
  unfold CCQ.set_result.
  destruct (CCQ._command_index q !! id result) as [channel|] eqn:Hidx;
    [| discriminate].
  destruct (CCQ._channels q !! channel) as [queue|] eqn:Hch; [| discriminate].
  unfold CQ.set_result.
  destruct (CQ._pending queue !! id result) as [command|]; [| discriminate].
  intros [= <-].
  exists kwargs, result, channel. eexists.
  split; [reflexivity |]. split; [exact Hval |]. split; [exact Hidx |].
  split; [apply lookup_insert_eq |].
  split; [apply lookup_insert_eq |].
  destruct (result_data_keys result) as (H1 & H2 & H3 & _ & _ & _ & Hkeys).
  split; [exact H1 |]. split; [exact H2 |]. split; [exact H3 |].
  destruct (result_data_meta result)
    as (M1 & M2 & M3 & M4 & M5 & M6 & M7 & M8 & M9 & M10 & M11).
  repeat (split; [assumption |]).
  split; [apply result_data_schema | exact Hkeys].
Qed.

Lemma receive_result_allow_list_witness :
  exists q',
    receive_result Scenario.decoded_body Scenario.validated
      Scenario.one_pending Scenario.result_body = (Status 200, q')
    /\ Scenario.result_kwargs !! py "injected" = Some (PyStr (py "x"))
    /\ exists queue',
        CCQ._channels q' !! Scenario.alpha = Some queue'
        /\ CQ._results queue' !! Scenario.u1
           = Some (PyDict (result_data Scenario.result_u1))
        /\ result_data Scenario.result_u1 !! py "count" = Some (PyInt 1)
        /\ result_data Scenario.result_u1 !! py "truncated"
           = Some (PyBool false)
        /\ result_data Scenario.result_u1 !! py "injected" = None.
Proof.
  eexists. split; [vm_compute; reflexivity |].
  split; [vm_compute; reflexivity |].
  match goal with |- context [CCQ._channels ?q1] =>
    destruct (receive_result_allow_list Scenario.decoded_body
                Scenario.validated Scenario.one_pending Scenario.result_body
                q1)
      as (kwargs & result & channel & queue' & Hjson & Hval & Hidx & Hch
          & Hres & _ & _ & _ & _ & _ & _ & Hcount & _ & _ & _ & _ & _ & _ & _
          & _ & Hkeys)
  end.
  - vm_compute. reflexivity.
  - assert (kwargs = Scenario.result_kwargs) as ->.
    { vm_compute in Hjson. injection Hjson as <-. vm_compute. reflexivity. }
    assert (result = Scenario.result_u1) as ->.
    { vm_compute in Hval. injection Hval as <-. reflexivity. }
    assert (channel = Scenario.alpha) as ->.
    { vm_compute in Hidx. injection Hidx as <-. reflexivity. }
    exists queue'. split; [exact Hch |]. split; [exact Hres |].
    split; [exact Hcount |]. split; [vm_compute; reflexivity |].
    destruct (result_data Scenario.result_u1 !! py "injected") eqn:E;
      [| reflexivity].
    exfalso. assert (Hin := Hkeys (py "injected")). rewrite E in Hin.
    specialize (Hin (ltac:(eauto))).
    revert Hin. apply (bool_decide_unpack _). vm_compute. exact I.
Defined.

(** The payload of the scenario: the two metadata fields that are set, the
    three fixed keys, and no schema. *)
Example result_data_scenario :
  dom (result_data Scenario.result_u1)
  = list_to_set [py "success"; py "data"; py "error"; py "count";
                 py "truncated"].
Proof. vm_compute. reflexivity. Qed.

End ResultClaims.

(** * More of the registry *)

Section RegistryMore.

Import Registry.

Lemma channel_char_not_space c : channel_char c = true -> isspace c = false.
Proof.
  unfold channel_char, isspace. intros H.
  repeat rewrite ?orb_true_iff, ?andb_true_iff, ?N.leb_le, ?N.eqb_eq in H.
  apply not_true_is_false. intros Hs.
  repeat rewrite ?orb_true_iff, ?andb_true_iff, ?N.leb_le, ?N.eqb_eq in Hs.
  lia.
Qed.

Lemma lstrip_id s :
  match s with c :: _ => isspace c = false | [] => True end -> lstrip s = s.
Proof. destruct s as [|c s]; simpl; [reflexivity |]. intros ->. reflexivity. Qed.

(** A string of the grammar has nothing to strip. *)
Lemma grammar_strip s : grammar s -> strip s = s.
Proof.
  intros [Hlen Hall]. unfold strip, rstrip.
  assert (H1 : lstrip s = s).
  { apply lstrip_id. destruct s as [|c s]; [exact I |]. inversion Hall; subst.
    apply channel_char_not_space. assumption. }
  assert (H2 : lstrip (rev s) = rev s).
  { apply lstrip_id. destruct (rev s) as [|c r] eqn:Hr; [exact I |].
    apply channel_char_not_space. rewrite Forall_forall in Hall. apply Hall.
    apply list_elem_of_In. apply in_rev. rewrite Hr. left. reflexivity. }
  rewrite H1, H2. apply rev_involutive.
Qed.

Lemma validate_channel_id_fixed s : grammar s -> validate_channel_id s = s.
Proof.
  intros Hg.
  destruct (validate_channel_id_cases s) as [[Hc _] | [_ Hv]].
  - exfalso. rewrite (grammar_strip s Hg) in Hc.
    destruct Hc as [-> | [[_ Hws] | Hn]].
    + destruct Hg as [Hlen _]. simpl in Hlen. lia.
    + destruct Hg as [Hlen Hall]. destruct s as [|c s]; [simpl in Hlen; lia |].
      inversion Hws; subst. inversion Hall; subst.
      rewrite (channel_char_not_space c) in *; [discriminate | assumption].
    + exact (Hn Hg).
  - rewrite Hv. apply grammar_strip. exact Hg.
Qed.

(** X1: whatever the input, the value [validate_channel_id] returns
    matches the grammar, and validating it again changes nothing. *)
Theorem validate_channel_id_idempotent s :
  grammar (validate_channel_id s)
  /\ validate_channel_id (validate_channel_id s) = validate_channel_id s.
Proof.
  split; [apply validate_channel_id_grammar |].
  apply validate_channel_id_fixed, validate_channel_id_grammar.
Qed.

(** X2: [register] then [get_channel] gives the normalized channel and
    [has_session] holds; [unregister] makes the session unknown again
    ([get_channel] falls back to "default"); neither touches another
    session, and a second [unregister] does nothing. *)
Theorem register_lookup_unregister reg S c :
  get_channel (register reg S c) S = validate_channel_id c
  /\ has_session (register reg S c) S = true
  /\ get_channel (unregister reg S) S = DEFAULT_CHANNEL
  /\ has_session (unregister reg S) S = false
  /\ unregister (unregister reg S) S = unregister reg S
  /\ (forall S', S' <> S ->
        get_channel (register reg S c) S' = get_channel reg S'
        /\ has_session (register reg S c) S' = has_session reg S'
        /\ get_channel (unregister reg S) S' = get_channel reg S'
        /\ has_session (unregister reg S) S' = has_session reg S').
Proof.
  assert (Hun : _sessions (unregister reg S) = delete S (_sessions reg)).
  { unfold unregister, has_session. case_bool_decide as Hs; [reflexivity |].
    symmetry. apply delete_id.
    destruct (_sessions reg !! S) eqn:E; [exfalso; apply Hs; eauto | reflexivity]. }
  assert (Hgone : has_session (unregister reg S) S = false).
  { unfold has_session. rewrite Hun, lookup_delete_eq.
    apply bool_decide_eq_false. intros [? ?]; discriminate. }
  split; [| split; [| split; [| split; [| split]]]].
  - unfold get_channel, register. simpl. rewrite lookup_insert_eq. reflexivity.
  - unfold has_session, register. simpl. rewrite lookup_insert_eq.
    apply bool_decide_eq_true. eauto.
  - unfold get_channel. rewrite Hun, lookup_delete_eq. reflexivity.
  - exact Hgone.
  - unfold unregister at 1. rewrite Hgone. reflexivity.
  - intros S' Hne. unfold get_channel, has_session. rewrite Hun.
    unfold register. simpl.
    rewrite lookup_insert_ne, lookup_delete_ne by congruence. auto.
Qed.

(** Every channel a reachable registry stores was normalized. *)
Lemma registry_reachable_grammar parse_qs reg :
  System.registry_reachable parse_qs reg ->
  forall S channel, _sessions reg !! S = Some channel -> grammar channel.
Proof.
  assert (Hreg : forall reg S0 c,
    (forall S channel, _sessions reg !! S = Some channel -> grammar channel) ->
    forall S channel, _sessions (register reg S0 c) !! S = Some channel ->
                      grammar channel).
  { intros r S0 c IH S channel. unfold register. simpl.
    destruct (decide (S0 = S)) as [-> | Hne].
    - rewrite lookup_insert_eq. intros [= <-]. apply validate_channel_id_grammar.
    - rewrite lookup_insert_ne by assumption. apply IH. }
  induction 1 as [| reg is_new effective message reg' _ IH Hsend
                  | reg self qs uuid4 writer channel0 self' reg' _ IH Hconn
                  | reg self session_id _ IH]; intros S channel.
  - unfold init. simpl. rewrite lookup_empty. discriminate.
  - unfold Middleware.send_wrapper in Hsend.
    destruct (bool_decide _ && is_new); [| injection Hsend as <-; apply IH].
    destruct (_ !! py "mcp-session-id") as [bs|];
      [| injection Hsend as <-; apply IH].
    destruct (truthy bs); [| injection Hsend as <-; apply IH].
    destruct (utf8_decode bs) as [sid|]; [| discriminate].
    injection Hsend as <-. apply Hreg. exact IH.
  - unfold Sse.connect_sse_enter in Hconn.
    destruct (utf8_decode _); [| discriminate].
    destruct (Middleware.raw_channel_of _); [| discriminate].
    injection Hconn as _ _ <-. apply Hreg. exact IH.
  - simpl. unfold unregister. destruct (has_session reg _); [| apply IH].
    simpl. intros H. apply lookup_delete_Some in H. destruct H as [_ H].
    eapply IH. exact H.
Qed.

(** X3: the registry only ever hands out normalized channels: in every
    registry the transports can produce, [get_channel] returns a string of
    the grammar for every session id, bound or not. *)
Theorem get_channel_grammar parse_qs reg S :
  System.registry_reachable parse_qs reg -> grammar (get_channel reg S).
Proof.
  intros Hreach. unfold get_channel.
  destruct (_sessions reg !! S) as [channel|] eqn:E; simpl.
  - eapply registry_reachable_grammar; eassumption.
  - apply (validate_channel_id_grammar []).
Qed.

Lemma get_channel_grammar_witness :
  grammar (get_channel Scenario.bound_registry Scenario.session_S)
  /\ get_channel Scenario.bound_registry Scenario.session_S = py "one".
Proof.
  split.
  - apply (get_channel_grammar Scenario.parse_qs_two).
    apply (System.reach_send_wrapper _ Registry.init true (py "one")
             Scenario.minted).
    + apply System.reach_init.
    + vm_compute. reflexivity.
  - vm_compute. reflexivity.
Defined.

(** The sessions bound to one channel. *)
Lemma sessions_on_insert (m : gmap str str) S channel ch :
  m !! S = None ->
  size (filter (fun kv => kv.2 = ch) (<[S := channel]> m))
  = (if bool_decide (channel = ch) then 1 else 0)
    + size (filter (fun kv : str * str => kv.2 = ch) m).
Proof.
  intros Hnone. case_bool_decide as Hc.
  - rewrite map_filter_insert_True by exact Hc.
    rewrite map_size_insert_None; [reflexivity |].
    apply map_lookup_filter_None. left. exact Hnone.
  - rewrite map_filter_insert_not' ; [reflexivity | exact Hc |].
    intros y Hy. rewrite Hnone in Hy. discriminate.
Qed.

Lemma get_active_channels_lookup reg ch :
  get_active_channels reg !! ch
  = if size (filter (fun kv => kv.2 = ch) (_sessions reg)) =? 0 then None
    else Some (size (filter (fun kv => kv.2 = ch) (_sessions reg))).
Proof.
  unfold get_active_channels. revert ch.
  apply (map_fold_weak_ind
           (fun (stats : gmap str nat) (m : gmap str str) =>
              forall c, stats !! c
                = if size (filter (fun kv => kv.2 = c) m) =? 0 then None
                  else Some (size (filter (fun kv => kv.2 = c) m)))).
  - intros c. rewrite lookup_empty, map_filter_empty, map_size_empty.
    reflexivity.
  - intros S channel m stats Hnone IH c.
    rewrite sessions_on_insert by exact Hnone. unfold count_session.
    destruct (decide (channel = c)) as [-> | Hne].
    + rewrite lookup_insert_eq, bool_decide_true by reflexivity.
      rewrite IH. simpl.
      destruct (size (filter (fun kv => kv.2 = c) m)) as [|k]; simpl;
        [reflexivity | f_equal; lia].
    + rewrite lookup_insert_ne by assumption.
      rewrite bool_decide_false by assumption. simpl. apply IH.
Qed.

(** X4: [get_active_channels] has an entry for a channel exactly when
    some session is bound to it, and the entry is the number of sessions
    bound to it (never zero). *)
Theorem get_active_channels_counts reg ch n :
  get_active_channels reg !! ch = Some n <->
  0 < n /\ n = size (filter (fun kv => kv.2 = ch) (_sessions reg)).
Proof.
  rewrite get_active_channels_lookup.
  destruct (size (filter (fun kv => kv.2 = ch) (_sessions reg))) as [|k];
    simpl.
  - split; [discriminate | lia].
  - split; [intros [= <-]; lia | intros [_ ->]; reflexivity].
Qed.

End RegistryMore.

(** * More of the middleware, the SSE transport and the endpoints *)

Section MiddlewareMore.

Import Registry Middleware System.

Lemma raw_channel_of_cases params :
  raw_channel_of params
  = match params !! py "channel" with
    | Some (raw :: _) => Some raw
    | Some [] => None
    | None => Some DEFAULT_CHANNEL
    end.
Proof.
  unfold raw_channel_of.
  destruct (params !! py "channel") as [[|? ?]|]; reflexivity.
Qed.

(** X5: every HTTP request handed on by the middleware carries a
    normalized channel in its scope: either the channel its bound session
    was registered with, or the normalized [channel] query parameter
    ("default" when the parameter is missing); and it counts as a new
    session exactly when it has no [mcp-session-id] header. *)
Theorem effective_channel_normalized parse_qs reg scope scope' is_new eff :
  registry_reachable parse_qs reg ->
  call parse_qs reg scope = Some (Wrapped scope' is_new eff) ->
  grammar eff
  /\ channel scope' = Some eff
  /\ (is_new = true <-> request_session_id scope = None)
  /\ exists query_string params,
      utf8_decode (default [] (Middleware.query_string scope))
      = Some query_string
      /\ params = parse_qs query_string
      /\ ((exists S, request_session_id scope = Some S
                     /\ _sessions reg !! S = Some eff)
          \/ (forall S, request_session_id scope = Some S ->
                        _sessions reg !! S = None)
             /\ match params !! py "channel" with
                | Some (raw :: _) => eff = validate_channel_id raw
                | Some [] => False
                | None => eff = DEFAULT_CHANNEL
                end).
Proof.
  intros Hreach. unfold call.
  destruct (negb (bool_decide (type scope = py "http"))); [discriminate |].
  destruct (utf8_decode (default [] (Middleware.query_string scope)))
    as [qs|]; [| discriminate].
  rewrite raw_channel_of_cases.
  assert (Hunbound : forall S,
    truthy S && has_session reg S = false -> _sessions reg !! S = None).
  { intros S Hb. apply andb_false_iff in Hb. destruct Hb as [Hb | Hb].
    - destruct S; [| discriminate].
      eapply registry_reachable_nonempty; eassumption.
    - unfold has_session in Hb. apply bool_decide_eq_false in Hb.
      destruct (_sessions reg !! S); [exfalso; apply Hb; eauto | reflexivity]. }
  assert (Hbound : forall S,
    truthy S && has_session reg S = true ->
    _sessions reg !! S = Some (get_channel reg S)).
  { intros S Hb. apply andb_true_iff in Hb. destruct Hb as [_ Hb].
    unfold has_session in Hb. apply bool_decide_eq_true in Hb.
    destruct Hb as [c Hc]. unfold get_channel. rewrite Hc. reflexivity. }
  destruct (parse_qs qs !! py "channel") as [[|raw rest]|] eqn:Hp;
    [discriminate | |];
    (destruct (request_session_id scope) as [S|] eqn:HS;
     [destruct (truthy S && has_session reg S) eqn:Hb |]);
    intros [= <- <- <-];
    (split; [| split; [reflexivity | split; [split; congruence |]]]);
    try (eapply registry_reachable_grammar; [eassumption | apply Hbound, Hb]);
    try apply validate_channel_id_grammar;
    exists qs, (parse_qs qs); rewrite Hp;
    (split; [reflexivity | split; [reflexivity |]]).
  - left. exists S. split; [reflexivity | apply Hbound, Hb].
  - right. split; [| reflexivity]. intros S' [= <-]. apply Hunbound, Hb.
  - right. split; [discriminate | reflexivity].
  - left. exists S. split; [reflexivity | apply Hbound, Hb].
  - right. split; [| apply (validate_channel_id_fixed DEFAULT_CHANNEL),
                       (validate_channel_id_grammar [])].
    intros S' [= <-]. apply Hunbound, Hb.
  - right. split; [discriminate |].
    apply (validate_channel_id_fixed DEFAULT_CHANNEL),
          (validate_channel_id_grammar []).
Qed.

Lemma effective_channel_normalized_witness :
  exists scope',
    call Scenario.parse_qs_two Registry.init
      {| type := py "http"; query_string := Some (py "channel=two");
         headers := []; channel := None |}
    = Some (Wrapped scope' true (py "two"))
    /\ grammar (py "two") /\ channel scope' = Some (py "two").
Proof.
  eexists. split; [vm_compute; reflexivity |].
  match goal with |- grammar _ /\ channel ?s = _ =>
    destruct (effective_channel_normalized Scenario.parse_qs_two Registry.init
                {| type := py "http"; query_string := Some (py "channel=two");
                   headers := []; channel := None |} s true (py "two"))
      as (Hg & Hc & _)
  end.
  - apply reach_init.
  - vm_compute. reflexivity.
  - split; assumption.
Defined.




End MiddlewareMore.

Section SseMore.

Import Registry Sse.

Variable parse_qs : str -> gmap str (list str).
Variable UUID_of_hex : str -> option N.
Variables JSONRPCMessage ValidationError : Type.
Variable model_validate_json : bytes -> ValidationError + JSONRPCMessage.

Let handle := handle_post_message UUID_of_hex JSONRPCMessage ValidationError
                model_validate_json.

(** X7: a POST is answered exactly once, before anything else happens,
    and sends at most one item, to the writer registered for the session
    its own [session_id] names and to no other; it is answered 202
    exactly when that session is known and the body validates. *)
Theorem handle_post_message_own_writer self reg request :
  exists status_code content rest,
    (handle self reg request).2 = Respond _ _ status_code content :: rest
    /\ (rest = []
        \/ exists writer item session_id_param session_id,
            rest = [WriterSend _ _ writer item]
            /\ query_params request !! py "session_id" = Some session_id_param
            /\ UUID_of_hex session_id_param = Some session_id
            /\ _read_stream_writers self !! session_id = Some writer)
    /\ (status_code = 202 <->
        exists session_id_param session_id writer message,
          query_params request !! py "session_id" = Some session_id_param
          /\ UUID_of_hex session_id_param = Some session_id
          /\ _read_stream_writers self !! session_id = Some writer
          /\ model_validate_json (body request) = inr message).
Proof.
  unfold handle, handle_post_message.
  destruct (query_params request !! py "session_id") as [sid|] eqn:Hq.
  2: { do 3 eexists. split; [reflexivity |]. split; [left; reflexivity |].
       split; [discriminate |]. intros (? & ? & ? & ? & H & _). discriminate. }
  destruct (UUID_of_hex sid) as [u|] eqn:Hu.
  2: { do 3 eexists. split; [reflexivity |]. split; [left; reflexivity |].
       split; [discriminate |].
       intros (? & ? & ? & ? & [= <-] & H & _). congruence. }
  destruct (_read_stream_writers self !! u) as [writer|] eqn:Hw.
  2: { do 3 eexists. split; [reflexivity |]. split; [left; reflexivity |].
       split; [discriminate |].
       intros (? & ? & ? & ? & [= <-] & H1 & H2 & _). congruence. }
  destruct (model_validate_json (body request)) as [err|message] eqn:Hv.
  - do 3 eexists. split; [reflexivity |]. split.
    + right. exists writer, (inl err), sid, u. auto.
    + split; [discriminate |].
      intros (? & ? & ? & ? & _ & _ & _ & H). discriminate.
  - do 3 eexists. split; [reflexivity |]. split.
    + right. do 2 eexists. exists sid, u. auto.
    + split; [| reflexivity]. intros _. exists sid, u, writer, message. auto.
Qed.

(** X8: the life of a legacy SSE session.  Once [connect_sse] has
    registered the session, a POST that names it with a valid body is
    answered 202, forwarded to the writer of that session, and runs on the
    normalized channel of the GET; after the connection is closed the
    same POST is answered 404 and the session is unbound. *)
Theorem sse_session_flow self reg query_string uuid4 writer channel self' reg'
    request message :
  connect_sse_enter parse_qs self reg query_string uuid4 writer
  = Some (channel, self', reg') ->
  UUID_of_hex (UUID_hex uuid4) = Some uuid4 ->
  query_params request !! py "session_id" = Some (UUID_hex uuid4) ->
  model_validate_json (body request) = inr message ->
  grammar channel
  /\ get_channel reg' (UUID_hex uuid4) = channel
  /\ handle self' reg' request
     = (Some channel,
        [Respond _ _ 202 (py "Accepted");
         WriterSend _ _ writer
           (inr {| message := message; request_context := request |})])
  /\ handle (connect_sse_exit self' reg' uuid4).1
            (connect_sse_exit self' reg' uuid4).2 request
     = (None, [Respond _ _ 404 (py "Could not find session")])
  /\ has_session (connect_sse_exit self' reg' uuid4).2 (UUID_hex uuid4) = false.
Proof.
  intros Hconn Hhex Hq Hv. unfold connect_sse_enter in Hconn.
  destruct (utf8_decode (default [] query_string)) as [qs|]; [| discriminate].
  destruct (Middleware.raw_channel_of (parse_qs qs)) as [raw|]; [| discriminate].
  injection Hconn as <- <- <-.
  assert (Hg : grammar (validate_channel_id raw))
    by apply validate_channel_id_grammar.
  assert (Hget : get_channel (register reg (UUID_hex uuid4)
                                (validate_channel_id raw)) (UUID_hex uuid4)
                 = validate_channel_id raw).
  { unfold get_channel, register. simpl. rewrite lookup_insert_eq. simpl.
    apply validate_channel_id_fixed, Hg. }
  split; [exact Hg |]. split; [exact Hget |]. split; [| split].
  - unfold handle, handle_post_message. rewrite Hq, Hhex. simpl.
    rewrite lookup_insert_eq, Hv. rewrite Hget. reflexivity.
  - unfold handle, handle_post_message. rewrite Hq, Hhex. simpl.
    rewrite lookup_delete_eq. reflexivity.
  - simpl. unfold unregister, has_session at 2. simpl.
    rewrite lookup_insert_eq. rewrite bool_decide_eq_true_2 by eauto.
    unfold has_session. simpl. rewrite lookup_delete_eq.
    apply bool_decide_eq_false. intros [? ?]; discriminate.
Qed.

End SseMore.

Lemma sse_session_flow_witness :
  exists self' reg',
    Sse.connect_sse_enter Scenario.parse_qs_demo Scenario.sse_transport
      Registry.init (Some (py "channel=one")) 8 5
    = Some (py "one", self', reg')
    /\ Sse.handle_post_message Scenario.uuid_of_hex unit unit (fun _ => inr tt)
         self' reg' (Scenario.post (Some (UUID_hex 8)))
       = (Some (py "one"),
          [Sse.Respond _ _ 202 (py "Accepted");
           Sse.WriterSend _ _ 5
             (inr {| Sse.message := tt;
                     Sse.request_context := Scenario.post (Some (UUID_hex 8)) |})]).
Proof.
  eexists _, _. split; [vm_compute; reflexivity |].
  eapply (sse_session_flow Scenario.parse_qs_demo Scenario.uuid_of_hex unit
            unit (fun _ => inr tt) Scenario.sse_transport Registry.init
            (Some (py "channel=one")) 8 5 (py "one") _ _
            (Scenario.post (Some (UUID_hex 8))) tt);
    vm_compute; reflexivity.
Defined.

Section ServerMore.

Import Server.

Lemma CCQ_set_result_rejected q command_id result :
  (CCQ.set_result q command_id result).1 = false ->
  (CCQ.set_result q command_id result).2 = q.
Proof.
  unfold CCQ.set_result.
  destruct (CCQ._command_index q !! command_id) as [channel|]; [| reflexivity].
  destruct (CCQ._channels q !! channel) as [queue|] eqn:Hch; [| reflexivity].
  unfold CQ.set_result.
  destruct (CQ._pending queue !! command_id); simpl; [discriminate |].
  intros _. unfold CCQ.with_queue. destruct q as [channels idx]. simpl in *.
  f_equal. apply insert_id. exact Hch.
Qed.


(** The two bodies that end the handler with an exception: bytes that are
    not text, and a JSON array. *)
Example receive_result_uncaught :
  receive_result Scenario.decoded_body Scenario.validated
    Scenario.one_pending [255%N]
  = (Uncaught UnicodeDecodeError, Scenario.one_pending)
  /\ receive_result Scenario.decoded_body Scenario.validated
       Scenario.one_pending (py "[]")
     = (Uncaught TypeError, Scenario.one_pending).
Proof. split; vm_compute; reflexivity. Qed.

End ServerMore.

Section HealthMore.

Import Server.

Lemma sum_values_insert (m : gmap str nat) k v :
  m !! k = None -> sum_values (<[k := v]> m) = v + sum_values m.
Proof.
  intros Hnone. unfold sum_values.
  apply (map_fold_insert_L (fun _ count total => count + total));
    [intros; lia | exact Hnone].
Qed.

Lemma sum_values_update (m : gmap str nat) k v :
  sum_values (<[k := v]> m) + default 0 (m !! k) = v + sum_values m.
Proof.
  destruct (m !! k) as [v0|] eqn:Hk; simpl.
  - rewrite <- (insert_delete_eq m k v).
    rewrite <- (insert_delete_id m k v0 Hk) at 2.
    rewrite !sum_values_insert by apply lookup_delete_eq. lia.
  - rewrite sum_values_insert by exact Hk. lia.
Qed.

Lemma sum_values_positive (m : gmap str nat) :
  sum_values (filter (fun kv => 0 < kv.2) m) = sum_values m.
Proof.
  induction m as [|k v m Hnone IH] using map_ind.
  - rewrite map_filter_empty. reflexivity.
  - rewrite sum_values_insert by exact Hnone.
    destruct v as [|v].
    + rewrite map_filter_insert_not'; [exact IH | simpl; lia |].
      intros y Hy. rewrite Hnone in Hy. discriminate.
    + rewrite map_filter_insert_True by (simpl; lia).
      rewrite sum_values_insert; [rewrite IH; reflexivity |].
      apply map_lookup_filter_None. left. exact Hnone.
Qed.

Lemma sum_values_zero (m : gmap str nat) :
  sum_values m = 0 <-> forall k v, m !! k = Some v -> v = 0.
Proof.
  induction m as [|k v m Hnone IH] using map_ind.
  - split; [intros _ k v H; rewrite lookup_empty in H; discriminate |].
    reflexivity.
  - rewrite sum_values_insert by exact Hnone. split.
    + intros Hsum k' v' Hk'. destruct (decide (k' = k)) as [-> | Hne].
      * rewrite lookup_insert_eq in Hk'. injection Hk' as <-. lia.
      * rewrite lookup_insert_ne in Hk' by congruence.
        apply (proj1 IH ltac:(lia) k' v' Hk').
    + intros Hall. rewrite (Hall k v) by apply lookup_insert_eq.
      simpl. apply IH. intros k' v' Hk'. apply (Hall k' v').
      rewrite lookup_insert_ne; [exact Hk' |]. intros ->. congruence.
Qed.

Lemma sum_get_active_channels reg :
  sum_values (Registry.get_active_channels reg)
  = size (Registry._sessions reg).
Proof.
  unfold Registry.get_active_channels.
  apply (map_fold_weak_ind
           (fun (stats : gmap str nat) (m : gmap str str) =>
              sum_values stats = size m)).
  - reflexivity.
  - intros S channel m stats Hnone IH.
    rewrite map_size_insert_None by exact Hnone.
    unfold Registry.count_session.
    pose proof (sum_values_update stats channel
                  (default 0 (stats !! channel) + 1)). lia.
Qed.

(** X10: the numbers of the health endpoint agree with the state they
    summarise.  [active_sessions_count] is the number of sessions the
    registry holds; [pending_commands] is the number of pending commands
    over all channel queues; [pending_channels_count] is the number of
    channels listed by [get_stats], which is at most
    [active_channels_count]; and no command is pending exactly when no
    channel is counted as pending. *)
Theorem health_check_consistent include_channel_details q reg :
  let h := health_check include_channel_details q reg in
  active_sessions_count h = size (Registry._sessions reg)
  /\ pending_commands h
     = sum_values (CQ.get_pending_count <$> CCQ._channels q)
  /\ pending_channels_count h = size (CCQ.get_stats q)
  /\ pending_channels_count h <= active_channels_count h
  /\ (pending_commands h = 0 <-> pending_channels_count h = 0).
Proof.
  cbv zeta. unfold health_check. simpl.
  assert (Hidem : filter (fun kv : str * nat => 0 < kv.2) (CCQ.get_stats q)
                  = CCQ.get_stats q).
  { apply map_filter_id. intros k v Hkv. unfold CCQ.get_stats in Hkv.
    apply map_lookup_filter_Some in Hkv. apply Hkv. }
  rewrite Hidem.
  split; [apply sum_get_active_channels |].
  split; [apply sum_values_positive |].
  split; [reflexivity |]. split.
  - unfold CCQ.get_active_channels_count, CCQ.get_stats.
    etransitivity; [apply map_subseteq_size, map_filter_subseteq |].
    rewrite map_size_fmap. reflexivity.
  - rewrite sum_values_zero. rewrite map_size_empty_iff. split.
    + intros Hall. apply map_empty. intros k.
      destruct (CCQ.get_stats q !! k) as [v|] eqn:Hk; [| reflexivity].
      pose proof (Hall k v Hk) as ->. unfold CCQ.get_stats in Hk.
      apply map_lookup_filter_Some in Hk. simpl in Hk. lia.
    + intros -> k v Hk. rewrite lookup_empty in Hk. discriminate.
Qed.

End HealthMore.

Section QueueMore.

Import CQ CCQ Loop.

Lemma delivered_sublist_dequeued C log :
  delivered_ids C log `sublist_of` dequeued_ids C log.
Proof.
  induction log as [|o log IH]; [reflexivity |].
  rewrite dequeued_ids_cons, delivered_ids_cons.
  destruct o as [| ch c | ch [c|] | | |]; simpl; try exact IH.
  - case_bool_decide; [apply sublist_cons |]; exact IH.
  - case_bool_decide; [apply sublist_skip |]; exact IH.
Qed.

Lemma dequeued_was_added tr w log C x :
  run boot tr = Some (w, log) -> x ∈ dequeued_ids C log ->
  x ∈ added_ids C log.
Proof.
  intros Hrun Hx. destruct (run_queue _ _ _ Hrun C) as (taken & -> & Hperm).
  apply elem_of_app. left. rewrite Hperm. apply elem_of_app. left. exact Hx.
Qed.

Lemma added_one_channel tr w log B C x :
  run boot tr = Some (w, log) -> NoDup (uuids tr) ->
  x ∈ added_ids B log -> x ∈ added_ids C log -> B = C.
Proof.
  intros Hrun Hnd HB HC.
  apply elem_of_added_ids in HB as (tB & pB & HB).
  apply elem_of_added_ids in HC as (tC & pC & HC).
  rewrite <- (run_added_any _ _ _ Hrun) in Hnd.
  pose proof (NoDup_omap_inj added_any log _ _ x Hnd HB HC eq_refl eq_refl)
    as Heq.
  congruence.
Qed.

(** X11: at-most-once delivery.  With [uuid4] values that do not repeat,
    no command id is returned by two polls, on the same channel or on two
    different ones; and a command that a poll returned was added to that
    channel and is no longer in any queue. *)
Theorem delivery_at_most_once tr w log C :
  run boot tr = Some (w, log) ->
  NoDup (uuids tr) ->
  NoDup (delivered_ids C log)
  /\ forall x, x ∈ delivered_ids C log ->
       x ∈ added_ids C log
       /\ (forall B, B <> C -> x ∉ delivered_ids B log)
       /\ (forall B, x ∉ map id (items w B)).
Proof.
  intros Hrun Hnd.
  assert (Htaken : forall B,
            NoDup (dequeued_ids B log)
            /\ forall y, y ∈ dequeued_ids B log -> y ∉ map id (items w B)).
  { intros B. pose proof (run_added_NoDup _ _ _ B Hrun Hnd) as HndB.
    destruct (run_queue _ _ _ Hrun B) as (taken & Hadd & Hperm).
    rewrite Hadd in HndB. apply NoDup_app in HndB as (Hnt & Hdisj & _).
    rewrite Hperm in Hnt. apply NoDup_app in Hnt as (Hnq & _).
    split; [exact Hnq |]. intros y Hy. apply Hdisj. rewrite Hperm.
    apply elem_of_app. left. exact Hy. }
  assert (Hdeq : forall B y, y ∈ delivered_ids B log -> y ∈ dequeued_ids B log).
  { intros B y Hy. eapply elem_of_submseteq; [exact Hy |].
    apply sublist_submseteq, delivered_sublist_dequeued. }
  split.
  - eapply sublist_NoDup; [| apply delivered_sublist_dequeued].
    apply Htaken.
  - intros x Hx. pose proof (Hdeq _ _ Hx) as Hxq.
    pose proof (dequeued_was_added _ _ _ _ _ Hrun Hxq) as Hxa.
    split; [exact Hxa |]. split.
    + intros B HB HxB. apply HB.
      eapply added_one_channel; eauto.
      eapply dequeued_was_added; eauto.
    + intros B HxB.
      assert (B = C) as ->.
      { eapply added_one_channel; eauto.
        destruct (run_queue _ _ _ Hrun B) as (taken & -> & _).
        apply elem_of_app. right. exact HxB. }
      exact (proj2 (Htaken C) x Hxq HxB).
Qed.

Lemma delivery_at_most_once_witness :
  match run boot Scenario.two_channels with
  | Some (w, log) =>
      NoDup (delivered_ids Scenario.alpha log)
      /\ forall x, x ∈ delivered_ids Scenario.alpha log ->
           x ∈ added_ids Scenario.alpha log
           /\ (forall B, B <> Scenario.alpha -> x ∉ delivered_ids B log)
           /\ (forall B, x ∉ map id (items w B))
  | None => False
  end.
Proof.
  destruct (run boot Scenario.two_channels) as [[w log]|] eqn:Hrun;
    [| vm_compute in Hrun; discriminate].
  apply (delivery_at_most_once Scenario.two_channels w log Scenario.alpha Hrun).
  apply (bool_decide_unpack _). vm_compute. exact I.
Defined.

(** The loop without a deadline, with a timeout that does not wait, on a
    queue whose commands are all cancelled: everything is skipped, and the
    loop ends on the empty queue. *)
Lemma poll_loop_drains all : forall fuel clock tick idx timeout queue,
  _queue queue = all ->
  Forall (fun c => idx !! id c = None) all ->
  waits timeout = false ->
  length all < fuel ->
  exists queue',
    poll_loop fuel clock tick idx None timeout queue
    = Some (PollReturn None, queue', all)
    /\ _queue queue' = [].
Proof.
  induction all as [|c all IH];
    intros fuel clock tick idx timeout queue Hq Hall Hw Hfuel;
    (destruct fuel as [|fuel]; [simpl in Hfuel; lia |]);
    cbn [poll_loop]; unfold poll_turn;
    rewrite (get_next_command_now _ _ Hw), Hq; cbn [head].
  - exists (CQ.dequeued queue). split; [reflexivity |].
    simpl. rewrite Hq. reflexivity.
  - inversion Hall as [|? ? Hc Hall']; subst.
    rewrite bool_decide_eq_false_2
      by (rewrite Hc; intros [? ?]; discriminate).
    destruct (IH fuel clock tick idx timeout (CQ.dequeued queue))
      as (queue' & -> & Hq'); try assumption.
    + simpl. rewrite Hq. reflexivity.
    + simpl in Hfuel. lia.
    + exists queue'. split; [reflexivity | exact Hq'].
Qed.

Lemma Qtruthy_zero t : (t == 0)%Q -> Qtruthy t = false /\ Qle_zero t = true.
Proof.
  intros Ht. unfold Qtruthy, Qle_zero. split.
  - apply negb_false_iff, Qeq_bool_iff. exact Ht.
  - apply Qle_bool_iff. rewrite Ht. apply Qle_refl.
Qed.

(** The loop without a deadline, when [CommandQueue.get_next_command]
    cannot wait: it ends on the first command that is in the index, or on
    the empty queue. *)
Lemma poll_loop_nowait clock tick idx timeout queue :
  (timeout = None \/ exists t, timeout = Some t /\ (t == 0)%Q) ->
  exists command queue' skipped,
    poll_loop (S (length (_queue queue))) clock tick idx None timeout queue
    = Some (PollReturn command, queue', skipped)
    /\ _queue queue
       = skipped ++ match command with Some c => [c] | None => [] end
                 ++ _queue queue'
    /\ Forall (fun c => idx !! id c = None) skipped
    /\ match command with
       | Some c => is_Some (idx !! id c)
       | None => _queue queue' = []
       end.
Proof.
  intros Htimeout.
  assert (Hw : waits timeout = false).
  { destruct Htimeout as [-> | (t & -> & Ht)]; [reflexivity |].
    simpl. rewrite (proj2 (Qtruthy_zero t Ht)). reflexivity. }
  set (live := fun c : Command => is_Some (idx !! id c)).
  destruct (decide (Exists live (_queue queue))) as [Hex | Hnone].
  - apply Exists_exists in Hex as (x & Hx & Hlive).
    destruct (first_such live (_queue queue) x Hx Hlive)
      as (before & c & rest & Hq & Hbefore & Hc & _).
    assert (Hbefore' : Forall (fun c => idx !! id c = None) before).
    { eapply Forall_impl; [exact Hbefore |]. intros a Ha.
      apply eq_None_not_Some. exact Ha. }
    destruct (poll_loop_delivers before (S (length (_queue queue))) clock tick
                idx timeout queue c rest Hq Hbefore' Hc Hw)
      as (queue' & Hloop & Hq').
    { rewrite Hq, length_app. simpl. lia. }
    rewrite Hloop. exists (Some c), queue', before.
    split; [reflexivity |]. split; [| split; assumption].
    rewrite Hq, Hq'. reflexivity.
  - assert (Hall : Forall (fun c => idx !! id c = None) (_queue queue)).
    { apply Forall_forall. intros a Ha. apply eq_None_not_Some. intros Hs.
      apply Hnone, Exists_exists. exists a. split; assumption. }
    destruct (poll_loop_drains (_queue queue) (S (length (_queue queue)))
                clock tick idx timeout queue eq_refl Hall Hw)
      as (queue' & Hloop & Hq'); [lia |].
    rewrite Hloop. exists None, queue', (_queue queue).
    split; [reflexivity |]. split; [| split; assumption].
    rewrite Hq'. simpl. rewrite app_nil_r. reflexivity.
Qed.

(** X12: a poll of a channel with no timeout or a zero timeout never
    waits.  It takes the cancelled commands at the head of the queue off,
    and returns the first command that is still in the index; it returns
    nothing only when it has emptied the queue. *)
Theorem channel_poll_nonblocking self clock channel timeout queue :
  _channels self !! channel = Some queue ->
  (timeout = None \/ exists t, timeout = Some t /\ (t == 0)%Q) ->
  exists command queue' skipped,
    CCQ.get_next_command self clock channel timeout
    = Some (PollReturn command, None, with_queue self channel queue', skipped)
    /\ _queue queue
       = skipped ++ match command with Some c => [c] | None => [] end
                 ++ _queue queue'
    /\ Forall (fun c => _command_index self !! id c = None) skipped
    /\ match command with
       | Some c => is_Some (_command_index self !! id c)
       | None => _queue queue' = []
       end.
Proof.
  intros Hch Htimeout. unfold CCQ.get_next_command. rewrite Hch.
  assert (Hdl : poll_deadline clock timeout = (None, 0)).
  { destruct Htimeout as [-> | (t & -> & Ht)]; [reflexivity |].
    unfold poll_deadline. rewrite (proj1 (Qtruthy_zero t Ht)). reflexivity. }
  rewrite Hdl.
  destruct (poll_loop_nowait clock 0 (_command_index self) timeout queue
              Htimeout) as (command & queue' & skipped & -> & H).
  exists command, queue', skipped. split; [reflexivity | exact H].
Qed.

Lemma channel_poll_nonblocking_witness :
  exists command queue' skipped,
    CCQ.get_next_command Scenario.one_pending Scenario.seconds
      Scenario.alpha (Some 0%Q)
    = Some (PollReturn command, None,
            with_queue Scenario.one_pending Scenario.alpha queue', skipped)
    /\ _queue (CQ.add_command CQ.new Scenario.u1 0 Scenario.tool_X PyNone).2
       = skipped ++ match command with Some c => [c] | None => [] end
                 ++ _queue queue'
    /\ Forall (fun c => _command_index Scenario.one_pending !! id c = None)
         skipped
    /\ match command with
       | Some c => is_Some (_command_index Scenario.one_pending !! id c)
       | None => _queue queue' = []
       end.
Proof.
  apply (channel_poll_nonblocking Scenario.one_pending Scenario.seconds
           Scenario.alpha (Some 0%Q)
           (CQ.add_command CQ.new Scenario.u1 0 Scenario.tool_X PyNone).2).
  - vm_compute. reflexivity.
  - right. exists 0%Q. split; reflexivity.
Defined.

(** X13: a negative timeout makes the poll of a channel return nothing,
    whatever the queue holds, and leaves every queue as it was: the
    deadline it computes is already behind the next reading of the
    monotonic clock. *)
Theorem channel_poll_negative_timeout self (clock : Clock) channel t :
  (t < 0)%Q ->
  (clock O <= clock 1%nat)%Q ->
  exists deadline,
    CCQ.get_next_command self clock channel (Some t)
    = Some (PollReturn None, deadline, self, []).
Proof.
  intros Ht Hclock. unfold CCQ.get_next_command.
  destruct (_channels self !! channel) as [queue|] eqn:Hch; [| eauto].
  assert (Htruthy : Qtruthy t = true).
  { unfold Qtruthy. apply negb_true_iff.
    destruct (Qeq_bool t 0) eqn:E; [| reflexivity].
    apply Qeq_bool_iff in E. rewrite E in Ht. inversion Ht. }
  unfold poll_deadline. rewrite Htruthy. cbn [poll_loop]. unfold poll_turn.
  assert (Hpast : Qle_zero (float_sub clock (float_add clock (clock O) t)
                              (clock 1%nat)) = true).
  { apply Qle_zero_iff, float_sub_not_greater.
    apply Qle_trans with (clock O); [| exact Hclock].
    apply float_add_negative, Ht. }
  rewrite Hpast, (with_queue_same _ _ _ Hch). eauto.
Qed.

Lemma channel_poll_negative_timeout_witness :
  exists deadline,
    CCQ.get_next_command Scenario.one_pending Scenario.seconds
      Scenario.alpha (Some (-1 # 2)%Q)
    = Some (PollReturn None, deadline, Scenario.one_pending, [])
    /\ Loop.items {| ccq := Scenario.one_pending; pollers := [];
                     awaiters := [] |} Scenario.alpha <> [].
Proof.
  destruct (channel_poll_negative_timeout Scenario.one_pending
              Scenario.seconds Scenario.alpha (-1 # 2)%Q)
    as (deadline & Hpoll).
  - reflexivity.
  - vm_compute. discriminate.
  - exists deadline. split; [exact Hpoll |]. vm_compute. discriminate.
Defined.




End QueueMore.

Section ResultsMore.

Import CQ CCQ Loop.

Lemma last_result_app x l1 l2 :
  last_result x (l1 ++ l2)
  = match last_result x l2 with
    | Some r => Some r
    | None => last_result x l1
    end.
Proof. unfold last_result. rewrite omap_app. apply last_app. Qed.

Lemma last_result_quiet x l1 l2 :
  omap (completed_result x) l2 = [] ->
  last_result x (l1 ++ l2) = last_result x l1.
Proof.
  intros H. rewrite last_result_app. unfold last_result at 1. rewrite H.
  reflexivity.
Qed.

Lemma last_result_snoc x log o :
  last_result x (log ++ [o])
  = match completed_result x o with
    | Some r => Some r
    | None => last_result x log
    end.
Proof.
  rewrite last_result_app. unfold last_result at 1. simpl.
  destruct (completed_result x o); reflexivity.
Qed.

Lemma poll_obs_completed x ch out skipped :
  omap (completed_result x) (poll_obs ch out skipped) = [].
Proof.
  unfold poll_obs. rewrite omap_app.
  assert (H : omap (completed_result x) (map (Skipped ch) skipped) = []).
  { induction skipped as [|c skipped IH]; [reflexivity | exact IH]. }
  rewrite H. destruct out; reflexivity.
Qed.

Lemma queue_consistent_mono idx idx' log log' ch q q' :
  queue_consistent idx log ch q ->
  _pending q' = _pending q -> _results q' = _results q ->
  _events q' = _events q ->
  (forall x, is_Some (_pending q !! x) -> idx' !! x = idx !! x) ->
  added_ids ch log' = added_ids ch log ->
  (forall x, is_Some (_pending q !! x) ->
             last_result x log' = last_result x log) ->
  (forall x, is_Some (last_result x log) -> is_Some (last_result x log')) ->
  queue_consistent idx' log' ch q'.
Proof.
  intros (Hp & Hl & He & Hr) HP HR HE Hidx Hadd Hlast Hmono.
  unfold queue_consistent. rewrite HP, HR, HE, Hadd.
  split; [| split; [exact Hl | split]].
  - intros x c Hx. rewrite (Hidx x) by eauto. apply Hp, Hx.
  - intros n Hn. destruct (He n Hn) as (x & Hx & Hs). eauto.
  - intros x. rewrite Hr. destruct (_pending q !! x) eqn:E; [| reflexivity].
    symmetry. apply Hlast. rewrite E. eauto.
Qed.

Lemma queue_consistent_new idx log ch :
  added_ids ch log = [] -> queue_consistent idx log ch CQ.new.
Proof.
  intros H. unfold queue_consistent, CQ.new. simpl. rewrite H.
  split; [| split; [reflexivity | split]].
  - intros x c Hx. rewrite lookup_empty in Hx. discriminate.
  - intros n Hn. rewrite lookup_nil in Hn. discriminate.
  - intros x. rewrite !lookup_empty. reflexivity.
Qed.

Lemma added_ids_snoc_added ch log ch' u tool params :
  added_ids ch (log ++ [Added ch' u tool params])
  = added_ids ch log ++ (if bool_decide (ch' = ch) then [u] else []).
Proof.
  rewrite added_ids_app. unfold added_ids at 2. simpl.
  destruct (bool_decide (ch' = ch)); reflexivity.
Qed.

Lemma queue_consistent_add idx log ch q u t tool params :
  queue_consistent idx log ch q ->
  idx !! u = None -> last_result u log = None ->
  queue_consistent (<[u := ch]> idx) (log ++ [Added ch u tool params]) ch
    (CQ.add_command q u t tool params).2.
Proof.
  intros (Hp & Hl & He & Hr) Hfresh Hnone.
  assert (Hadd : added_ids ch (log ++ [Added ch u tool params])
                 = added_ids ch log ++ [u]).
  { rewrite added_ids_snoc_added, bool_decide_true by reflexivity.
    reflexivity. }
  assert (Hlast : forall x, last_result x (log ++ [Added ch u tool params])
                            = last_result x log).
  { intros x. apply last_result_quiet. reflexivity. }
  assert (Hpu : _pending q !! u = None).
  { destruct (_pending q !! u) as [c|] eqn:E; [| reflexivity].
    destruct (Hp u c E) as (Hi & _). congruence. }
  unfold queue_consistent, CQ.add_command.
  cbn [snd _pending _results _events]. rewrite Hadd.
  split; [| split; [| split]].
  - intros x c Hx. destruct (decide (x = u)) as [-> | Hne].
    + rewrite lookup_insert_eq in Hx. injection Hx as <-.
      rewrite lookup_insert_eq. cbn [id result_event].
      split; [reflexivity |]. split; [reflexivity |].
      rewrite Hl. apply list_lookup_middle. reflexivity.
    + rewrite lookup_insert_ne in Hx by congruence.
      rewrite lookup_insert_ne by congruence.
      destruct (Hp x c Hx) as (Hi & Hid & Hev).
      split; [exact Hi |]. split; [exact Hid |].
      rewrite lookup_app_l; [exact Hev |]. eapply lookup_lt_Some, Hev.
  - rewrite !length_app, Hl. reflexivity.
  - intros n Hn. apply lookup_snoc_Some in Hn as [(Hlt & Hn) | (_ & [=])].
    destruct (He n Hn) as (x & Hx & Hs). exists x. rewrite Hlast.
    split; [| exact Hs].
    rewrite lookup_app_l; [exact Hx |]. eapply lookup_lt_Some, Hx.
  - intros x. rewrite Hlast. destruct (decide (x = u)) as [-> | Hne].
    + rewrite lookup_insert_eq, Hnone. rewrite Hr, Hpu. reflexivity.
    + rewrite lookup_insert_ne by congruence. apply Hr.
Qed.

Lemma queue_consistent_set idx log ch q x c r :
  queue_consistent idx log ch q ->
  _pending q !! x = Some c ->
  queue_consistent idx (log ++ [Completed x r true]) ch
    (CQ.set_result q x r).2.
Proof.
  intros (Hp & Hl & He & Hr) Hx.
  destruct (Hp x c Hx) as (Hi & Hid & Hev).
  assert (Hadd : added_ids ch (log ++ [Completed x r true])
                 = added_ids ch log).
  { rewrite added_ids_app. apply app_nil_r. }
  unfold queue_consistent, CQ.set_result. rewrite Hx.
  cbn [snd _pending _results _events]. rewrite Hadd.
  split; [exact Hp | split; [| split]].
  - rewrite length_insert. exact Hl.
  - intros n Hn.
    apply list_lookup_insert_Some in Hn as [(<- & _ & Hlt) | (Hne & Hn)].
    + exists x. split; [exact Hev |]. rewrite last_result_snoc. simpl.
      rewrite bool_decide_true by reflexivity. eauto.
    + destruct (He n Hn) as (y & Hy & Hs). exists y. split; [exact Hy |].
      rewrite last_result_snoc. destruct (completed_result y _); eauto.
  - intros y. rewrite last_result_snoc. destruct (decide (y = x)) as [-> | Hne].
    + rewrite lookup_insert_eq, Hx. simpl.
      rewrite bool_decide_true by reflexivity. reflexivity.
    + rewrite lookup_insert_ne by congruence. simpl.
      rewrite bool_decide_false by congruence. apply Hr.
Qed.

Lemma queue_consistent_pop idx log log' ch q x :
  queue_consistent idx log ch q ->
  added_ids ch log' = added_ids ch log ->
  (forall y, last_result y log' = last_result y log) ->
  queue_consistent (delete x idx) log' ch
    {| _pending := delete x (_pending q); _results := delete x (_results q);
       _queue := _queue q; _events := _events q |}.
Proof.
  intros (Hp & Hl & He & Hr) Hadd Hlast.
  unfold queue_consistent. cbn [_pending _results _events]. rewrite Hadd.
  split; [| split; [exact Hl | split]].
  - intros y c Hy. apply lookup_delete_Some in Hy as (Hne & Hy).
    rewrite lookup_delete_ne by congruence. apply Hp, Hy.
  - intros n Hn. destruct (He n Hn) as (y & Hy & Hs). exists y.
    rewrite Hlast. eauto.
  - intros y. rewrite Hlast. destruct (decide (y = x)) as [-> | Hne].
    + rewrite !lookup_delete_eq. reflexivity.
    + rewrite !lookup_delete_ne by congruence. apply Hr.
Qed.

Lemma consistent_index_channel tr w log x ch q c :
  consistent tr w log ->
  index w !! x = Some ch ->
  _channels (ccq w) !! ch = Some q -> _pending q !! x = Some c ->
  forall ch' q', _channels (ccq w) !! ch' = Some q' ->
                 is_Some (_pending q' !! x) -> ch' = ch.
Proof.
  intros (Hq & _) Hi _ _ ch' q' Hch' [c' Hc'].
  destruct (Hq ch' q' Hch') as (Hp & _). destruct (Hp x c' Hc') as (Hi' & _).
  congruence.
Qed.

#[local] Arguments poll_loop : simpl never.

(** The polls change nothing but the [asyncio.Queue] of one channel. *)
Lemma step_poll_view w a w' obs :
  step w a = Some (w', obs) ->
  is_poll a = true ->
  index w' = index w /\ awaiters w' = awaiters w
  /\ (exists ch out skipped, obs = poll_obs ch out skipped)
  /\ (forall ch q', _channels (ccq w') !! ch = Some q' ->
        exists q, _channels (ccq w) !! ch = Some q
                  /\ _pending q' = _pending q /\ _results q' = _results q
                  /\ _events q' = _events q)
  /\ (forall ch, _channels (ccq w') !! ch = None ->
                 _channels (ccq w) !! ch = None).
Proof.
  assert (Hwq : forall channel queue queue',
             _channels (ccq w) !! channel = Some queue ->
             _pending queue' = _pending queue ->
             _results queue' = _results queue ->
             _events queue' = _events queue ->
             (forall ch q', <[channel := queue']> (_channels (ccq w)) !! ch
                            = Some q' ->
                exists q, _channels (ccq w) !! ch = Some q
                          /\ _pending q' = _pending q
                          /\ _results q' = _results q
                          /\ _events q' = _events q)
             /\ (forall ch, <[channel := queue']> (_channels (ccq w)) !! ch
                            = None ->
                            _channels (ccq w) !! ch = None)).
  { intros channel queue queue' Hch HP HR HE. split.
    - intros ch q'. destruct (decide (channel = ch)) as [<- | Hne].
      + rewrite lookup_insert_eq. intros [= <-]. eauto.
      + rewrite lookup_insert_ne by assumption. eauto.
    - intros ch. destruct (decide (channel = ch)) as [<- | Hne].
      + rewrite lookup_insert_eq. discriminate.
      + rewrite lookup_insert_ne by assumption. trivial. }
  destruct a as [| channel timeout clock | i | i clock | i | | | | | ];
    try discriminate; simpl; intros Hstep _.
  - revert Hstep. unfold CCQ.get_next_command.
    destruct (_channels (ccq w) !! channel) as [queue|] eqn:Hch.
    + destruct (poll_deadline clock timeout) as [deadline tick].
      destruct (poll_loop _ _ _ _ _ _ _) as [[[out queue'] skipped]|] eqn:Hloop;
        [| discriminate].
      intros [= <- <-].
      destruct (poll_loop_spec _ _ _ _ _ _ _ _ _ _ Hloop)
        as (_ & HP & HR & HE & _).
      split; [reflexivity |]. split; [reflexivity |]. split; [eauto |].
      apply (Hwq channel queue queue' Hch HP HR HE).
    + intros [= <- <-]. split; [reflexivity |]. split; [reflexivity |].
      split; [eauto |]. split; eauto.
  - revert Hstep.
    destruct (pollers w !! i) as [k|] eqn:Hk; [| discriminate].
    unfold poller_got_item.
    destruct (pk_item k); [discriminate |].
    destruct (_channels (ccq w) !! pk_channel k) as [queue|] eqn:Hch;
      [| discriminate].
    rewrite get_nowait_head.
    destruct (_queue queue) as [|command rest] eqn:Hq0; [discriminate |].
    simpl. intros [= <- <-].
    split; [reflexivity |]. split; [reflexivity |].
    split; [exists (pk_channel k), PollSuspend, []; reflexivity |].
    apply (Hwq (pk_channel k) queue (CQ.dequeued queue) Hch); reflexivity.
  - revert Hstep.
    destruct (pollers w !! i) as [k|] eqn:Hk; [| discriminate].
    unfold poller_resumed.
    destruct (pk_item k) as [command|]; [| discriminate].
    destruct (_channels (ccq w) !! pk_channel k) as [queue|] eqn:Hch;
      [| discriminate].
    destruct (bool_decide (is_Some (_command_index (ccq w) !! id command))).
    + intros [= <- <-].
      split; [reflexivity |]. split; [reflexivity |].
      split; [exists (pk_channel k), (PollReturn (Some command)), [];
              reflexivity |].
      split; eauto.
    + destruct (poll_loop _ _ _ _ _ _ _) as [[[out queue'] skipped]|] eqn:Hloop;
        [| discriminate].
      intros [= <- <-].
      destruct (poll_loop_spec _ _ _ _ _ _ _ _ _ _ Hloop)
        as (_ & HP & HR & HE & _).
      split; [reflexivity |]. split; [reflexivity |].
      split; [exists (pk_channel k), out, (command :: skipped); reflexivity |].
      apply (Hwq (pk_channel k) queue queue' Hch); assumption.
  - revert Hstep.
    destruct (pollers w !! i) as [k|] eqn:Hk; [| discriminate].
    destruct (pk_item k); [discriminate |].
    intros [= <- <-]. split; [reflexivity |]. split; [reflexivity |].
    split; [exists (pk_channel k), (PollReturn None), []; reflexivity |].
    split; eauto.
Qed.

(** Actions that leave the index, the pending commands and the results
    alone, and add nothing to the log that matters here. *)
Lemma consistent_neutral tr w log a w' obs :
  consistent tr w log ->
  uuid_of a = None ->
  index w' = index w ->
  (forall k, k ∈ awaiters w' ->
     k ∈ awaiters w
     \/ added_ids (ak_channel k) log !! ak_event k = Some (ak_command_id k)) ->
  (forall ch q', _channels (ccq w') !! ch = Some q' ->
     exists q, _channels (ccq w) !! ch = Some q
               /\ _pending q' = _pending q /\ _results q' = _results q
               /\ _events q' = _events q) ->
  (forall ch, _channels (ccq w') !! ch = None ->
              _channels (ccq w) !! ch = None) ->
  (forall c, added_ids c (log ++ obs) = added_ids c log) ->
  (forall y, last_result y (log ++ obs) = last_result y log) ->
  consistent (tr ++ [a]) w' (log ++ obs).
Proof.
  intros (Hq & Hno & Hip & Haw & Hres) Hu Hi Ha Hv Hvn Hadd Hlast.
  split; [| split; [| split; [| split]]].
  - intros c q' Hq'. destruct (Hv c q' Hq') as (q & Hcq & HP & HR & HE).
    apply (queue_consistent_mono (index w) _ log _ c q q'); auto.
    + intros y _. rewrite Hi. reflexivity.
    + intros y Hy. rewrite Hlast. exact Hy.
  - intros c Hc. rewrite Hadd. apply Hno, Hvn, Hc.
  - intros y c Hy. rewrite Hi in Hy.
    destruct (Hip y c Hy) as (q & cmd & Hcq & Hpy).
    destruct (_channels (ccq w') !! c) as [q'|] eqn:Hq'.
    + destruct (Hv c q' Hq') as (q0 & Hcq0 & HP & _).
      exists q', cmd. split; [reflexivity |]. rewrite HP.
      rewrite Hcq in Hcq0. injection Hcq0 as <-. exact Hpy.
    + rewrite (Hvn c Hq') in Hcq. discriminate.
  - intros k Hk. rewrite Hadd. destruct (Ha k Hk) as [Hin | Hnew];
      [apply Haw, Hin | exact Hnew].
  - intros y Hy. rewrite Hlast in Hy. rewrite uuids_snoc_none by exact Hu.
    apply Hres, Hy.
Qed.

Lemma queue_pop_absent idx log ch q x :
  queue_consistent idx log ch q ->
  _pending q !! x = None ->
  {| _pending := delete x (_pending q); _results := delete x (_results q);
     _queue := _queue q; _events := _events q |} = q.
Proof.
  intros (_ & _ & _ & Hr) Hx. specialize (Hr x). rewrite Hx in Hr.
  destruct q as [pending results queue events]. simpl in *.
  rewrite (delete_id _ _ Hx), (delete_id _ _ Hr). reflexivity.
Qed.

(** [add_command] keeps the state consistent when its [uuid4] is new. *)
Lemma consistent_add tr w log channel tool params u t q0 channels' pollers' :
  consistent tr w log ->
  u ∉ uuids tr ->
  index w !! u = None ->
  queue_consistent (index w) log channel q0 ->
  (forall q, _channels (ccq w) !! channel = Some q -> q = q0) ->
  channels' !! channel = Some (CQ.add_command q0 u t tool params).2 ->
  (forall c, c <> channel -> channels' !! c = _channels (ccq w) !! c) ->
  consistent (tr ++ [AddCommand channel tool params u t])
    {| ccq := {| _channels := channels';
                 _command_index := <[u := channel]> (_command_index (ccq w)) |};
       pollers := pollers'; awaiters := awaiters w |}
    (log ++ [Added channel u tool params]).
Proof.
  intros (Hq & Hno & Hip & Haw & Hres) Hnew Hfresh Hq0 Hsame Hch Hoth.
  unfold index in *.
  assert (Hnone : last_result u log = None).
  { destruct (last_result u log) eqn:E; [| reflexivity].
    exfalso. apply Hnew, Hres. rewrite E. eauto. }
  assert (Hlast : forall y, last_result y (log ++ [Added channel u tool params])
                            = last_result y log).
  { intros y. apply last_result_quiet. reflexivity. }
  assert (Hadd : forall c, c <> channel ->
             added_ids c (log ++ [Added channel u tool params])
             = added_ids c log).
  { intros c Hc. rewrite added_ids_snoc_added, bool_decide_false by congruence.
    apply app_nil_r. }
  split; [| split; [| split; [| split]]]; unfold index; cbn [ccq awaiters
    _channels _command_index].
  - intros c q'. destruct (decide (c = channel)) as [-> | Hne].
    + rewrite Hch. intros [= <-]. apply queue_consistent_add; assumption.
    + rewrite (Hoth c Hne). intros Hc.
      pose proof (Hq c q' Hc) as Hold.
      apply (queue_consistent_mono _ _ log _ c q' q' Hold); auto.
      * intros y [cmd Hy]. apply lookup_insert_ne. intros <-.
        destruct Hold as (Hp & _). destruct (Hp u cmd Hy) as (Hi & _).
        congruence.
      * intros y Hy. rewrite Hlast. exact Hy.
  - intros c Hc. destruct (decide (c = channel)) as [-> | Hne];
      [rewrite Hch in Hc; discriminate |].
    rewrite (Hoth c Hne) in Hc. rewrite (Hadd c Hne). apply Hno, Hc.
  - intros y c Hy. destruct (decide (y = u)) as [-> | Hne].
    + rewrite lookup_insert_eq in Hy. injection Hy as <-.
      eexists _, _. split; [exact Hch |]. unfold CQ.add_command. simpl.
      apply lookup_insert_eq.
    + rewrite lookup_insert_ne in Hy by congruence.
      destruct (Hip y c Hy) as (q & cmd & Hc & Hpy).
      destruct (decide (c = channel)) as [-> | Hnc].
      * eexists _, cmd. split; [exact Hch |]. unfold CQ.add_command. simpl.
        rewrite lookup_insert_ne by congruence.
        rewrite <- (Hsame q Hc). exact Hpy.
      * exists q, cmd. rewrite (Hoth c Hnc). split; assumption.
  - intros k Hk. rewrite added_ids_snoc_added.
    rewrite lookup_app_l; [apply Haw, Hk |].
    eapply lookup_lt_Some, Haw, Hk.
  - intros y Hy. rewrite Hlast in Hy. rewrite uuids_snoc.
    apply elem_of_app. left. apply Hres, Hy.
Qed.

(** A [wait_for_result] comes back: the pending command, its result and
    its index entry go. *)
Lemma consistent_pop tr w log a k q i o pollers' :
  run boot tr = Some (w, log) -> NoDup (uuids tr) ->
  consistent tr w log ->
  uuid_of a = None ->
  k ∈ awaiters w ->
  _channels (ccq w) !! ak_channel k = Some q ->
  (forall c, added_id c o = None) ->
  (forall y, completed_result y o = None) ->
  consistent (tr ++ [a])
    {| ccq :=
         {| _channels :=
              <[ak_channel k :=
                  {| _pending := delete (ak_command_id k) (_pending q);
                     _results := delete (ak_command_id k) (_results q);
                     _queue := _queue q; _events := _events q |}]>
                (_channels (ccq w));
            _command_index := delete (ak_command_id k) (_command_index (ccq w)) |};
       pollers := pollers'; awaiters := delete i (awaiters w) |}
    (log ++ [o]).
Proof.
  intros Hrun Hnd (Hq & Hno & Hip & Haw & Hres) Hu Hk Hch Ho1 Ho2.
  unfold index in *.
  assert (Hadd : forall c, added_ids c (log ++ [o]) = added_ids c log).
  { intros c. rewrite added_ids_app. unfold added_ids at 2. simpl.
    rewrite Ho1. apply app_nil_r. }
  assert (Hlast : forall y, last_result y (log ++ [o]) = last_result y log).
  { intros y. rewrite last_result_snoc, Ho2. reflexivity. }
  split; [| split; [| split; [| split]]]; unfold index; cbn [ccq awaiters
    _channels _command_index].
  - intros c q'. destruct (decide (ak_channel k = c)) as [<- | Hne].
    + rewrite lookup_insert_eq. intros [= <-].
      apply (queue_consistent_pop _ log); auto.
    + rewrite lookup_insert_ne by assumption. intros Hc.
      pose proof (Hq c q' Hc) as Hold.
      apply (queue_consistent_mono _ _ log _ c q' q' Hold); auto.
      * intros y [cmd Hy]. apply lookup_delete_ne. intros <-.
        apply Hne. destruct Hold as (Hp & _).
        destruct (Hp _ cmd Hy) as (_ & _ & Hev).
        apply (added_one_channel tr w log _ _ (ak_command_id k) Hrun Hnd).
        -- eapply list_elem_of_lookup_2, Haw, Hk.
        -- eapply list_elem_of_lookup_2, Hev.
      * intros y Hy. rewrite Hlast. exact Hy.
  - intros c Hc. apply lookup_insert_None in Hc as (Hc & _).
    rewrite Hadd. apply Hno, Hc.
  - intros y c Hy. apply lookup_delete_Some in Hy as (Hne & Hy).
    destruct (Hip y c Hy) as (q0 & cmd & Hc & Hpy).
    destruct (decide (ak_channel k = c)) as [<- | Hnc].
    + rewrite Hch in Hc. injection Hc as <-.
      eexists _, cmd. split; [apply lookup_insert_eq |]. simpl.
      rewrite lookup_delete_ne by assumption. exact Hpy.
    + exists q0, cmd. rewrite lookup_insert_ne by assumption.
      split; assumption.
  - intros k' Hk'. rewrite Hadd. apply Haw.
    eapply list_elem_of_delete_inv, Hk'.
  - intros y Hy. rewrite Hlast in Hy. rewrite uuids_snoc_none by exact Hu.
    apply Hres, Hy.
Qed.

(** The queues, the index and the awaiters stay consistent along every
    schedule whose [uuid4] values do not repeat. *)
Lemma run_consistent tr w log :
  run boot tr = Some (w, log) -> NoDup (uuids tr) -> consistent tr w log.
Proof.
  revert tr w log.
  apply (run_step_ind
           (fun tr w log => NoDup (uuids tr) -> consistent tr w log)).
  { intros _. unfold consistent, boot, index, CCQ.new. simpl.
    split; [| split; [| split; [| split]]].
    - intros ch q Hq. apply lookup_singleton_Some in Hq as [_ <-].
      apply queue_consistent_new. reflexivity.
    - reflexivity.
    - intros x ch Hx. rewrite lookup_empty in Hx. discriminate.
    - intros k Hk. inversion Hk.
    - intros x [r Hr]. discriminate. }
  intros tr w log a w' obs Hrun IH Hstep Hnd.
  pose proof (NoDup_uuids_snoc _ _ Hnd) as Hnd0.
  specialize (IH Hnd0).
  pose proof IH as (Hq & Hno & Hip & Haw & Hres).
  destruct (run_index _ _ _ Hrun Hnd0) as (Hidx & Hawu & Hret).
  assert (poll_case :
            is_poll a = true -> uuid_of a = None ->
            consistent (tr ++ [a]) w' (log ++ obs)).
  { intros Hpoll Hu.
    destruct (step_poll_view _ _ _ _ Hstep Hpoll)
      as (Hi & Ha & (ch & out & skipped & ->) & Hv & Hvn).
    apply (consistent_neutral tr w log a w'); auto.
    - intros k Hk. rewrite Ha in Hk. left. exact Hk.
    - intros c. rewrite added_ids_app, poll_obs_added. apply app_nil_r.
    - intros y. apply last_result_quiet, poll_obs_completed. }
  destruct a as [channel tool params u t | channel timeout clock | i | i clock
                | i | x r | x t | i | i | ].
  - (* add_command *)
    pose proof (NoDup_uuids_fresh _ _ _ _ _ _ Hnd) as Hnew.
    assert (Hfresh : index w !! u = None).
    { destruct (index w !! u) eqn:E; [| reflexivity].
      exfalso. apply Hnew, Hidx. rewrite E. eauto. }
    revert Hstep. simpl. unfold CCQ.add_command.
    destruct (_channels (ccq w) !! channel) as [queue|] eqn:Hch; simpl;
      intros [= <- <-].
    + apply (consistent_add tr w log channel tool params u t queue _ _
               IH Hnew Hfresh (Hq _ _ Hch)).
      * intros q Hq0. congruence.
      * apply lookup_insert_eq.
      * intros c Hc. apply lookup_insert_ne. congruence.
    + apply (consistent_add tr w log channel tool params u t CQ.new _ _
               IH Hnew Hfresh (queue_consistent_new _ _ _ (Hno _ Hch))).
      * intros q Hq0. congruence.
      * apply lookup_insert_eq.
      * intros c Hc. rewrite !lookup_insert_ne by congruence. reflexivity.
  - apply poll_case; reflexivity.
  - apply poll_case; reflexivity.
  - apply poll_case; reflexivity.
  - apply poll_case; reflexivity.
  - (* set_result *)
    revert Hstep. simpl.
    destruct (CCQ.set_result (ccq w) x r) as [found q1] eqn:Hset.
    intros [= <- <-]. destruct found.
    + unfold CCQ.set_result in Hset.
      destruct (_command_index (ccq w) !! x) as [ch|] eqn:Hix;
        [| discriminate].
      destruct (_channels (ccq w) !! ch) as [q|] eqn:Hch; [| discriminate].
      destruct (CQ.set_result q x r) as [f q'] eqn:Hs.
      injection Hset as -> <-.
      assert (Hq' : q' = (CQ.set_result q x r).2) by (rewrite Hs; reflexivity).
      assert (Hpx : is_Some (_pending q !! x)).
      { unfold CQ.set_result in Hs.
        destruct (_pending q !! x); [eauto | discriminate]. }
      destruct Hpx as [c Hpx].
      assert (Hadd : forall c0, added_ids c0 (log ++ [Completed x r true])
                                = added_ids c0 log).
      { intros c0. rewrite added_ids_app. apply app_nil_r. }
      split; [| split; [| split; [| split]]]; unfold index in *;
        cbn [ccq awaiters with_queue _channels _command_index].
      * intros c0 q0. destruct (decide (ch = c0)) as [<- | Hne].
        -- rewrite lookup_insert_eq. intros [= <-]. rewrite Hq'.
           apply (queue_consistent_set _ _ _ _ _ c); [| exact Hpx].
           apply Hq, Hch.
        -- rewrite lookup_insert_ne by assumption. intros Hc0.
           pose proof (Hq c0 q0 Hc0) as Hold.
           apply (queue_consistent_mono _ _ log _ c0 q0 q0 Hold); auto.
           ++ intros y [cmd Hy]. rewrite last_result_snoc. simpl.
              rewrite bool_decide_false; [reflexivity |]. intros ->.
              destruct Hold as (Hp & _).
              destruct (Hp y cmd Hy) as (Hi & _). unfold index in Hi.
              congruence.
           ++ intros y Hy. rewrite last_result_snoc.
              destruct (completed_result y _); eauto.
      * intros c0 Hc0. apply lookup_insert_None in Hc0 as (Hc0 & _).
        rewrite Hadd. apply Hno, Hc0.
      * intros y c0 Hy. destruct (Hip y c0 Hy) as (q0 & cmd & Hc0 & Hpy).
        destruct (decide (ch = c0)) as [<- | Hne].
        -- rewrite Hch in Hc0. injection Hc0 as <-.
           exists q', cmd. split; [apply lookup_insert_eq |].
           rewrite Hq', set_result_pending. exact Hpy.
        -- exists q0, cmd. rewrite lookup_insert_ne by assumption.
           split; assumption.
      * intros k Hk. rewrite Hadd. apply Haw, Hk.
      * intros y Hy. rewrite uuids_snoc_none by reflexivity.
        rewrite last_result_snoc in Hy. simpl in Hy.
        destruct (bool_decide (x = y)) eqn:E.
        -- apply bool_decide_eq_true in E as <-. apply Hidx.
           unfold index. rewrite Hix. eauto.
        -- apply Hres, Hy.
    + pose proof (CCQ_set_result_rejected (ccq w) x r) as Hrej.
      rewrite Hset in Hrej. simpl in Hrej. specialize (Hrej eq_refl).
      subst q1.
      apply (consistent_neutral tr w log); auto; try reflexivity.
      * simpl. eauto.
      * intros c. rewrite added_ids_app. apply app_nil_r.
      * intros y. apply last_result_quiet. reflexivity.
  - (* wait_for_result *)
    revert Hstep. simpl.
    destruct (CCQ.wait_for_result_begin (ccq w) x) as [[ch0 cmd]|] eqn:Hb;
      intros [= <- <-].
    + apply (consistent_neutral tr w log); auto; try reflexivity.
      * intros k' Hk'. cbn [awaiters] in Hk'.
        apply elem_of_app in Hk' as [Hk' | Hk']; [left; exact Hk' |].
        apply list_elem_of_singleton in Hk' as ->. right.
        unfold CCQ.wait_for_result_begin in Hb.
        destruct (_command_index (ccq w) !! x) as [ch|] eqn:Hix;
          [| discriminate].
        destruct (_channels (ccq w) !! ch) as [q|] eqn:Hch; [| discriminate].
        unfold CQ.wait_for_result_begin in Hb.
        destruct (_pending q !! x) as [c|] eqn:Hpx; [| discriminate].
        injection Hb as <- <-. simpl.
        destruct (Hq ch q Hch) as (Hp & _). apply (Hp x c Hpx).
      * simpl. eauto.
      * intros c. rewrite app_nil_r. reflexivity.
      * intros y. rewrite app_nil_r. reflexivity.
    + apply (consistent_neutral tr w log); auto; try reflexivity.
      * eauto.
      * intros c. rewrite added_ids_app. apply app_nil_r.
      * intros y. apply last_result_quiet. reflexivity.
  - (* the event of a suspended awaiter is set *)
    revert Hstep. simpl.
    destruct (awaiters w !! i) as [k|] eqn:Hk; [| discriminate].
    unfold wait_for_result_event_set.
    destruct (_channels (ccq w) !! ak_channel k) as [q|] eqn:Hch;
      [| discriminate].
    destruct (negb (Qle_zero (ak_timeout k)) && is_set q (ak_event k));
      [| discriminate].
    simpl. intros [= <- <-].
    apply (consistent_pop tr w log); auto.
    eapply list_elem_of_lookup_2, Hk.
  - (* a suspended awaiter times out *)
    revert Hstep. simpl.
    destruct (awaiters w !! i) as [k|] eqn:Hk; [| discriminate].
    unfold wait_for_result_timed_out.
    destruct (_channels (ccq w) !! ak_channel k) as [q|] eqn:Hch;
      [| discriminate].
    unfold remove_command. case_bool_decide as Hpx; intros [= <- <-].
    + apply (consistent_pop tr w log); auto.
      eapply list_elem_of_lookup_2, Hk.
    + assert (Hnone : _pending q !! ak_command_id k = None).
      { destruct (_pending q !! ak_command_id k) eqn:E; [| reflexivity].
        exfalso. apply Hpx. eauto. }
      clear poll_case. rewrite <- (queue_pop_absent _ _ _ _ _ (Hq _ _ Hch) Hnone) at 1.
      apply (consistent_pop tr w log); auto.
      eapply list_elem_of_lookup_2, Hk.
  - (* get_stats *)
    revert Hstep. simpl. intros [= <- <-].
    apply (consistent_neutral tr w log); auto; try reflexivity.
    + eauto.
    + intros c. rewrite added_ids_app. apply app_nil_r.
    + intros y. apply last_result_quiet. reflexivity.
Qed.

(** X15: which commands are outstanding.  Along every schedule, with
    [uuid4] values that do not repeat, the following say the same about a
    command id: it was returned by [add_command] and no [wait_for_result]
    for it has come back; [set_result] accepts it; [wait_for_result] does
    not raise [KeyError] for it; it is pending in the queue of some
    channel, which is then the channel it was added to. *)
Theorem outstanding_commands tr w log x :
  run boot tr = Some (w, log) ->
  NoDup (uuids tr) ->
  (forall result,
     (CCQ.set_result (ccq w) x result).1 = true <->
     x ∈ uuids tr /\ ~ await_returned x log)
  /\ (is_Some (CCQ.wait_for_result_begin (ccq w) x) <->
      x ∈ uuids tr /\ ~ await_returned x log)
  /\ ((exists ch q, _channels (ccq w) !! ch = Some q
                    /\ is_Some (_pending q !! x)) <->
      x ∈ uuids tr /\ ~ await_returned x log)
  /\ (forall ch q, _channels (ccq w) !! ch = Some q ->
        is_Some (_pending q !! x) ->
        x ∈ added_ids ch log /\ _get_command_channel (ccq w) x = Some ch).
Proof.
  intros Hrun Hnd.
  destruct (run_consistent _ _ _ Hrun Hnd) as (Hq & Hno & Hip & Haw & Hres).
  destruct (run_index _ _ _ Hrun Hnd) as (Hidx & _ & _).
  unfold index in *.
  assert (Hpend : forall ch q, _channels (ccq w) !! ch = Some q ->
            is_Some (_pending q !! x) ->
            x ∈ added_ids ch log /\ _command_index (ccq w) !! x = Some ch).
  { intros ch q Hch [c Hc]. destruct (Hq ch q Hch) as (Hp & _).
    destruct (Hp x c Hc) as (Hi & _ & Hev). split; [| exact Hi].
    eapply list_elem_of_lookup_2, Hev. }
  split; [| split; [| split]].
  - intros result. rewrite <- Hidx. unfold CCQ.set_result. split.
    + destruct (_command_index (ccq w) !! x); [eauto | discriminate].
    + intros [ch Hix]. rewrite Hix.
      destruct (Hip x ch Hix) as (q & c & Hch & Hc).
      rewrite Hch. unfold CQ.set_result. rewrite Hc. reflexivity.
  - rewrite <- Hidx. unfold CCQ.wait_for_result_begin. split.
    + destruct (_command_index (ccq w) !! x); [eauto |].
      intros [? ?]; discriminate.
    + intros [ch Hix]. rewrite Hix.
      destruct (Hip x ch Hix) as (q & c & Hch & Hc).
      rewrite Hch. unfold CQ.wait_for_result_begin. rewrite Hc. eauto.
  - rewrite <- Hidx. split.
    + intros (ch & q & Hch & Hc). destruct (Hpend ch q Hch Hc) as (_ & Hi).
      rewrite Hi. eauto.
    + intros [ch Hix]. destruct (Hip x ch Hix) as (q & c & Hch & Hc).
      exists ch, q. split; [exact Hch |]. rewrite Hc. eauto.
  - exact Hpend.
Qed.

Lemma outstanding_commands_witness :
  match run boot Scenario.two_submits with
  | Some (w, log) =>
      (forall result,
         (CCQ.set_result (ccq w) Scenario.u1 result).1 = true <->
         Scenario.u1 ∈ uuids Scenario.two_submits
         /\ ~ await_returned Scenario.u1 log)
      /\ (is_Some (CCQ.wait_for_result_begin (ccq w) Scenario.u1) <->
          Scenario.u1 ∈ uuids Scenario.two_submits
          /\ ~ await_returned Scenario.u1 log)
      /\ ((exists ch q, _channels (ccq w) !! ch = Some q
                        /\ is_Some (_pending q !! Scenario.u1)) <->
          Scenario.u1 ∈ uuids Scenario.two_submits
          /\ ~ await_returned Scenario.u1 log)
      /\ (forall ch q, _channels (ccq w) !! ch = Some q ->
            is_Some (_pending q !! Scenario.u1) ->
            Scenario.u1 ∈ added_ids ch log
            /\ _get_command_channel (ccq w) Scenario.u1 = Some ch)
  | None => False
  end.
Proof.
  destruct (run boot Scenario.two_submits) as [[w log]|] eqn:Hrun;
    [| vm_compute in Hrun; discriminate].
  apply (outstanding_commands Scenario.two_submits w log Scenario.u1 Hrun).
  apply (bool_decide_unpack _). vm_compute. exact I.
Defined.

(** The only step that makes a [wait_for_result] return a value. *)
Lemma step_awaited_value w a w' obs o1 x r l2 :
  step w a = Some (w', obs) ->
  obs = o1 ++ Awaited x (inr r) :: l2 ->
  exists i k q,
    a = AwaiterEventSet i /\ awaiters w !! i = Some k
    /\ _channels (ccq w) !! ak_channel k = Some q
    /\ is_set q (ak_event k) = true
    /\ x = ak_command_id k
    /\ r = default PyNone (_results q !! x)
    /\ o1 = [] /\ l2 = [].
Proof.
  intros Hstep Hobs.
  assert (Hone : forall o : Obs,
             [o] = o1 ++ Awaited x (inr r) :: l2 ->
             o = Awaited x (inr r) /\ o1 = [] /\ l2 = []).
  { intros o Ho. destruct o1 as [|o' o1]; simpl in Ho.
    - injection Ho as -> <-. auto.
    - injection Ho as _ Ho. destruct o1; discriminate. }
  assert (Hpoll : is_poll a = true -> False).
  { intros Hp.
    destruct (step_poll_view _ _ _ _ Hstep Hp)
      as (_ & _ & (ch & out & skipped & Heq) & _).
    assert (Hin : Awaited x (inr r) ∈ poll_obs ch out skipped).
    { rewrite <- Heq, Hobs. apply elem_of_app. right. apply list_elem_of_here. }
    apply elem_of_poll_obs in Hin as [(c & [=] & _) | (c & [=] & _)]. }
  destruct a as [channel tool params u t | channel timeout clock | i | i clock
                | i | y res | y t | i | i | ];
    try (exfalso; apply Hpoll; reflexivity); clear Hpoll; revert Hstep; simpl.
  - destruct (CCQ.add_command _ _ _ _ _ _) as [command_id q1].
    intros [= <- <-]. destruct (Hone _ Hobs) as ([=] & _).
  - destruct (CCQ.set_result _ _ _) as [found q1].
    intros [= <- <-]. destruct (Hone _ Hobs) as ([=] & _).
  - destruct (CCQ.wait_for_result_begin _ _) as [[ch0 cmd]|];
      intros [= <- <-].
    + destruct o1; discriminate.
    + destruct (Hone _ Hobs) as ([=] & _).
  - destruct (awaiters w !! i) as [k|] eqn:Hk; [| discriminate].
    unfold wait_for_result_event_set.
    destruct (_channels (ccq w) !! ak_channel k) as [q|] eqn:Hch;
      [| discriminate].
    destruct (negb (Qle_zero (ak_timeout k)) && is_set q (ak_event k))
      eqn:Hboth; [| discriminate].
    apply andb_true_iff in Hboth as [_ Hset].
    simpl. intros [= <- <-].
    destruct (Hone _ Hobs) as ([= <- <-] & -> & ->).
    exists i, k, q. repeat split; auto.
  - destruct (awaiters w !! i) as [k|] eqn:Hk; [| discriminate].
    destruct (wait_for_result_timed_out _ _) as [q1|]; [| discriminate].
    intros [= <- <-]. destruct (Hone _ Hobs) as ([=] & _).
  - intros [= <- <-]. destruct (Hone _ Hobs) as ([=] & _).
Qed.

(** X16: what [wait_for_result] returns.  The first [wait_for_result]
    that returns for a command returns the value of the most recent
    successful [set_result] for it (so there was one); any
    [wait_for_result] that returns for it after another one has come back
    returns [None]. *)
Theorem await_returns_last_result tr w log l1 x r l2 :
  run boot tr = Some (w, log) ->
  NoDup (uuids tr) ->
  log = l1 ++ Awaited x (inr r) :: l2 ->
  (~ await_returned x l1 -> last_result x l1 = Some r)
  /\ (await_returned x l1 -> r = PyNone).
Proof.
  intros Hrun Hnd. revert l1 x r l2. revert Hnd. revert tr w log Hrun.
  apply (run_step_ind
           (fun tr w log => NoDup (uuids tr) ->
              forall l1 x r l2, log = l1 ++ Awaited x (inr r) :: l2 ->
                (~ await_returned x l1 -> last_result x l1 = Some r)
                /\ (await_returned x l1 -> r = PyNone))).
  { intros _ l1 x r l2 Hlog. destruct l1; discriminate. }
  intros tr w log a w' obs Hrun IH Hstep Hnd l1 x r l2 Hlog.
  pose proof (NoDup_uuids_snoc _ _ Hnd) as Hnd0.
  destruct (app_eq_middle _ _ _ _ _ Hlog)
    as [(l2a & Hold & _) | (o1 & Hobs & Hl1)].
  { exact (IH Hnd0 l1 x r l2a Hold). }
  destruct (step_awaited_value _ _ _ _ _ _ _ _ Hstep Hobs)
    as (i & k & q & -> & Hk & Hch & Hset & -> & -> & -> & ->).
  rewrite app_nil_r in Hl1. subst l1.
  destruct (run_consistent _ _ _ Hrun Hnd0) as (Hq & Hno & Hip & Haw & Hres).
  destruct (run_index _ _ _ Hrun Hnd0) as (Hidx & Hawu & _).
  unfold index in *.
  assert (Hin : k ∈ awaiters w) by (eapply list_elem_of_lookup_2, Hk).
  destruct (Hq _ _ Hch) as (Hp & Hl & He & Hr).
  rewrite (Hr (ak_command_id k)). split.
  - intros Hnot.
    assert (Hout : is_Some (_command_index (ccq w) !! ak_command_id k)).
    { apply Hidx. split; [apply Hawu, Hin | exact Hnot]. }
    destruct Hout as [ch Hix].
    destruct (Hip _ _ Hix) as (q0 & c & Hch0 & Hc).
    assert (ch = ak_channel k) as ->.
    { destruct (Hq _ _ Hch0) as (Hp0 & _).
      destruct (Hp0 _ c Hc) as (_ & _ & Hev).
      apply (added_one_channel tr w log _ _ (ak_command_id k) Hrun Hnd0).
      - eapply list_elem_of_lookup_2, Hev.
      - eapply list_elem_of_lookup_2, Haw, Hin. }
    rewrite Hch in Hch0. injection Hch0 as <-. rewrite Hc.
    unfold is_set in Hset.
    destruct (_events q !! ak_event k) as [[|]|] eqn:Hev; try discriminate.
    destruct (He _ Hev) as (x' & Hx' & [r0 Hr0]).
    rewrite (Haw k Hin) in Hx'. injection Hx' as <-.
    rewrite Hr0. reflexivity.
  - intros Hret.
    destruct (_pending q !! ak_command_id k) as [c|] eqn:Hc; [| reflexivity].
    exfalso. destruct (Hp _ c Hc) as (Hi & _).
    assert (Hsome : is_Some (_command_index (ccq w) !! ak_command_id k))
      by (rewrite Hi; eauto).
    apply Hidx in Hsome as (_ & Hnot). exact (Hnot Hret).
Qed.

Lemma await_returns_last_result_witness :
  match run boot Scenario.completed_before_poll with
  | Some (w, log) =>
      exists l1 l2,
        log = l1 ++ Awaited Scenario.u1 (inr (PyInt 42)) :: l2
        /\ (~ await_returned Scenario.u1 l1 ->
            last_result Scenario.u1 l1 = Some (PyInt 42))
        /\ (await_returned Scenario.u1 l1 -> PyInt 42 = PyNone)
  | None => False
  end.
Proof.
  destruct (run boot Scenario.completed_before_poll) as [[w log]|] eqn:Hrun;
    [| vm_compute in Hrun; discriminate].
  pose proof Hrun as Hlog. vm_compute in Hlog. injection Hlog as _ Hlog.
  assert (Hnd : NoDup (uuids Scenario.completed_before_poll)).
  { apply (bool_decide_unpack _). vm_compute. exact I. }
  subst log.
  match type of Hrun with
  | _ = Some (_, ?a :: ?b :: Awaited ?x ?r :: ?rest) =>
      exists [a; b], rest; split; [reflexivity |];
      exact (await_returns_last_result _ _ _ [a; b] Scenario.u1 (PyInt 42)
               rest Hrun Hnd eq_refl)
  end.
Defined.



End ResultsMore.

Section StatsMore.

Import CQ CCQ Loop.

Lemma outstanding_iff log x :
  outstanding log x = true <-> ~ await_returned x log.
Proof.
  unfold outstanding, await_returned. rewrite negb_true_iff.
  rewrite Exists_exists. split.
  - intros Hfalse (o & Ho & Hr).
    assert (Htrue : existsb (returned_for x) log = true).
    { apply existsb_exists. exists o. split; [| exact Hr].
      apply list_elem_of_In, Ho. }
    congruence.
  - intros Hnot. destruct (existsb (returned_for x) log) eqn:E; [| reflexivity].
    exfalso. apply Hnot. apply existsb_exists in E as (o & Ho & Hr).
    exists o. split; [apply list_elem_of_In, Ho | exact Hr].
Qed.

(** The pending map of a channel's queue holds exactly the outstanding
    commands added to that channel. *)
Lemma pending_outstanding tr w log ch q :
  run boot tr = Some (w, log) -> NoDup (uuids tr) ->
  _channels (ccq w) !! ch = Some q ->
  (forall x, is_Some (_pending q !! x) <-> x ∈ outstanding_ids ch log)
  /\ size (_pending q) = length (outstanding_ids ch log).
Proof.
  intros Hrun Hnd Hch.
  destruct (run_consistent _ _ _ Hrun Hnd) as (Hq & Hno & Hip & Haw & Hres).
  destruct (run_index _ _ _ Hrun Hnd) as (Hidx & _ & _).
  unfold index in *.
  assert (Hdom : forall x, is_Some (_pending q !! x)
                           <-> x ∈ outstanding_ids ch log).
  { intros x. unfold outstanding_ids. rewrite list_elem_of_filter.
    rewrite outstanding_iff. split.
    - intros [c Hc]. destruct (Hq ch q Hch) as (Hp & _).
      destruct (Hp x c Hc) as (Hi & _ & Hev). split.
      + apply Hidx. rewrite Hi. eauto.
      + eapply list_elem_of_lookup_2, Hev.
    - intros (Hnot & Hin).
      assert (Hsome : is_Some (_command_index (ccq w) !! x)).
      { apply Hidx. split; [| exact Hnot].
        eapply run_added_uuid; eauto. }
      destruct Hsome as [ch' Hix].
      destruct (Hip x ch' Hix) as (q' & c & Hch' & Hc).
      assert (ch' = ch) as ->.
      { destruct (Hq ch' q' Hch') as (Hp & _).
        destruct (Hp x c Hc) as (_ & _ & Hev).
        apply (added_one_channel tr w log _ _ x Hrun Hnd); [| exact Hin].
        eapply list_elem_of_lookup_2, Hev. }
      rewrite Hch in Hch'. injection Hch' as <-. rewrite Hc. eauto. }
  split; [exact Hdom |].
  rewrite <- (size_dom (D := gset str)).
  assert (Heq : dom (_pending q)
                = (list_to_set (outstanding_ids ch log) : gset str)).
  { apply set_eq. intros x. rewrite elem_of_dom, elem_of_list_to_set.
    apply Hdom. }
  rewrite Heq. apply size_list_to_set. unfold outstanding_ids.
  apply NoDup_filter. eapply run_added_NoDup; eauto.
Qed.

(** X18: what [get_stats] counts.  Along every schedule, with [uuid4]
    values that do not repeat, [get_stats()] has an entry for a channel
    exactly when some command added to that channel is outstanding (no
    [wait_for_result] for it has come back), and the entry is the number
    of these commands; a command that was polled, or whose result was set,
    but whose submitter has not come back yet still counts. *)
Theorem get_stats_outstanding tr w log ch n :
  run boot tr = Some (w, log) ->
  NoDup (uuids tr) ->
  CCQ.get_stats (ccq w) !! ch = Some n <->
  0 < n /\ n = length (outstanding_ids ch log).
Proof.
  intros Hrun Hnd. unfold CCQ.get_stats.
  rewrite map_lookup_filter_Some, lookup_fmap. simpl.
  destruct (_channels (ccq w) !! ch) as [q|] eqn:Hch; simpl.
  - destruct (pending_outstanding _ _ _ _ _ Hrun Hnd Hch) as (_ & Hsize).
    unfold get_pending_count. rewrite Hsize. split.
    + intros ([= <-] & Hpos). auto.
    + intros (Hpos & ->). auto.
  - destruct (run_consistent _ _ _ Hrun Hnd) as (_ & Hno & _).
    unfold outstanding_ids. rewrite (Hno ch Hch). simpl. split.
    + intros ([=] & _).
    + intros (Hpos & ->). inversion Hpos.
Qed.

Lemma get_stats_outstanding_witness :
  match run boot Scenario.two_submits with
  | Some (w, log) =>
      CCQ.get_stats (ccq w) !! Scenario.alpha = Some 2 <->
      0 < 2 /\ 2 = length (outstanding_ids Scenario.alpha log)
  | None => False
  end.
Proof.
  destruct (run boot Scenario.two_submits) as [[w log]|] eqn:Hrun;
    [| vm_compute in Hrun; discriminate].
  apply (get_stats_outstanding Scenario.two_submits w log Scenario.alpha 2
           Hrun).
  apply (bool_decide_unpack _). vm_compute. exact I.
Defined.

Lemma sum_pending_insert (channels : gmap str CommandQueue) ch q' :
  Server.sum_values (get_pending_count <$> <[ch := q']> channels)
  + default 0 (get_pending_count <$> channels !! ch)
  = get_pending_count q' + Server.sum_values (get_pending_count <$> channels).
Proof. rewrite fmap_insert, <- lookup_fmap. apply sum_values_update. Qed.

Lemma size_delete_Some {A} (m : gmap str A) x c :
  m !! x = Some c -> size m = S (size (delete x m)).
Proof.
  intros Hx. rewrite <- (insert_delete_id m x c Hx) at 1.
  apply map_size_insert_None, lookup_delete_eq.
Qed.

Lemma fmap_pending_same (channels channels' : gmap str CommandQueue) :
  (forall ch q', channels' !! ch = Some q' ->
     exists q, channels !! ch = Some q /\ _pending q' = _pending q) ->
  (forall ch, channels' !! ch = None -> channels !! ch = None) ->
  get_pending_count <$> channels' = get_pending_count <$> channels.
Proof.
  intros Hv Hvn. apply map_eq. intros ch. rewrite !lookup_fmap.
  destruct (channels' !! ch) as [q'|] eqn:E.
  - destruct (Hv ch q' E) as (q & -> & HP). simpl.
    unfold get_pending_count. rewrite HP. reflexivity.
  - rewrite (Hvn ch E). reflexivity.
Qed.

(** A [wait_for_result] that comes back takes one command out of the
    pending maps exactly when it takes one entry out of the index. *)
Lemma pending_total_pop tr w log k q :
  run boot tr = Some (w, log) -> NoDup (uuids tr) ->
  k ∈ awaiters w ->
  _channels (ccq w) !! ak_channel k = Some q ->
  Server.sum_values (get_pending_count <$> _channels (ccq w)) = size (index w) ->
  Server.sum_values
    (get_pending_count <$>
       <[ak_channel k :=
           {| _pending := delete (ak_command_id k) (_pending q);
              _results := delete (ak_command_id k) (_results q);
              _queue := _queue q; _events := _events q |}]>
         (_channels (ccq w)))
  = size (delete (ak_command_id k) (_command_index (ccq w))).
Proof.
  intros Hrun Hnd Hk Hch IH.
  destruct (run_consistent _ _ _ Hrun Hnd) as (Hq & Hno & Hip & Haw & Hres).
  unfold index in *.
  match goal with |- Server.sum_values (_ <$> <[_ := ?q']> _) = _ =>
    pose proof (sum_pending_insert (_channels (ccq w)) (ak_channel k) q')
      as Hsum end.
  rewrite Hch in Hsum. simpl in Hsum. unfold get_pending_count in Hsum at 2 3.
  simpl in Hsum.
  destruct (_pending q !! ak_command_id k) as [c|] eqn:Hc.
  - destruct (Hq _ _ Hch) as (Hp & _). destruct (Hp _ c Hc) as (Hi & _).
    rewrite (size_delete_Some _ _ _ Hc) in Hsum.
    rewrite (size_delete_Some _ _ _ Hi) in IH. lia.
  - assert (Hi : _command_index (ccq w) !! ak_command_id k = None).
    { destruct (_command_index (ccq w) !! ak_command_id k) as [ch|] eqn:Hix;
        [| reflexivity].
      exfalso. destruct (Hip _ _ Hix) as (q0 & c & Hch0 & Hc0).
      assert (ch = ak_channel k) as ->.
      { destruct (Hq _ _ Hch0) as (Hp0 & _).
        destruct (Hp0 _ c Hc0) as (_ & _ & Hev).
        apply (added_one_channel tr w log _ _ (ak_command_id k) Hrun Hnd).
        - eapply list_elem_of_lookup_2, Hev.
        - eapply list_elem_of_lookup_2, Haw, Hk. }
      congruence. }
    pose proof (f_equal size (delete_id _ _ Hc)) as Hs1.
    pose proof (f_equal size (delete_id _ _ Hi)) as Hs2. lia.
Qed.

#[local] Arguments poll_loop : simpl never.

(** The pending maps of all channels together are as large as the index. *)
Lemma run_pending_total tr w log :
  run boot tr = Some (w, log) -> NoDup (uuids tr) ->
  Server.sum_values (get_pending_count <$> _channels (ccq w)) = size (index w).
Proof.
  revert tr w log.
  apply (run_step_ind
           (fun tr w log => NoDup (uuids tr) ->
              Server.sum_values (get_pending_count <$> _channels (ccq w))
              = size (index w))).
  { intros _. reflexivity. }
  intros tr w log a w' obs Hrun IH Hstep Hnd.
  pose proof (NoDup_uuids_snoc _ _ Hnd) as Hnd0.
  specialize (IH Hnd0).
  destruct (run_consistent _ _ _ Hrun Hnd0) as (Hq & Hno & Hip & Haw & Hres).
  destruct (run_index _ _ _ Hrun Hnd0) as (Hidx & _ & _).
  assert (poll_case :
            is_poll a = true ->
            Server.sum_values (get_pending_count <$> _channels (ccq w'))
            = size (index w')).
  { intros Hpoll.
    destruct (step_poll_view _ _ _ _ Hstep Hpoll) as (Hi & _ & _ & Hv & Hvn).
    rewrite Hi, <- IH. f_equal. apply fmap_pending_same; [| exact Hvn].
    intros ch q' Hq'. destruct (Hv ch q' Hq') as (q0 & ? & ? & _). eauto. }
  unfold index in *.
  destruct a as [channel tool params u t | channel timeout clock | i | i clock
                | i | x r | x t | i | i | ];
    try (apply poll_case; reflexivity);
    clear poll_case; revert Hstep; simpl.
  - (* add_command *)
    pose proof (NoDup_uuids_fresh _ _ _ _ _ _ Hnd) as Hnew.
    assert (Hfresh : _command_index (ccq w) !! u = None).
    { destruct (_command_index (ccq w) !! u) eqn:E; [| reflexivity].
      exfalso. apply Hnew, Hidx. rewrite E. eauto. }
    unfold CCQ.add_command.
    destruct (_channels (ccq w) !! channel) as [queue|] eqn:Hch; simpl;
      intros [= <- <-]; simpl.
    + match goal with |- Server.sum_values (_ <$> <[_ := ?q']> _) = _ =>
        pose proof (sum_pending_insert (_channels (ccq w)) channel q')
          as Hsum end.
      rewrite Hch in Hsum. simpl in Hsum.
      unfold get_pending_count in Hsum at 2 3. simpl in Hsum.
      assert (Hpu : _pending queue !! u = None).
      { destruct (_pending queue !! u) as [c|] eqn:E; [| reflexivity].
        destruct (Hq _ _ Hch) as (Hp & _). destruct (Hp u c E) as (Hi & _).
        unfold index in Hi. congruence. }
      rewrite (map_size_insert_None _ _ _ Hpu) in Hsum.
      rewrite (map_size_insert_None _ _ _ Hfresh). lia.
    + rewrite insert_insert_eq.
      match goal with |- Server.sum_values (_ <$> <[_ := ?q']> _) = _ =>
        pose proof (sum_pending_insert (_channels (ccq w)) channel q')
          as Hsum end.
      rewrite Hch in Hsum. simpl in Hsum.
      unfold get_pending_count in Hsum at 2. simpl in Hsum.
      rewrite (map_size_insert_None _ _ _ (lookup_empty u)) in Hsum.
      rewrite map_size_empty in Hsum.
      rewrite (map_size_insert_None _ _ _ Hfresh). lia.
  - (* set_result *)
    unfold CCQ.set_result.
    destruct (_command_index (ccq w) !! x) as [ch|] eqn:Hix;
      [| intros [= <- <-]; exact IH].
    destruct (_channels (ccq w) !! ch) as [q|] eqn:Hch;
      [| intros [= <- <-]; exact IH].
    destruct (CQ.set_result q x r) as [found q'] eqn:Hs.
    intros [= <- <-]. simpl. rewrite <- IH. f_equal.
    apply fmap_pending_same.
    + intros c q0. destruct (decide (ch = c)) as [<- | Hne].
      * rewrite lookup_insert_eq. intros [= <-]. exists q.
        split; [exact Hch |].
        replace q' with (CQ.set_result q x r).2 by (rewrite Hs; reflexivity).
        apply set_result_pending.
      * rewrite lookup_insert_ne by assumption. eauto.
    + intros c Hc. apply lookup_insert_None in Hc. tauto.
  - (* wait_for_result *)
    destruct (CCQ.wait_for_result_begin (ccq w) x) as [[ch0 cmd]|];
      intros [= <- <-]; exact IH.
  - (* the event of a suspended awaiter is set *)
    destruct (awaiters w !! i) as [k|] eqn:Hk; [| discriminate].
    unfold wait_for_result_event_set.
    destruct (_channels (ccq w) !! ak_channel k) as [q|] eqn:Hch;
      [| discriminate].
    destruct (negb (Qle_zero (ak_timeout k)) && is_set q (ak_event k));
      [| discriminate].
    simpl. intros [= <- <-]. simpl.
    apply (pending_total_pop tr w log k q Hrun Hnd0); auto.
    eapply list_elem_of_lookup_2, Hk.
  - (* a suspended awaiter times out *)
    destruct (awaiters w !! i) as [k|] eqn:Hk; [| discriminate].
    unfold wait_for_result_timed_out.
    destruct (_channels (ccq w) !! ak_channel k) as [q|] eqn:Hch;
      [| discriminate].
    unfold remove_command. case_bool_decide as Hpx; intros [= <- <-]; simpl.
    + apply (pending_total_pop tr w log k q Hrun Hnd0); auto.
      eapply list_elem_of_lookup_2, Hk.
    + assert (Hnone : _pending q !! ak_command_id k = None).
      { destruct (_pending q !! ak_command_id k) eqn:E; [| reflexivity].
        exfalso. apply Hpx. eauto. }
      rewrite <- (queue_pop_absent _ _ _ _ _ (Hq _ _ Hch) Hnone) at 1.
      apply (pending_total_pop tr w log k q Hrun Hnd0); auto.
      eapply list_elem_of_lookup_2, Hk.
  - (* get_stats *)
    intros [= <- <-]. exact IH.
Qed.

(** X19: what the health endpoint reports as [pending_commands].  Along
    every schedule, with [uuid4] values that do not repeat, it is the
    number of commands that were added and for which no [wait_for_result]
    has come back, over all channels: the size of the command index. *)
Theorem health_counts_outstanding tr w log include_channel_details reg :
  run boot tr = Some (w, log) ->
  NoDup (uuids tr) ->
  Server.pending_commands
    (Server.health_check include_channel_details (ccq w) reg)
  = length (filter (fun x => outstanding log x = true) (uuids tr))
  /\ Server.pending_commands
       (Server.health_check include_channel_details (ccq w) reg)
     = size (_command_index (ccq w)).
Proof.
  intros Hrun Hnd.
  assert (Htotal : Server.pending_commands
                     (Server.health_check include_channel_details (ccq w) reg)
                   = size (_command_index (ccq w))).
  { unfold Server.health_check. simpl. unfold CCQ.get_stats.
    rewrite sum_values_positive. apply (run_pending_total _ _ _ Hrun Hnd). }
  split; [| exact Htotal]. rewrite Htotal.
  destruct (run_index _ _ _ Hrun Hnd) as (Hidx & _ & _). unfold index in Hidx.
  rewrite <- (size_dom (D := gset str)).
  assert (Heq : dom (_command_index (ccq w))
                = (list_to_set
                     (filter (fun x => outstanding log x = true) (uuids tr))
                   : gset str)).
  { apply set_eq. intros x.
    rewrite elem_of_dom, elem_of_list_to_set, list_elem_of_filter.
    rewrite outstanding_iff, Hidx. tauto. }
  rewrite Heq. apply size_list_to_set, NoDup_filter, Hnd.
Qed.

Lemma health_counts_outstanding_witness :
  match run boot Scenario.submitter_timeout with
  | Some (w, log) =>
      Server.pending_commands (Server.health_check false (ccq w) Registry.init)
      = length (filter (fun x => outstanding log x = true)
                  (uuids Scenario.submitter_timeout))
      /\ Server.pending_commands
           (Server.health_check false (ccq w) Registry.init)
         = size (_command_index (ccq w))
  | None => False
  end.
Proof.
  destruct (run boot Scenario.submitter_timeout) as [[w log]|] eqn:Hrun;
    [| vm_compute in Hrun; discriminate].
  apply (health_counts_outstanding Scenario.submitter_timeout w log false
           Registry.init Hrun).
  apply (bool_decide_unpack _). vm_compute. exact I.
Defined.

End StatsMore.

Section HandlerMore.

Import CQ CCQ Loop Handler.

(** X20: a tool call never finds its own command missing.  From any
    state, [_execute_1c_command] adds the command and is suspended in
    [wait_for_result] without [KeyError]; if the wait then times out, the
    caller gets [TimeoutError], the command is no longer known to
    [set_result], but it is still at the end of the channel's queue. *)
Theorem execute_1c_command_flow w tool params channel uuid4 utcnow timeout :
  exists w1 w2 k command,
    run w (_execute_1c_command tool params channel uuid4 utcnow timeout)
    = Some (w1, [Stats (CCQ.get_stats (ccq w));
                 Added channel uuid4 tool params])
    /\ awaiters w1 = awaiters w ++ [k]
    /\ ak_command_id k = uuid4 /\ ak_channel k = channel
    /\ step w1 (AwaiterTimedOut (length (awaiters w)))
       = Some (w2, [Awaited uuid4 (inl TimeoutError)])
    /\ awaiters w2 = awaiters w
    /\ _get_command_channel (ccq w2) uuid4 = None
    /\ (forall result, (CCQ.set_result (ccq w2) uuid4 result).1 = false)
    /\ items w2 channel = items w channel ++ [command]
    /\ id command = uuid4.
Proof.
  set (q0 := default CQ.new (_channels (ccq w) !! channel)).
  set (command := {| id := uuid4; CQ.tool := tool; CQ.params := params;
                     created_at := utcnow;
                     result_event := length (_events q0) |}).
  set (q1 := (CQ.add_command q0 uuid4 utcnow tool params).2).
  set (k := {| ak_command_id := uuid4; ak_channel := channel;
               ak_event := length (_events q0); ak_timeout := timeout |}).
  assert (Hadd : CCQ.add_command (ccq w) uuid4 utcnow channel tool params
                 = (uuid4,
                    {| _channels := <[channel := q1]> (_channels (ccq w));
                       _command_index :=
                         <[uuid4 := channel]> (_command_index (ccq w)) |})).
  { unfold CCQ.add_command, q1, q0.
    destruct (_channels (ccq w) !! channel) as [queue|]; simpl;
      [reflexivity |].
    rewrite insert_insert_eq. reflexivity. }
  assert (Hitems : _queue q1 = items w channel ++ [command]).
  { unfold q1, items, q0, command.
    destruct (_channels (ccq w) !! channel); reflexivity. }
  eexists _, _, k, command.
  split.
  { unfold _execute_1c_command. cbn [run step]. rewrite Hadd.
    cbn [ccq pollers awaiters]. unfold CCQ.wait_for_result_begin.
    cbn [_command_index _channels]. rewrite !lookup_insert_eq.
    unfold CQ.wait_for_result_begin, q1, CQ.add_command. cbn [snd _pending].
    rewrite lookup_insert_eq. cbn [result_event]. reflexivity. }
  split; [reflexivity |]. split; [reflexivity |]. split; [reflexivity |].
  split.
  { cbn [step ccq pollers awaiters]. rewrite list_lookup_middle by reflexivity.
    unfold wait_for_result_timed_out. cbn [ak_channel ak_command_id k
      _channels _command_index].
    rewrite lookup_insert_eq. unfold remove_command, q1, CQ.add_command.
    cbn [snd _pending]. rewrite lookup_insert_eq.
    rewrite bool_decide_eq_true_2 by eauto.
    rewrite delete_middle, app_nil_r. reflexivity. }
  split; [reflexivity |]. split.
  { unfold _get_command_channel. simpl. apply lookup_delete_eq. }
  split.
  { intros result. unfold CCQ.set_result. simpl. rewrite lookup_delete_eq.
    reflexivity. }
  split; [| reflexivity].
  unfold items at 1. simpl. rewrite lookup_insert_eq. simpl.
  exact Hitems.
Qed.

End HandlerMore.

Section CleanupMore.

Import CQ.

Lemma foldl_delete_lookup {A} (ks : list str) : forall (m : gmap str A) x,
  foldl (fun m k => delete k m) m ks !! x
  = if bool_decide (x ∈ ks) then None else m !! x.
Proof.
  induction ks as [|k ks IH]; intros m x; cbn [foldl].
  - rewrite bool_decide_false; [reflexivity |]. intros H. inversion H.
  - rewrite IH. destruct (decide (x = k)) as [-> | Hne].
    + rewrite lookup_delete_eq.
      rewrite (bool_decide_true (k ∈ k :: ks)) by apply list_elem_of_here.
      destruct (bool_decide (k ∈ ks)); reflexivity.
    + rewrite lookup_delete_ne by congruence.
      destruct (decide (x ∈ ks)) as [Hin | Hnin].
      * rewrite !bool_decide_true; [reflexivity | | exact Hin].
        apply list_elem_of_further, Hin.
      * rewrite !bool_decide_false; [reflexivity | | exact Hnin].
        intros Hin. apply elem_of_cons in Hin as [? | ?]; [congruence | auto].
Qed.

(** X21: [cleanup_expired] removes from the pending map exactly the
    commands older than [max_age_seconds], together with their results,
    and returns how many they were.  It does not touch the
    [asyncio.Queue]: an expired command that was not polled yet is still
    handed out by the next [get_next_command] of the [CommandQueue]. *)
Theorem cleanup_expired_exact self now max_age_seconds :
  let removed := (cleanup_expired self now max_age_seconds).1 in
  let self' := (cleanup_expired self now max_age_seconds).2 in
  let kept (c : Command) := Qle_bool (now - created_at c) max_age_seconds in
  (forall x, _pending self' !! x
             = match _pending self !! x with
               | Some c => if kept c then Some c else None
               | None => None
               end)
  /\ (forall x, _results self' !! x
                = match _pending self !! x with
                  | Some c => if kept c then _results self !! x else None
                  | None => _results self !! x
                  end)
  /\ removed + size (_pending self') = size (_pending self)
  /\ _queue self' = _queue self
  /\ forall timeout, get_next_command self' timeout
                     = match get_next_command self timeout with
                       | GetReturn (Some c) _ => GetReturn (Some c) (dequeued self')
                       | GetReturn None _ => GetReturn None self'
                       | GetWait t => GetWait t
                       end.
Proof.
  cbv zeta. unfold cleanup_expired. cbn [fst snd _pending _results _queue].
  set (expired := fun kv : str * Command =>
         negb (Qle_bool (now - created_at kv.2) max_age_seconds) = true).
  set (ids := (map_to_list (filter expired (_pending self))).*1).
  assert (Hin : forall x, x ∈ ids <->
            exists c, _pending self !! x = Some c
                      /\ Qle_bool (now - created_at c) max_age_seconds = false).
  { intros x. unfold ids. rewrite list_elem_of_fmap. split.
    - intros ([x' c] & -> & Hxc). apply elem_of_map_to_list in Hxc.
      apply map_lookup_filter_Some in Hxc as (Hxc & He). exists c.
      split; [exact Hxc |]. unfold expired in He. simpl in He.
      apply negb_true_iff, He.
    - intros (c & Hxc & He). exists (x, c). split; [reflexivity |].
      apply elem_of_map_to_list, map_lookup_filter_Some.
      split; [exact Hxc |]. unfold expired. simpl. rewrite He. reflexivity. }
  assert (Hpending : forall x,
            foldl (fun m k => delete k m) (_pending self) ids !! x
            = match _pending self !! x with
              | Some c =>
                  if Qle_bool (now - created_at c) max_age_seconds
                  then Some c else None
              | None => None
              end).
  { intros x. rewrite foldl_delete_lookup.
    destruct (_pending self !! x) as [c|] eqn:Hx.
    - destruct (Qle_bool (now - created_at c) max_age_seconds) eqn:He.
      + rewrite bool_decide_false; [reflexivity |].
        intros Hx'. apply Hin in Hx' as (c' & Hc' & He'). congruence.
      + rewrite bool_decide_true; [reflexivity |]. apply Hin. eauto.
    - destruct (bool_decide (x ∈ ids)); reflexivity. }
  split; [exact Hpending |]. split; [| split; [| split]].
  - intros x. rewrite foldl_delete_lookup.
    destruct (_pending self !! x) as [c|] eqn:Hx.
    + destruct (Qle_bool (now - created_at c) max_age_seconds) eqn:He.
      * rewrite bool_decide_false; [reflexivity |].
        intros Hx'. apply Hin in Hx' as (c' & Hc' & He'). congruence.
      * rewrite bool_decide_true; [reflexivity |]. apply Hin. eauto.
    + rewrite bool_decide_false; [reflexivity |].
      intros Hx'. apply Hin in Hx' as (c' & Hc' & _). congruence.
  - assert (Hkept : foldl (fun m k => delete k m) (_pending self) ids
                    = filter (fun kv => ~ expired kv) (_pending self)).
    { apply map_eq. intros x. rewrite Hpending.
      destruct (_pending self !! x) as [c|] eqn:Hx.
      - destruct (Qle_bool (now - created_at c) max_age_seconds) eqn:He.
        + symmetry. apply map_lookup_filter_Some. split; [exact Hx |].
          unfold expired. simpl. rewrite He. discriminate.
        + symmetry. apply map_lookup_filter_None. right.
          intros c' Hc' Hne. apply Hne. unfold expired. simpl.
          rewrite Hx in Hc'. injection Hc' as <-. rewrite He. reflexivity.
      - symmetry. apply map_lookup_filter_None. left. exact Hx. }
    rewrite Hkept. unfold ids. rewrite length_fmap, length_map_to_list.
    rewrite <- (map_filter_union_complement expired (_pending self)) at 3.
    symmetry. apply map_size_disj_union, map_disjoint_filter_complement.
  - reflexivity.
  - intros timeout. unfold get_next_command, get_nowait, dequeued.
    cbn [_queue _pending _results _events].
    destruct timeout as [t|]; [destruct (Qle_zero t) |];
      destruct (_queue self); reflexivity.
Qed.

End CleanupMore.

Section PollMore.

Import Registry CQ CCQ Poll.

(** X22: the poll endpoint with the default settings.  Without a
    [timeout] parameter (or with an empty one) and with
    [settings.poll_timeout] zero, [poll_command] never waits and never
    fails: it polls the normalized channel, answers 200 with the first
    command of that channel's queue that is still in the index, and
    answers 204 only when the channel has no queue or when it has emptied
    the queue. *)
Theorem poll_command_default_settings float settings_poll_timeout
    query_params q clock :
  (settings_poll_timeout == 0)%Q ->
  truthy (default [] (query_params !! py "timeout")) = false ->
  let channel :=
    validate_channel_id (default DEFAULT_CHANNEL (query_params !! py "channel")) in
  grammar channel
  /\ match _channels q !! channel with
     | None =>
         poll_command float settings_poll_timeout query_params q clock
         = Some (Responded 204 None, q)
     | Some queue =>
         exists command queue' skipped,
           poll_command float settings_poll_timeout query_params q clock
           = Some (match command with
                   | Some c => Responded 200 (Some (to_dict c))
                   | None => Responded 204 None
                   end, with_queue q channel queue')
           /\ _queue queue
              = skipped ++ match command with Some c => [c] | None => [] end
                        ++ _queue queue'
           /\ Forall (fun c => _command_index q !! id c = None) skipped
           /\ match command with
              | Some c => is_Some (_command_index q !! id c)
              | None => _queue queue' = []
              end
     end.
Proof.
  intros Hzero Hparam. cbv zeta.
  split; [apply validate_channel_id_grammar |].
  assert (Htimeout : poll_timeout float settings_poll_timeout query_params
                     = Some settings_poll_timeout).
  { unfold poll_timeout.
    destruct (query_params !! py "timeout") as [p|]; [| reflexivity].
    simpl in Hparam. rewrite Hparam. reflexivity. }
  unfold poll_command. rewrite Htimeout. unfold CCQ.get_next_command.
  destruct (_channels q !! validate_channel_id _) as [queue|] eqn:Hch;
    [| reflexivity].
  unfold poll_deadline. rewrite (proj1 (Qtruthy_zero _ Hzero)).
  destruct (poll_loop_nowait clock 0 (_command_index q)
              (Some settings_poll_timeout) queue)
    as (command & queue' & skipped & -> & H); [eauto |].
  exists command, queue', skipped. split; [| exact H].
  destruct command; reflexivity.
Qed.

Lemma poll_command_default_settings_witness :
  exists command queue' skipped,
    poll_command (fun _ => None) 0 ({[ py "channel" := py " alpha " ]})
      Scenario.one_pending Scenario.seconds
    = Some (match command with
            | Some c => Responded 200 (Some (to_dict c))
            | None => Responded 204 None
            end, with_queue Scenario.one_pending Scenario.alpha queue')
    /\ _queue (CQ.add_command CQ.new Scenario.u1 0 Scenario.tool_X PyNone).2
       = skipped ++ match command with Some c => [c] | None => [] end
                 ++ _queue queue'
    /\ Forall (fun c => _command_index Scenario.one_pending !! id c = None)
         skipped
    /\ match command with
       | Some c => is_Some (_command_index Scenario.one_pending !! id c)
       | None => _queue queue' = []
       end.
Proof.
  pose proof (poll_command_default_settings (fun _ => None) 0
                ({[ py "channel" := py " alpha " ]}) Scenario.one_pending
                Scenario.seconds) as H.
  destruct H as (_ & H); [reflexivity | reflexivity |].
  exact H.
Defined.

End PollMore.
